(** * Browser-automation engine: snapshotter, selector ranker, executor, goal loop

    A shallow embedding of the two server variants of the repository:
    - [src/unnamed/part_000]: class [TrulyIntelligentE2EGenerator]
      (in-page snapshot script, selector ranker, action executor, goal loop);
    - [src/unnamed/part_001]: class [AIActionProcessor] (rule-based fallback
      command parser, selector finders), [handleChatMessage], the dispatcher
      [executeAction] and its handlers.

    Conventions of the embedding.
    - A JavaScript string is a [string]: a sequence of UTF-16 code units, here
      restricted to the code units below 256 (one [ascii] each).  On that
      domain [toLowerCase], [trim], [\s], [.] and the [i] flag are modelled
      exactly.  Literal text of the program outside that range (the emoji of
      some messages) is left out of the literals; nothing inspects it.
    - A thrown [Error] is its [message]; [Res A] is either a returned value or
      a thrown message.
    - A reply of the decision oracle is a [json] value, whatever [JSON.parse]
      made of the text: the program does not check its shape.  Reading a
      property of [null] throws a TypeError, and so does the conversion to a
      string of an object that has a member [toString].
    - A JavaScript number that the code uses as an index, a delay or an
      amount is a [Z] (an integer, printed in decimal as JavaScript prints the
      integers below 10^21); [NaN] is [None] where [parseInt] can produce it.
    - [broadcast] records what it is given and does not throw: its argument
      is always serializable, and it sends to open sockets only.
    - [Array.prototype.sort] is a stable sort (ECMAScript 2019); it is modelled
      by a stable insertion sort, which agrees with every stable sort on the
      consistent comparators the program passes. *)

From Stdlib Require Import ZArith QArith Qround Qminmax Ascii String Lia.
From stdpp Require Import base option list gmap strings pretty sorting.

Open Scope Z_scope.

(* ===================================================================== *)
(** * JavaScript values and built-ins used by the program *)
(* ===================================================================== *)

Module JS.

(** Completion of a call: a value, or a thrown error (its message). *)
Inductive Res (A : Type) : Type :=
| Ok (a : A)
| Throw (message : string).
Arguments Ok {A} a.
Arguments Throw {A} message.

Definition res_bind {A B} (r : Res A) (f : A -> Res B) : Res B :=
  match r with
  | Ok a => f a
  | Throw m => Throw m
  end.

(** The double quote character, for selectors such as [[name="q"]]. *)
Definition dq : string := String "034"%char EmptyString.

(** ** Strings *)

Definition code (c : ascii) : Z := Z.of_nat (nat_of_ascii c).

Definition in_range (lo hi : ascii) (c : ascii) : bool :=
  (code lo <=? code c) && (code c <=? code hi).

Definition is_upper (c : ascii) : bool := in_range "A" "Z" c.
Definition is_lower (c : ascii) : bool := in_range "a" "z" c.
Definition is_alpha (c : ascii) : bool := is_upper c || is_lower c.
Definition is_digit (c : ascii) : bool := in_range "0" "9" c.

(** [\w] : [[A-Za-z0-9_]]. *)
Definition is_word (c : ascii) : bool :=
  is_alpha c || is_digit c || bool_decide (c = "_"%char).

(** WhiteSpace and LineTerminator code units below 256: TAB, LF, VT, FF, CR,
    SP and NBSP.  This is the class [\s] and what [trim] strips. *)
Definition is_space (c : ascii) : bool :=
  let n := code c in
  ((9 <=? n) && (n <=? 13)) || (n =? 32) || (n =? 160).

(** LineTerminator below 256; [.] matches everything else. *)
Definition is_line_terminator (c : ascii) : bool :=
  let n := code c in (n =? 10) || (n =? 13).

(** [String.prototype.toLowerCase] on one code unit below 256: A-Z and the
    Latin-1 capitals U+00C0..U+00DE (except the multiplication sign U+00D7)
    move up by 32. *)
Definition lower_char (c : ascii) : ascii :=
  let n := code c in
  if ((65 <=? n) && (n <=? 90)) || ((192 <=? n) && (n <=? 222) && negb (n =? 215))
  then ascii_of_nat (Z.to_nat (n + 32))
  else c.

Fixpoint toLowerCase (s : string) : string :=
  match s with
  | EmptyString => EmptyString
  | String c s' => String (lower_char c) (toLowerCase s')
  end.

Definition startsWith (s p : string) : bool := String.prefix p s.

Fixpoint includes (s sub : string) : bool :=
  String.prefix sub s ||
  match s with
  | EmptyString => false
  | String _ s' => includes s' sub
  end.

Fixpoint includes_char (s : string) (c : ascii) : bool :=
  match s with
  | EmptyString => false
  | String d s' => bool_decide (c = d) || includes_char s' c
  end.

Fixpoint trimStart (s : string) : string :=
  match s with
  | String c s' => if is_space c then trimStart s' else s
  | EmptyString => EmptyString
  end.

Fixpoint trimEnd (s : string) : string :=
  match s with
  | EmptyString => EmptyString
  | String c s' =>
      match trimEnd s' with
      | EmptyString => if is_space c then EmptyString else String c EmptyString
      | t => String c t
      end
  end.

Definition trim (s : string) : string := trimEnd (trimStart s).

(** [s.substring(0, n)] for [0 <= n]. *)
Definition substring0 (n : nat) (s : string) : string := String.substring 0 n s.

Definition slength (s : string) : Z := Z.of_nat (String.length s).

(** [s.split(" ")]: the pieces between single spaces (empty pieces kept). *)
Fixpoint split_space_go (s : string) (cur : string) : list string :=
  match s with
  | EmptyString => [cur]
  | String c s' =>
      if bool_decide (c = " "%char)
      then cur :: split_space_go s' EmptyString
      else split_space_go s' (cur +:+ String c EmptyString)
  end.

Definition split_space (s : string) : list string := split_space_go s EmptyString.

(** [a.join(sep)]. *)
Fixpoint join (sep : string) (l : list string) : string :=
  match l with
  | [] => EmptyString
  | [x] => x
  | x :: l' => x +:+ sep +:+ join sep l'
  end.

(** ** Primitive values, as [JSON.parse] yields them in a field *)

Inductive jsval : Type :=
| JUndefined
| JNull
| JBool (b : bool)
| JNum (n : Z)
| JStr (s : string).

Global Instance jsval_eq_dec : EqDecision jsval.
Proof. solve_decision. Defined.

(** ToBoolean. *)
Definition truthy (v : jsval) : bool :=
  match v with
  | JUndefined | JNull => false
  | JBool b => b
  | JNum n => negb (n =? 0)
  | JStr s => negb (bool_decide (s = EmptyString))
  end.

(** ToString, as a template literal applies it. *)
Definition to_string (v : jsval) : string :=
  match v with
  | JUndefined => "undefined"
  | JNull => "null"
  | JBool true => "true"
  | JBool false => "false"
  | JNum n => pretty n
  | JStr s => s
  end.

(** [x || null] on a string-or-null value. *)
Definition nonempty (s : string) : option string :=
  if bool_decide (s = EmptyString) then None else Some s.

(** ** [parseInt] with no radix argument *)

Definition digit_value (radix : Z) (c : ascii) : option Z :=
  let n := code c in
  let v := if is_digit c then Some (n - 48)
           else if is_lower c then Some (n - 97 + 10)
           else if is_upper c then Some (n - 65 + 10)
           else None in
  match v with
  | Some d => if d <? radix then Some d else None
  | None => None
  end.

(** Longest prefix of digits of the radix, accumulated; [None] when there is
    no digit at all. *)
Fixpoint parse_digits (radix : Z) (s : string) (acc : option Z) : option Z :=
  match s with
  | EmptyString => acc
  | String c s' =>
      match digit_value radix c with
      | Some d => parse_digits radix s' (Some (default 0 acc * radix + d))
      | None => acc
      end
  end.

Definition parseInt_string (s : string) : option Z :=
  let s1 := trimStart s in
  let '(sign, s2) :=
    match s1 with
    | String "-" r => (-1, r)
    | String "+" r => (1, r)
    | _ => (1, s1)
    end in
  let '(radix, s3) :=
    match s2 with
    | String "0" (String "x" r) => (16, r)
    | String "0" (String "X" r) => (16, r)
    | _ => (10, s2)
    end in
  (fun n => sign * n) <$> parse_digits radix s3 None.

(** Template-literal rendering of a [parseInt] result. *)
Definition number_to_string (n : option Z) : string :=
  match n with
  | Some z => pretty z
  | None => "NaN"
  end.

(** [a[i]] for an array and a number: [undefined] off the ends and at [NaN]. *)
Definition array_get {A} (a : list A) (i : option Z) : option A :=
  match i with
  | Some z => if z <? 0 then None else a !! Z.to_nat z
  | None => None
  end.

(** ** Values, as [JSON.parse] yields them *)

(** A primitive, an array, or an object with its members in the order of
    the text.  [JPrim JUndefined] is what reading an absent property
    gives. *)
#[warnings="-register-all"]
Inductive json : Type :=
| JPrim (v : jsval)
| JArr (items : list json)
| JObj (members : list (string * json)).

Coercion JPrim : jsval >-> json.

Global Instance json_eq_dec : EqDecision json.
Proof.
  unfold EqDecision, Decision. fix IH 1. intros a b. decide equality.
  - apply jsval_eq_dec.
  - apply (list_eq_dec (dec := IH)).
  - apply (list_eq_dec (dec := prod_eq_dec (EqDecision0 := String.eq_dec)
                                 (EqDecision1 := IH))).
Defined.

(** Whether the object has a member of its own with this key. *)
Definition has_own (key : string) (members : list (string * json)) : bool :=
  existsb (fun kv => bool_decide (kv.1 = key)) members.

(** [o.key] on an object that [JSON.parse] built: of the members with the
    key the last one counts; without one the read gives [undefined] (none of
    the keys the program reads is a property of [Object.prototype]). *)
Definition member (key : string) (members : list (string * json)) : json :=
  match find (fun kv => bool_decide (kv.1 = key)) (reverse members) with
  | Some kv => kv.2
  | None => JUndefined
  end.

(** ToBoolean: arrays and objects are truthy. *)
Definition truthy_json (v : json) : bool :=
  match v with
  | JPrim p => truthy p
  | JArr _ | JObj _ => true
  end.

Definition not_primitive : string := "Cannot convert object to primitive value".

(** ToString, as a template literal and [parseInt] apply it.  An array is
    joined with commas, [null] and [undefined] items giving the empty
    string.  An object gives [[object Object]] through
    [Object.prototype.toString], unless it has a member [toString] of its
    own: that member is no function, and [valueOf], its own or the
    inherited one, yields no primitive, so the conversion throws a
    TypeError. *)
Fixpoint ToString (v : json) : Res string :=
  match v with
  | JPrim p => Ok (to_string p)
  | JArr items =>
      res_bind
        ((fix each (l : list json) : Res (list string) :=
            match l with
            | [] => Ok []
            | x :: l' =>
                res_bind (match x with
                          | JPrim JUndefined | JPrim JNull => Ok EmptyString
                          | _ => ToString x
                          end) (fun piece =>
                res_bind (each l') (fun pieces => Ok (piece :: pieces)))
            end) items)
        (fun pieces => Ok (join "," pieces))
  | JObj members =>
      if has_own "toString" members then Throw not_primitive
      else Ok "[object Object]"
  end.

(** [parseInt(v)]: the argument is first converted to a string, which may
    throw. *)
Definition parseInt (v : json) : Res (option Z) :=
  res_bind (ToString v) (fun s => Ok (parseInt_string s)).

(** [parseInt(v) || d]: [NaN] and [0] are falsy. *)
Definition parseInt_or (v : json) (d : Z) : Res Z :=
  res_bind (parseInt v) (fun n =>
  Ok match n with
     | Some z => if z =? 0 then d else z
     | None => d
     end).

(** ** [Array.prototype.sort(cmp)] *)

Section Sort.
Context {A : Type} (cmp : A -> A -> Z).

(** [x] was before every element of [l] in the input: it stays before the
    elements it does not compare greater than. *)
Fixpoint sort_insert (x : A) (l : list A) : list A :=
  match l with
  | [] => [x]
  | y :: l' => if cmp x y <=? 0 then x :: l else y :: sort_insert x l'
  end.

Fixpoint sort (l : list A) : list A :=
  match l with
  | [] => []
  | x :: l' => sort_insert x (sort l')
  end.

End Sort.

End JS.

(* ===================================================================== *)
(** * Regular expressions: the backtracking matcher of ECMAScript *)
(* ===================================================================== *)

Module Regex.
Import JS.

(** The constructs the program's patterns use.  Quantifiers are greedy; no
    pattern of the program has a capture group under a quantifier. *)
Inductive regex : Type :=
| Eps
| Chr (p : ascii -> bool)
| Seq (r1 r2 : regex)
| Alt (r1 r2 : regex)
| Star (r : regex)
| Group (g : nat) (r : regex)
| Bol
| Eol.

Definition Plus (r : regex) : regex := Seq r (Star r).
Definition Opt (r : regex) : regex := Alt r Eps.
Definition AtLeast2 (r : regex) : regex := Seq r (Seq r (Star r)).

(** Canonicalize of the [i] flag (no [u] flag): upper-casing, on ASCII.  A
    code unit of 128..255 never canonicalizes to an ASCII one, and the literals
    of the program's patterns are ASCII, so leaving those fixed is exact. *)
Definition canon (c : ascii) : ascii :=
  if is_lower c then ascii_of_nat (Z.to_nat (code c - 32)) else c.

Definition chr (c : ascii) : regex := Chr (fun d => bool_decide (d = c)).
Definition chr_i (c : ascii) : regex := Chr (fun d => bool_decide (canon d = canon c)).

Fixpoint lit (s : string) : regex :=
  match s with
  | EmptyString => Eps
  | String c EmptyString => chr c
  | String c s' => Seq (chr c) (lit s')
  end.

Fixpoint lit_i (s : string) : regex :=
  match s with
  | EmptyString => Eps
  | String c EmptyString => chr_i c
  | String c s' => Seq (chr_i c) (lit_i s')
  end.

Fixpoint alts (l : list regex) : regex :=
  match l with
  | [] => Eps
  | [r] => r
  | r :: l' => Alt r (alts l')
  end.

Fixpoint seqs (l : list regex) : regex :=
  match l with
  | [] => Eps
  | [r] => r
  | r :: l' => Seq r (seqs l')
  end.

Definition any : regex := Chr (fun c => negb (is_line_terminator c)).
Definition space : regex := Chr is_space.
Definition not_space : regex := Chr (fun c => negb (is_space c)).
Definition not_chr (c : ascii) : regex := Chr (fun d => negb (bool_decide (d = c))).

Section Matcher.
Context {R : Type}.

(** A continuation receives the end index, the rest of the input and the
    captures so far. *)
Definition cont : Type := nat -> string -> gmap nat string -> option R.

(** The iterations of a greedy [r*], [n] of them left: one more iteration of
    [body] that consumes something, then the rest; or else the continuation.
    An iteration that consumes nothing fails (RepeatMatcher, step 2.b). *)
Fixpoint star_loop (body : nat -> string -> gmap nat string -> cont -> option R)
    (k : cont) (n : nat) (i : nat) (s : string) (caps : gmap nat string)
    {struct n} : option R :=
  match n with
  | O => k i s caps
  | S n' =>
      match body i s caps
              (fun i' s' caps' =>
                 if (i <? i')%nat then star_loop body k n' i' s' caps' else None) with
      | Some x => Some x
      | None => k i s caps
      end
  end.

(** [rmatch r i s caps k]: match [r] at index [i], where [s] is the input from
    [i] on; alternatives are tried in priority order, and the first one whose
    continuation succeeds wins.  Every iteration of a star consumes a code
    unit, so [length s] iterations are all there can be. *)
Fixpoint rmatch (r : regex) (i : nat) (s : string) (caps : gmap nat string)
    (k : cont) {struct r} : option R :=
  match r with
  | Eps => k i s caps
  | Chr p =>
      match s with
      | String c s' => if p c then k (S i) s' caps else None
      | EmptyString => None
      end
  | Seq r1 r2 => rmatch r1 i s caps (fun i' s' caps' => rmatch r2 i' s' caps' k)
  | Alt r1 r2 =>
      match rmatch r1 i s caps k with
      | Some x => Some x
      | None => rmatch r2 i s caps k
      end
  | Star r1 => star_loop (rmatch r1) k (S (String.length s)) i s caps
  | Group g r1 =>
      rmatch r1 i s caps
        (fun i' s' caps' => k i' s' (<[g := substring0 (i' - i) s]> caps'))
  | Bol => if (i =? 0)%nat then k i s caps else None
  | Eol => match s with EmptyString => k i s caps | _ => None end
  end.

End Matcher.

(** The array [RegExp.prototype.exec] returns: [index], element [0] and the
    groups that took part in the match (an absent key is [undefined]). *)
Record MatchResult : Type := {
  m_index : nat;
  m_text : string;
  m_groups : gmap nat string
}.

(** Leftmost match: start positions are tried from [i] upwards. *)
Fixpoint exec_from (r : regex) (i : nat) (s : string) : option MatchResult :=
  match rmatch r i s ∅ (fun i' _ caps => Some (i', caps)) with
  | Some (i', caps) =>
      Some {| m_index := i; m_text := substring0 (i' - i) s; m_groups := caps |}
  | None =>
      match s with
      | String _ s' => exec_from r (S i) s'
      | EmptyString => None
      end
  end.

(** [s.match(r)] for a pattern without the [g] flag. *)
Definition smatch (s : string) (r : regex) : option MatchResult := exec_from r 0 s.

(** [r.test(s)]. *)
Definition test (r : regex) (s : string) : bool := bool_decide (is_Some (smatch s r)).

(** [m[g]] for [g >= 1]. *)
Definition group (m : MatchResult) (g : nat) : option string := m_groups m !! g.

(** [s.replace(r, "")] for a pattern that starts with [^]: a match can only
    be at index 0, and it is cut off. *)
Definition replace_prefix (s : string) (r : regex) : string :=
  match smatch s r with
  | Some m => String.substring (String.length (m_text m)) (String.length s) s
  | None => s
  end.

(** Every successful match of [r] sets group [g]. *)
Fixpoint defines (g : nat) (r : regex) : bool :=
  match r with
  | Eps | Chr _ | Bol | Eol | Star _ => false
  | Seq r1 r2 => defines g r1 || defines g r2
  | Alt r1 r2 => defines g r1 && defines g r2
  | Group g' r1 => bool_decide (g = g') || defines g r1
  end.

End Regex.

(* ===================================================================== *)
(** * The page as the in-page script reads it *)
(* ===================================================================== *)

Module Dom.
Import JS.

(** [getBoundingClientRect()]: a DOMRect.  Its coordinates are finite doubles;
    each is a rational, and comparisons and [Math.round] are exact on [Q]. *)
Record Rect : Type := { x : Q; y : Q; width : Q; height : Q }.

Definition top (r : Rect) : Q := Qmin (y r) (y r + height r)%Q.
Definition bottom (r : Rect) : Q := Qmax (y r) (y r + height r)%Q.
Definition left (r : Rect) : Q := Qmin (x r) (x r + width r)%Q.
Definition right (r : Rect) : Q := Qmax (x r) (x r + width r)%Q.

(** [Math.round]: the nearest integer, halves towards plus infinity. *)
Definition round (q : Q) : Z := Qfloor (q + (1 # 2))%Q.

(** The properties of [getComputedStyle(element)] the script reads. *)
Record Style : Type := {
  cursor : string;
  display : string;
  visibility : string;
  opacity : string;
  backgroundColor : string;
  color : string;
  zIndex : string
}.

(** [element.className]: a string on HTML elements, an SVGAnimatedString (with
    [baseVal]) on SVG elements, absent elsewhere. *)
Inductive ClassName : Type :=
| ClassString (s : string)
| ClassAnimated (baseVal : string)
| ClassAbsent.

(** One element: the attributes and reflected properties the script reads. *)
Record Element : Type := {
  tagName : string;
  id : string;
  className : ClassName;
  attributes : gmap string string;
  name : jsval;
  type : jsval;
  placeholder : jsval;
  href : jsval;
  src : jsval;
  alt : jsval;
  title : jsval;
  value : jsval;
  checked : jsval;
  disabled : jsval;
  readOnly : jsval;
  required : jsval;
  textContent : string;
  rect : Rect;
  style : Style;
  hasOffsetParent : bool
}.

Definition getAttribute (e : Element) (a : string) : option string := attributes e !! a.
Definition hasAttribute (e : Element) (a : string) : bool :=
  bool_decide (is_Some (attributes e !! a)).

(** The element tree of the document. *)
#[warnings="-register-all"]
Inductive Node : Type :=
| MkNode (element : Element) (children : list Node).

Definition node_element (n : Node) : Element := let 'MkNode e _ := n in e.

(** An element as a script holds it: the element, its identity (its path
    from the root, which no two elements share), and its [parentElement] with
    that parent's [children] and the element's place among them. *)
Record ElementRef : Type := {
  self : Element;
  path : list nat;
  parentElement : option (Element * list Element * nat)
}.

(** [querySelectorAll("*")]: every element, in document order. *)
Fixpoint descendants (p : list nat) (up : option (Element * list Element * nat))
    (n : Node) {struct n} : list ElementRef :=
  let 'MkNode e cs := n in
  {| self := e; path := p; parentElement := up |} ::
  (fix each (j : nat) (l : list Node) {struct l} : list ElementRef :=
     match l with
     | [] => []
     | c :: l' =>
         descendants (p ++ [j]) (Some (e, map node_element cs, j)) c ++ each (S j) l'
     end) 0%nat cs.

Record Document : Type := {
  url : string;
  docTitle : string;
  hostname : string;
  readyState : string;
  activeElement : option string;
  documentElement : Node;
  innerWidth : Q;
  innerHeight : Q;
  bodyInnerText : string
}.

Definition all_elements (d : Document) : list ElementRef :=
  descendants [] None (documentElement d).

(** ASCII whitespace, which separates the tokens of a [class] attribute. *)
Definition is_ascii_whitespace (c : ascii) : bool :=
  let n := code c in (n =? 9) || (n =? 10) || (n =? 12) || (n =? 13) || (n =? 32).

Fixpoint tokens_go (s : string) (cur : string) : list string :=
  let flush := if bool_decide (cur = EmptyString) then [] else [cur] in
  match s with
  | EmptyString => flush
  | String c s' =>
      if is_ascii_whitespace c then flush ++ tokens_go s' EmptyString
      else tokens_go s' (cur +:+ String c EmptyString)
  end.

Definition class_tokens (e : Element) : list string :=
  default [] ((fun s => tokens_go s EmptyString) <$> getAttribute e "class").

(** The compound selectors of the interactive-element query.  A type selector
    matches the lower-cased tag; the value of [type] is compared ASCII
    case-insensitively, as HTML selectors do for that attribute. *)
Definition has_tag (t : string) (e : Element) : bool :=
  bool_decide (toLowerCase (tagName e) = t).
Definition attr_is (a v : string) (e : Element) : bool :=
  bool_decide (getAttribute e a = Some v).
Definition attr_is_ci (a v : string) (e : Element) : bool :=
  bool_decide (toLowerCase <$> getAttribute e a = Some v).
Definition has_class (c : string) (e : Element) : bool :=
  bool_decide (c ∈ class_tokens e).

Definition matches_interactive_query (e : Element) : bool :=
  has_tag "button" e || has_tag "a" e || has_tag "input" e || has_tag "select" e
  || has_tag "textarea" e || hasAttribute e "onclick"
  || attr_is "role" "button" e || attr_is "role" "link" e
  || hasAttribute e "tabindex" || has_class "btn" e || has_class "button" e
  || hasAttribute e "data-testid"
  || attr_is_ci "type" "submit" e || attr_is_ci "type" "button" e
  || attr_is "contenteditable" "true" e.

Definition querySelectorAll (sel : Element -> bool) (d : Document) : list ElementRef :=
  filter (fun r => sel (self r) = true) (all_elements d).

End Dom.

(* ===================================================================== *)
(** * The in-page snapshot script of [getCurrentPageSnapshot] *)
(* ===================================================================== *)

Module Snapshotter.
Import JS Regex.

(** [/^[a-zA-Z][\w-]*$/] *)
Definition safe_pattern : regex :=
  seqs [Bol; Chr is_alpha;
        Star (Chr (fun c => is_word c || bool_decide (c = "-"%char))); Eol].

(** The Element Descriptor and its parts. *)
Module El.

Record Position : Type := {
  x : Z;
  y : Z;
  width : Z;
  height : Z;
  centerX : Z;
  centerY : Z;
  inViewport : bool
}.

Record StyleInfo : Type := {
  cursor : string;
  display : string;
  backgroundColor : string;
  color : string;
  zIndex : string
}.

(** The Element Descriptor that [processElement] builds.  [index] is absent
    until the elements have been sorted and cut. *)
Record ElementData : Type := {
  tag : string;
  text : string;
  id : option string;
  className : option string;
  name : jsval;
  type : jsval;
  placeholder : jsval;
  href : jsval;
  src : jsval;
  alt : jsval;
  title : jsval;
  role : option string;
  ariaLabel : option string;
  dataTestId : option string;
  value : jsval;
  checked : jsval;
  disabled : jsval;
  readOnly : jsval;
  required : jsval;
  selector : option string;
  fallbackSelector : option string;
  tertiarySelector : option string;
  position : Position;
  style : StyleInfo;
  isInteractable : bool;
  parent : option string;
  xpath : option string;
  index : option nat
}.

Definition set_index (i : nat) (el : ElementData) : ElementData :=
  {| tag := tag el; text := text el; id := id el; className := className el;
     name := name el; type := type el; placeholder := placeholder el;
     href := href el; src := src el; alt := alt el; title := title el;
     role := role el; ariaLabel := ariaLabel el; dataTestId := dataTestId el;
     value := value el; checked := checked el; disabled := disabled el;
     readOnly := readOnly el; required := required el; selector := selector el;
     fallbackSelector := fallbackSelector el;
     tertiarySelector := tertiarySelector el; position := position el;
     style := style el; isInteractable := isInteractable el;
     parent := parent el; xpath := xpath el; index := Some i |}.

End El.

Record PageContent : Type := {
  headings : list string;
  forms : nat;
  images : nat;
  videos : nat;
  bodyTextSample : string
}.

Record Snapshot : Type := {
  url : string;
  title : string;
  domain : string;
  readyState : string;
  activeElement : option string;
  elements : list El.ElementData;
  pageContent : PageContent
}.

(** [v || null] *)
Definition or_null (v : jsval) : jsval := if truthy v then v else JNull.

(** [element.getAttribute(a)] when it is truthy. *)
Definition attr (e : Dom.Element) (a : string) : option string :=
  Dom.getAttribute e a ≫= nonempty.

Definition class_filter (c : string) : bool :=
  negb (bool_decide (c = EmptyString)) && negb (includes c ":") && test safe_pattern c.

Definition getClassNames (element : Dom.Element) : list string :=
  match Dom.className element with
  | Dom.ClassString s =>
      if bool_decide (s = EmptyString) then []
      else filter (fun c => class_filter c = true) (split_space s)
  | Dom.ClassAnimated baseVal =>
      filter (fun c => class_filter c = true) (split_space baseVal)
  | Dom.ClassAbsent => []
  end.

(** A candidate of the ranker: [{ selector, score }]. *)
Definition Candidate : Type := string * Z.

(** [if (c) selectors.push(x)]: what the statement adds to the array. *)
Definition pushed_if (c : bool) (x : Candidate) : list Candidate :=
  if c then [x] else [].

(** [if (element.getAttribute(a)) selectors.push(f(element.getAttribute(a)))] *)
Definition pushed_for (v : option string) (f : string -> Candidate) : list Candidate :=
  match v with
  | Some s => [f s]
  | None => []
  end.

(** [siblings.indexOf(element)]: the place of the element among the children
    of its parent that have its tag, or -1. *)
Definition siblings (e : Dom.Element) (children : list Dom.Element) : list (nat * Dom.Element) :=
  filter (fun jc => Dom.tagName (snd jc) = Dom.tagName e) (imap pair children).

Definition indexOf (sibs : list (nat * Dom.Element)) (place : nat) : Z :=
  match list_find (fun jc => fst jc = place) sibs with
  | Some (i, _) => Z.of_nat i
  | None => -1
  end.

Definition parent_candidate (el : Dom.ElementRef) (tagName : string) : list Candidate :=
  match Dom.parentElement el with
  | Some (parent, children, place) =>
      let sibs := siblings (Dom.self el) children in
      if (1 <? Z.of_nat (length sibs)) then
        let index := indexOf sibs place + 1 in
        let parentSelector :=
          if negb (bool_decide (Dom.id parent = EmptyString)) then "#" +:+ Dom.id parent
          else match getClassNames parent with
               | c :: _ => toLowerCase (Dom.tagName parent) +:+ "." +:+ c
               | [] => toLowerCase (Dom.tagName parent)
               end in
        [(parentSelector +:+ " > " +:+ tagName +:+ ":nth-child(" +:+ pretty index +:+ ")", 60)]
      else []
  | None => []
  end.

(** The candidates in the order the script pushes them. *)
Definition candidates (el : Dom.ElementRef) : list Candidate :=
  let element := Dom.self el in
  let tagName := toLowerCase (Dom.tagName element) in
  let classNames := getClassNames element in
  let text := trim (Dom.textContent element) in
  pushed_if (negb (bool_decide (Dom.id element = EmptyString))
             && test safe_pattern (Dom.id element))
    ("#" +:+ Dom.id element, 100)
  ++ pushed_for (attr element "data-testid")
       (fun v => ("[data-testid=" +:+ dq +:+ v +:+ dq +:+ "]", 95))
  ++ pushed_for (attr element "data-test")
       (fun v => ("[data-test=" +:+ dq +:+ v +:+ dq +:+ "]", 94))
  ++ pushed_for (attr element "aria-label")
       (fun v => ("[aria-label=" +:+ dq +:+ v +:+ dq +:+ "]", 90))
  ++ pushed_if (truthy (Dom.name element) && bool_decide (Dom.tagName element = "INPUT"))
       ("input[name=" +:+ dq +:+ to_string (Dom.name element) +:+ dq +:+ "]", 85)
  ++ match attr element "role" with
     | Some role =>
         pushed_if (negb (bool_decide (text = EmptyString)) && (slength text <? 50))
           ("[role=" +:+ dq +:+ role +:+ dq +:+ "]:has-text(" +:+ dq +:+ text
              +:+ dq +:+ ")", 80)
     | None => []
     end
  ++ pushed_if (0 <? Z.of_nat (length classNames))
       (tagName +:+ "." +:+ join "." (take 2 classNames), 70)
  ++ pushed_if (negb (bool_decide (text = EmptyString))
                && (2 <? slength text) && (slength text <? 50)
                && negb (includes_char text "010"%char)
                && (bool_decide (tagName = "button") || bool_decide (tagName = "a")))
       (tagName +:+ ":has-text(" +:+ dq +:+ text +:+ dq +:+ ")", 75)
  ++ parent_candidate el tagName
  ++ pushed_for (attr element "placeholder")
       (fun v => ("[placeholder=" +:+ dq +:+ v +:+ dq +:+ "]", 65))
  ++ match attr element "type" with
     | Some type =>
         pushed_if (bool_decide (type = "submit") || bool_decide (type = "button"))
           ("[type=" +:+ dq +:+ type +:+ dq +:+ "]", 50)
     | None => []
     end.

Record Selectors : Type := {
  primary : option string;
  fallback : option string;
  tertiary : option string
}.

(** [(a, b) => b.score - a.score] *)
Definition by_score (a b : Candidate) : Z := snd b - snd a.

Definition getOptimalSelector (el : Dom.ElementRef) : Selectors :=
  let selectors := sort by_score (candidates el) in
  let optimalSelectors := map fst (take 3 selectors) in
  {| primary := optimalSelectors !! 0%nat ≫= nonempty;
     fallback := optimalSelectors !! 1%nat ≫= nonempty;
     tertiary := optimalSelectors !! 2%nat ≫= nonempty |}.

Definition isElementInteractive (element : Dom.Element) : bool :=
  let tagName := toLowerCase (Dom.tagName element) in
  let type := Dom.getAttribute element "type" in
  let role := Dom.getAttribute element "role" in
  let classNames := getClassNames element in
  bool_decide (tagName = "button") || bool_decide (tagName = "a")
  || bool_decide (tagName = "input") || bool_decide (tagName = "select")
  || bool_decide (tagName = "textarea")
  || bool_decide (type = Some "submit") || bool_decide (type = Some "button")
  || bool_decide (role = Some "button") || bool_decide (role = Some "link")
  || bool_decide (role = Some "tab") || bool_decide (role = Some "menuitem")
  || Dom.hasAttribute element "onclick" || Dom.hasAttribute element "ng-click"
  || Dom.hasAttribute element "@click"
  || existsb (fun c => bool_decide (c = "btn") || bool_decide (c = "button")) classNames
  || bool_decide (Dom.cursor (Dom.style element) = "pointer").

Definition Qlt_b (a b : Q) : bool := negb (Qle_bool b a).

Definition isVisible (doc : Dom.Document) (element : Dom.Element) : bool :=
  let rect := Dom.rect element in
  let styles := Dom.style element in
  Qlt_b 0 (Dom.width rect) && Qlt_b 0 (Dom.height rect)
  && Qlt_b (Dom.top rect) (Dom.innerHeight doc) && Qlt_b 0 (Dom.bottom rect)
  && Qlt_b (Dom.left rect) (Dom.innerWidth doc) && Qlt_b 0 (Dom.right rect)
  && negb (bool_decide (Dom.display styles = "none"))
  && negb (bool_decide (Dom.visibility styles = "hidden"))
  && negb (bool_decide (Dom.opacity styles = "0"))
  && Dom.hasOffsetParent element.

Definition processElement (doc : Dom.Document) (el : Dom.ElementRef) : option El.ElementData :=
  let element := Dom.self el in
  let rect := Dom.rect element in
  let styles := Dom.style element in
  if negb (isVisible doc element) then None else
  let tagName := toLowerCase (Dom.tagName element) in
  let text := substring0 100 (trim (Dom.textContent element)) in
  let isInteractive := isElementInteractive element in
  let classNames := getClassNames element in
  let selectors := getOptimalSelector el in
  Some
    {| El.tag := tagName;
       El.text := text;
       El.id := nonempty (Dom.id element);
       El.className := nonempty (join " " classNames);
       El.name := or_null (Dom.name element);
       El.type := or_null (Dom.type element);
       El.placeholder := or_null (Dom.placeholder element);
       El.href := or_null (Dom.href element);
       El.src := or_null (Dom.src element);
       El.alt := or_null (Dom.alt element);
       El.title := or_null (Dom.title element);
       El.role := attr element "role";
       El.ariaLabel := attr element "aria-label";
       El.dataTestId := attr element "data-testid";
       El.value := or_null (Dom.value element);
       El.checked := or_null (Dom.checked element);
       El.disabled := or_null (Dom.disabled element);
       El.readOnly := or_null (Dom.readOnly element);
       El.required := or_null (Dom.required element);
       El.selector := primary selectors;
       El.fallbackSelector := fallback selectors;
       El.tertiarySelector := tertiary selectors;
       El.position :=
         {| El.x := Dom.round (Dom.x rect);
            El.y := Dom.round (Dom.y rect);
            El.width := Dom.round (Dom.width rect);
            El.height := Dom.round (Dom.height rect);
            El.centerX := Dom.round (Dom.x rect + Dom.width rect / 2)%Q;
            El.centerY := Dom.round (Dom.y rect + Dom.height rect / 2)%Q;
            El.inViewport := Qle_bool 0 (Dom.top rect)
                          && Qle_bool (Dom.bottom rect) (Dom.innerHeight doc) |};
       El.style :=
         {| El.cursor := Dom.cursor styles;
            El.display := Dom.display styles;
            El.backgroundColor := Dom.backgroundColor styles;
            El.color := Dom.color styles;
            El.zIndex := Dom.zIndex styles |};
       El.isInteractable := isInteractive;
       El.parent := match Dom.parentElement el with
                    | Some (p, _, _) => nonempty (Dom.tagName p)
                    | None => None
                    end;
       El.xpath := None;
       El.index := None |}.

(** The state of the two scanning loops: [processedElements] and
    [snapshot.elements]. *)
Record Scan : Type := {
  processedElements : gset (list nat);
  collected : list El.ElementData
}.

(** Body of [interactiveElements.forEach]. *)
Definition scan_interactive (doc : Dom.Document) (st : Scan) (element : Dom.ElementRef) : Scan :=
  if bool_decide (Dom.path element ∈ processedElements st) then st
  else
    let processed := processedElements st ∪ {[Dom.path element]} in
    match processElement doc element with
    | Some elementData =>
        {| processedElements := processed; collected := collected st ++ [elementData] |}
    | None => {| processedElements := processed; collected := collected st |}
    end.

(** Body of [allElements.forEach]. *)
Definition scan_generic (doc : Dom.Document) (st : Scan) (element : Dom.ElementRef) : Scan :=
  if bool_decide (Dom.path element ∈ processedElements st)
     || (100 <=? Z.of_nat (length (collected st)))
  then st
  else
    match processElement doc element with
    | Some elementData =>
        if 0 <? slength (El.text elementData)
        then {| processedElements := processedElements st;
                collected := collected st ++ [elementData] |}
        else st
    | None => st
    end.

(** The state after the first loop, over the interactive-element query. *)
Definition interactive_pass (doc : Dom.Document) : Scan :=
  let interactiveElements := Dom.querySelectorAll Dom.matches_interactive_query doc in
  foldl (scan_interactive doc) {| processedElements := ∅; collected := [] |}
    interactiveElements.

(** The state after both loops, before sorting. *)
Definition scan (doc : Dom.Document) : Scan :=
  let allElements := Dom.all_elements doc in
  foldl (scan_generic doc) (interactive_pass doc) allElements.

(** The comparator of [snapshot.elements.sort]. *)
Definition compare_elements (a b : El.ElementData) : Z :=
  if El.isInteractable a && negb (El.isInteractable b) then -1
  else if negb (El.isInteractable a) && El.isInteractable b then 1
  else if El.inViewport (El.position a) && negb (El.inViewport (El.position b)) then -1
  else if negb (El.inViewport (El.position a)) && El.inViewport (El.position b) then 1
  else El.y (El.position a) - El.y (El.position b).

(** [snapshot.elements.forEach((el, index) => { el.index = index; })] *)
Definition assign_index (l : list El.ElementData) : list El.ElementData :=
  imap El.set_index l.

Definition page_content (doc : Dom.Document) : PageContent :=
  let is_heading e := Dom.has_tag "h1" e || Dom.has_tag "h2" e || Dom.has_tag "h3" e in
  {| headings := map (fun h => trim (Dom.textContent (Dom.self h)))
                   (take 5 (Dom.querySelectorAll is_heading doc));
     forms := length (Dom.querySelectorAll (Dom.has_tag "form") doc);
     images := length (Dom.querySelectorAll (Dom.has_tag "img") doc);
     videos := length (Dom.querySelectorAll (Dom.has_tag "video") doc);
     bodyTextSample := substring0 500 (Dom.bodyInnerText doc) |}.

(** The function passed to [page.evaluate] in [getCurrentPageSnapshot]. *)
Definition snapshot_script (doc : Dom.Document) : Snapshot :=
  let scanned := collected (scan doc) in
  let sorted := sort compare_elements scanned in
  let cut := take 75 sorted in
  {| url := Dom.url doc;
     title := Dom.docTitle doc;
     domain := Dom.hostname doc;
     readyState := Dom.readyState doc;
     activeElement := Dom.activeElement doc;
     elements := assign_index cut;
     pageContent := page_content doc |}.

End Snapshotter.

(* ===================================================================== *)
(** * Class [TrulyIntelligentE2EGenerator]: executor and goal loop *)
(* ===================================================================== *)

Module Generator.
Import JS.
Export Snapshotter.

(** The oracle's reply is whatever [JSON.parse] made of its text: the code
    does not check its shape.  [Decision] is what the property reads of the
    code find in a reply that is not [null]; a field that the reply lacks is
    [JUndefined], and a field can hold any value, also an array or an
    object. *)
Record Decision : Type := {
  action : json;
  target : json;
  value : json;
  selector : json;
  fallbackSelectors : json;
  waitBefore : json;
  waitAfter : json;
  scrollIntoView : json;
  verifyVisible : json;
  reasoning : json;
  description : json;
  confidence : json
}.

(** [decision.action], [decision.target] and so on.  On [null] (and
    [undefined]) a property read throws; on an object it finds the member;
    on a number, a boolean, a string and an array it finds nothing under
    these keys. *)
Definition decision_fields (decision : json) : option Decision :=
  let read (m : list (string * json)) :=
    {| action := member "action" m; target := member "target" m;
       value := member "value" m; selector := member "selector" m;
       fallbackSelectors := member "fallbackSelectors" m;
       waitBefore := member "waitBefore" m; waitAfter := member "waitAfter" m;
       scrollIntoView := member "scrollIntoView" m;
       verifyVisible := member "verifyVisible" m;
       reasoning := member "reasoning" m; description := member "description" m;
       confidence := member "confidence" m |} in
  match decision with
  | JPrim JUndefined | JPrim JNull => None
  | JObj m => Some (read m)
  | _ => Some (read [])
  end.

(** The message of the TypeError of a property read on [null] or
    [undefined]. *)
Definition cannot_read (decision : json) (key : string) : string :=
  "Cannot read properties of "
  +:+ match decision with
      | JPrim JUndefined => "undefined"
      | _ => "null"
      end
  +:+ " (reading '" +:+ key +:+ "')".

(** The object [executeAction] returns and records: an Execution History
    Entry. *)
Module Result.
Record t : Type := {
  action : json;
  target : json;
  value : json;
  description : json;
  success : bool;
  error : string;
  reasoning : json;
  confidence : json;
  playwrightCode : string
}.
End Result.

Record ExecutionSummary : Type := {
  totalSteps : nat;
  successfulSteps : nat;
  failedSteps : nat;
  goalCompleted : bool
}.

(** The final report; [error] is present on the report of the catch block
    only. *)
Module Report.
Record t : Type := {
  success : bool;
  error : option string;
  goal : string;
  steps : list Result.t;
  testCode : string;
  executionSummary : ExecutionSummary
}.
End Report.

(** What [broadcast] is given, by [type]. *)
Inductive Notification : Type :=
| ai_thinking (message : string) (step : nat)
| ai_decision (decision : json) (step : nat)
| error (message : string)
| retry (message : string) (error : string)
| action_start (action description : json) (step : nat)
| action_complete (result : Result.t) (step : nat)
| execution_start (goal : string)
| step_start (step : nat) (goal : string)
| page_snapshot (url : string) (elements : nat) (step : nat)
| goal_completed (step : nat)
| warning (message : string) (step : nat)
| max_steps_reached (step : nat)
| execution_complete (result : Report.t)
| execution_error (error : string) (result : Report.t).

(** An element handle of the automation surface. *)
Definition Handle : Type := nat.

Record Box : Type := { box_x : Q; box_y : Q; box_width : Q; box_height : Q }.

(** The calls the class makes on the browser page and on the oracle.  The
    oracle call stands for [openai.chat.completions.create] followed by
    [JSON.parse], and its reply is the parsed value; its prompt is a function
    of the goal, the snapshot and [executionHistory.slice(-5)]. *)
Inductive Call : Type :=
| waitForLoadState_or_timeout
| evaluate_quiescence
| waitForTimeout (ms : Z)
| screenshot
| evaluate_snapshot
| chat_completion (goal : string) (pageSnapshot : Snapshot) (history : list Result.t)
| goto (url : string)
| waitForSelector (selector : json) (timeout : Z)
| isVisible (element : Handle)
| isEnabled (element : Handle)
| scrollIntoViewIfNeeded (element : Handle)
| boundingBox (element : Handle)
| click (element : Handle) (position : option (Q * Q))
| evaluate_click (element : Handle)
| keyboard_press (key : json)
| type_text (element : Handle) (text : json)
| fill (element : Handle) (text : string)
| hover (element : Handle)
| evaluate_scrollBy (amount : Z).

Definition reply (c : Call) : Type :=
  match c with
  | evaluate_snapshot => Dom.Document
  | chat_completion _ _ _ => json
  | waitForSelector _ _ => Handle
  | isVisible _ | isEnabled _ => bool
  | boundingBox _ => option Box
  | _ => unit
  end.

Section Machine.

(** The browser and the oracle: an arbitrary state [W], the outcome of each
    call in it (a reply or a rejection, and the next state), and the clock. *)
Variable W : Type.
Variable perform : forall c : Call, W -> Res (reply c) * W.
Variable now : W -> Z.

(** The fields of the instance the methods use, the list of what was
    broadcast (oldest first), and the list of calls issued (oldest first). *)
Record St : Type := {
  world : W;
  page : bool;
  currentGoal : jsval;
  executionHistory : list Result.t;
  testSteps : list string;
  maxSteps : nat;
  stepCount : nat;
  retryCount : nat;
  sent : list Notification;
  calls : list Call
}.

(** The state after [new TrulyIntelligentE2EGenerator(apiKey)]: no page yet;
    [initialize()] sets [this.page].  The fields [openai], [browser],
    [fastMode] and [elementCache] are left out: the first two are behind
    [perform], the last two are written and never read. *)
Definition constructed (w : W) : St :=
  {| world := w; page := false; currentGoal := JNull; executionHistory := [];
     testSteps := []; maxSteps := 15; stepCount := 0; retryCount := 3;
     sent := []; calls := [] |}.

Definition set_world (w : W) (c : Call) (s : St) : St :=
  {| world := w; page := page s; currentGoal := currentGoal s;
     executionHistory := executionHistory s; testSteps := testSteps s;
     maxSteps := maxSteps s; stepCount := stepCount s; retryCount := retryCount s;
     sent := sent s; calls := calls s ++ [c] |}.

Definition add_sent (n : Notification) (s : St) : St :=
  {| world := world s; page := page s; currentGoal := currentGoal s;
     executionHistory := executionHistory s; testSteps := testSteps s;
     maxSteps := maxSteps s; stepCount := stepCount s; retryCount := retryCount s;
     sent := sent s ++ [n]; calls := calls s |}.

Definition record_result (r : Result.t) (s : St) : St :=
  {| world := world s; page := page s; currentGoal := currentGoal s;
     executionHistory := executionHistory s ++ [r];
     testSteps := testSteps s ++ ["    " +:+ Result.playwrightCode r];
     maxSteps := maxSteps s; stepCount := stepCount s; retryCount := retryCount s;
     sent := sent s; calls := calls s |}.

Definition start_goal (goal : string) (s : St) : St :=
  {| world := world s; page := page s; currentGoal := JStr goal;
     executionHistory := []; testSteps := [];
     maxSteps := maxSteps s; stepCount := 0; retryCount := retryCount s;
     sent := sent s; calls := calls s |}.

Definition next_step (s : St) : St :=
  {| world := world s; page := page s; currentGoal := currentGoal s;
     executionHistory := executionHistory s; testSteps := testSteps s;
     maxSteps := maxSteps s; stepCount := S (stepCount s); retryCount := retryCount s;
     sent := sent s; calls := calls s |}.

(** ** The monad of the methods: state, and a value or a thrown error *)

Definition M (A : Type) : Type := St -> Res A * St.

Definition ret {A} (a : A) : M A := fun s => (Ok a, s).
Definition throw {A} (message : string) : M A := fun s => (Throw message, s).
Definition bind {A B} (m : M A) (f : A -> M B) : M B :=
  fun s => match m s with
           | (Ok a, s') => f a s'
           | (Throw e, s') => (Throw e, s')
           end.
(** [try { m } catch (error) { h(error.message) }] *)
Definition try_catch {A} (m : M A) (h : string -> M A) : M A :=
  fun s => match m s with
           | (Ok a, s') => (Ok a, s')
           | (Throw e, s') => h e s'
           end.
(** A conversion that may throw. *)
Definition lift {A} (r : Res A) : M A := fun s => (r, s).
Definition get : M St := fun s => (Ok s, s).
Definition modify (f : St -> St) : M unit := fun s => (Ok tt, f s).
Definition when (c : bool) (m : M unit) : M unit := if c then m else ret tt.

Notation "x <- m ;; k" := (bind m (fun x => k))
  (at level 100, m at next level, right associativity).
Notation "m ;;; k" := (bind m (fun _ => k))
  (at level 100, right associativity).

Definition broadcast (n : Notification) : M unit := modify (add_sent n).

(** [await] of a call on the page or the oracle. *)
Definition call (c : Call) : M (reply c) :=
  fun s => let '(r, w) := perform c (world s) in (r, set_world w c s).

Definition date_now : M Z := fun s => (Ok (now (world s)), s).

(** ** [waitForStability] *)

Definition waitForStability : M unit :=
  try_catch
    (call waitForLoadState_or_timeout ;;;
     call evaluate_quiescence ;;;
     call (waitForTimeout 500))
    (fun _ => ret tt).

(** ** [takeScreenshot] and [getCurrentPageSnapshot] *)

Definition takeScreenshot : M unit :=
  s <- get ;;
  if negb (page s) then throw "Page not initialized"
  else call screenshot.

Definition getCurrentPageSnapshot : M Snapshot :=
  s <- get ;;
  if negb (page s) then throw "Page not initialized"
  else
    waitForStability ;;;
    doc <- (call evaluate_snapshot : M Dom.Document) ;;
    ret (snapshot_script doc).

(** ** [decideNextAction] *)

(** [a.slice(-n)] *)
Definition slice_last {A} (n : nat) (a : list A) : list A := drop (length a - n) a.

(** The line of the prompt for entry [i] of the history shown: the template
    literal converts [h.action] and [h.description] to strings. *)
Definition history_line (i : nat) (h : Result.t) : Res string :=
  res_bind (ToString (Result.action h)) (fun a =>
  res_bind (ToString (Result.description h)) (fun d =>
  Ok (pretty (i + 1)%nat +:+ ". " +:+ a +:+ ": " +:+ d +:+ " - "
      +:+ (if Result.success h then "SUCCESS" else "FAILED: " +:+ Result.error h)))).

(** [.map((h, i) => ...)] from index [i] on. *)
Fixpoint history_lines (i : nat) (history : list Result.t) : Res (list string) :=
  match history with
  | [] => Ok []
  | h :: rest =>
      res_bind (history_line i h) (fun line =>
      res_bind (history_lines (S i) rest) (fun lines => Ok (line :: lines)))
  end.

(** The prompt is built before the [try]: an entry of the history whose
    action or description does not convert to a string makes the method
    throw the TypeError as it is. *)
Definition decideNextAction (goal : string) (pageSnapshot : Snapshot)
    (history : list Result.t) : M json :=
  lift (history_lines 0 (slice_last 5 history)) ;;;
  try_catch
    (s <- get ;;
     broadcast (ai_thinking "AI analyzing page..." (stepCount s)) ;;;
     decision <- (call (chat_completion goal pageSnapshot (slice_last 5 history))
                   : M json) ;;
     broadcast (ai_decision decision (stepCount s)) ;;;
     ret decision)
    (fun e =>
       broadcast (error ("AI decision failed: " +:+ e)) ;;;
       throw ("AI analysis failed: " +:+ e)).

(** ** [findElement] *)

Definition try_selector (endTime : Z) (selector : json) : M (option (Handle * json)) :=
  t <- date_now ;;
  let remainingTime := Z.max (endTime - t) 1000 in
  element <- (call (waitForSelector selector remainingTime) : M Handle) ;;
  visible <- (call (isVisible element) : M bool) ;;
  enabled <- (call (isEnabled element) : M bool) ;;
  ret (if visible && enabled then Some (element, selector) else None).

Fixpoint findElement_loop (endTime : Z) (selectors : list json)
    (lastError : option string) : M (Handle * json) :=
  match selectors with
  | [] => throw (default "No valid selector found" lastError)
  | selector :: rest =>
      if negb (truthy_json selector) then findElement_loop endTime rest lastError
      else
        fun s =>
          match try_selector endTime selector s with
          | (Ok (Some found), s') => (Ok found, s')
          | (Ok None, s') => findElement_loop endTime rest lastError s'
          | (Throw e, s') => findElement_loop endTime rest (Some e) s'
          end
  end.

Definition findElement (selectors : list json) (timeout : Z) : M (Handle * json) :=
  t <- date_now ;;
  findElement_loop (t + timeout) selectors None.

(** ** [executeActionWithRetry] *)

(** The attempts from [attempt] on, [n] of them left.  An error thrown by
    the pause between attempts is not caught.  With [maxRetries = 0] the
    source throws [undefined]; every call site uses the default 3. *)
Fixpoint retry_loop {A} (action : M A) (maxRetries : nat) (n : nat) (attempt : nat)
    (lastError : option string) : M A :=
  match n with
  | O => throw (default "undefined" lastError)
  | S n' =>
      fun s =>
        match action s with
        | (Ok a, s') => (Ok a, s')
        | (Throw e, s') =>
            (when (attempt <? maxRetries)%nat
               (broadcast (retry ("Retrying action (attempt " +:+ pretty (attempt + 1)%nat
                                    +:+ "/" +:+ pretty maxRetries +:+ ")") e) ;;;
                call (waitForTimeout (1000 * Z.of_nat attempt))) ;;;
             retry_loop action maxRetries n' (S attempt) (Some e)) s'
        end
  end.

Definition executeActionWithRetry {A} (action : M A) (maxRetries : nat) : M A :=
  retry_loop action maxRetries maxRetries 1 None.

(** ** [executeAction] *)

Definition of_option (o : option string) : json :=
  match o with
  | Some s => JStr s
  | None => JNull
  end.

(** [...(x || [])] inside an array literal: a falsy value gives way to the
    empty array, an array gives its items and a string its code units; a
    number, [true] and an object are not iterable. *)
Definition spread (x : json) : M (list json) :=
  if negb (truthy_json x) then ret []
  else
    match x with
    | JArr items => ret items
    | JPrim (JStr s) =>
        ret (map (fun c => JPrim (JStr (String c EmptyString))) (list_ascii_of_string s))
    | _ => throw "decision.fallbackSelectors is not iterable"
    end.

(** [.filter(Boolean)] *)
Definition filter_Boolean (l : list json) : list json :=
  filter (fun v => truthy_json v = true) l.

(** [url.startsWith("http")] on [decision.target]: only a string has the
    method. *)
Definition target_url (target : json) : M string :=
  match target with
  | JPrim (JStr url) =>
      ret (if negb (startsWith url "http") then "https://" +:+ url else url)
  | JPrim JUndefined | JPrim JNull => throw (cannot_read target "startsWith")
  | _ => throw "url.startsWith is not a function"
  end.

Definition click_action (clickSelectors : list json) : M string :=
  found <- findElement clickSelectors 10000 ;;
  let '(element, selector) := found in
  call (scrollIntoViewIfNeeded element) ;;;
  call (waitForTimeout 500) ;;;
  box <- (call (boundingBox element) : M (option Box)) ;;
  match box with
  | None => throw "Element not visible"
  | Some box =>
      try_catch
        (call (click element (Some (box_width box / 2, box_height box / 2)%Q)))
        (fun _ => call (evaluate_click element)) ;;;
      sel <- lift (ToString selector) ;;
      ret ("await page.click('" +:+ sel +:+ "');")
  end.

Definition type_action (typeSelectors : list json) (value : json) : M string :=
  found <- findElement typeSelectors 10000 ;;
  let '(element, selector) := found in
  call (scrollIntoViewIfNeeded element) ;;;
  call (waitForTimeout 300) ;;;
  call (click element None) ;;;
  call (waitForTimeout 100) ;;;
  call (keyboard_press (JStr "Control+A")) ;;;
  call (keyboard_press (JStr "Delete")) ;;;
  let text := if truthy_json value then value else JStr "" in
  call (type_text element text) ;;;
  sel <- lift (ToString selector) ;;
  txt <- lift (ToString text) ;;
  ret ("await page.fill('" +:+ sel +:+ "', '" +:+ txt +:+ "');").

Definition clear_action (clearSelectors : list json) : M string :=
  found <- findElement clearSelectors 10000 ;;
  let '(element, selector) := found in
  call (fill element "") ;;;
  sel <- lift (ToString selector) ;;
  ret ("await page.fill('" +:+ sel +:+ "', '');").

Definition hover_action (hoverSelectors : list json) : M string :=
  found <- findElement hoverSelectors 10000 ;;
  let '(element, selector) := found in
  call (hover element) ;;;
  sel <- lift (ToString selector) ;;
  ret ("await page.hover('" +:+ sel +:+ "');").

(** The [switch] of [executeAction]: the values of [success] and
    [playwrightCode] when control leaves it through a [break]. *)
Definition perform_action (decision : Decision) (pageSnapshot : Snapshot)
    : M (bool * string) :=
  let on (a : string) := bool_decide (action decision = JStr a) in
  if on "navigate" then
      url <- target_url (target decision) ;;
      executeActionWithRetry (call (goto url)) 3 ;;;
      waitForStability ;;;
      ret (true, "await page.goto('" +:+ url +:+ "', { waitUntil: 'domcontentloaded' });")
  else if on "click" then
      elementIndex <- lift (parseInt (target decision)) ;;
      match array_get (elements pageSnapshot) elementIndex with
      | None => throw ("Element index " +:+ number_to_string elementIndex +:+ " not found")
      | Some targetElement =>
          more <- spread (fallbackSelectors decision) ;;
          let clickSelectors :=
            filter_Boolean ([selector decision;
                             of_option (El.selector targetElement);
                             of_option (El.fallbackSelector targetElement);
                             of_option (El.tertiarySelector targetElement)] ++ more) in
          let clickSelectors :=
            match El.id targetElement with
            | Some id => JPrim (JStr ("#" +:+ id)) :: clickSelectors
            | None => clickSelectors
            end in
          let clickSelectors :=
            match El.dataTestId targetElement with
            | Some t =>
                JPrim (JStr ("[data-testid=" +:+ dq +:+ t +:+ dq +:+ "]")) :: clickSelectors
            | None => clickSelectors
            end in
          playwrightCode <- executeActionWithRetry (click_action clickSelectors) 3 ;;
          ret (true, playwrightCode)
      end
  else if on "type" then
      typeElementIndex <- lift (parseInt (target decision)) ;;
      match array_get (elements pageSnapshot) typeElementIndex with
      | None => throw ("Element index " +:+ number_to_string typeElementIndex +:+ " not found")
      | Some typeElement =>
          more <- spread (fallbackSelectors decision) ;;
          let typeSelectors :=
            filter_Boolean ([selector decision;
                             of_option (El.selector typeElement);
                             of_option (El.fallbackSelector typeElement)] ++ more) in
          playwrightCode <- executeActionWithRetry (type_action typeSelectors (value decision)) 3 ;;
          ret (true, playwrightCode)
      end
  else if on "clear" then
      clearElementIndex <- lift (parseInt (target decision)) ;;
      match array_get (elements pageSnapshot) clearElementIndex with
      | Some clearElement =>
          let clearSelectors :=
            filter_Boolean [selector decision;
                            of_option (El.selector clearElement);
                            of_option (El.fallbackSelector clearElement)] in
          playwrightCode <- executeActionWithRetry (clear_action clearSelectors) 3 ;;
          ret (true, playwrightCode)
      | None => ret (false, "")
      end
  else if on "press" then
      executeActionWithRetry (call (keyboard_press (target decision))) 3 ;;;
      key <- lift (ToString (target decision)) ;;
      ret (true, "await page.keyboard.press('" +:+ key +:+ "');")
  else if on "wait" then
      waitTime <- lift (parseInt_or (value decision) 3000) ;;
      call (waitForTimeout waitTime) ;;;
      ret (true, "await page.waitForTimeout(" +:+ pretty waitTime +:+ ");")
  else if on "scroll" then
      scrollAmount <- lift (parseInt_or (value decision) 300) ;;
      executeActionWithRetry (call (evaluate_scrollBy scrollAmount)) 3 ;;;
      call (waitForTimeout 1000) ;;;
      ret (true, "await page.evaluate(() => window.scrollBy(0, " +:+ pretty scrollAmount +:+ "));")
  else if on "hover" then
      hoverElementIndex <- lift (parseInt (target decision)) ;;
      match array_get (elements pageSnapshot) hoverElementIndex with
      | Some hoverElement =>
          let hoverSelectors :=
            filter_Boolean [selector decision;
                            of_option (El.selector hoverElement);
                            of_option (El.fallbackSelector hoverElement)] in
          playwrightCode <- executeActionWithRetry (hover_action hoverSelectors) 3 ;;
          ret (true, playwrightCode)
      | None => ret (false, "")
      end
  else if on "complete" then
      s <- get ;;
      ret (true, "// Goal: " +:+ dq +:+ to_string (currentGoal s) +:+ dq
                 +:+ " completed successfully")
  else
      name <- lift (ToString (action decision)) ;;
      throw ("Unknown action: " +:+ name).

(** The body of the [try] block: the optional pause, the [switch], the
    settle after the action. *)
Definition try_body (decision : Decision) (pageSnapshot : Snapshot) : M (bool * string) :=
  when (truthy_json (waitBefore decision)) (call (waitForTimeout 2000)) ;;;
  done <- perform_action decision pageSnapshot ;;
  when (negb (bool_decide (waitAfter decision = JBool false))
        && negb (bool_decide (action decision = JStr "wait"))
        && negb (bool_decide (action decision = JStr "complete")))
    (call (waitForTimeout 1500) ;;; waitForStability) ;;;
  ret done.

(** [success], [errorMessage] and [playwrightCode] after the [try]/[catch].
    The [catch] block converts [decision.description] to a string for the
    replay line; a throw of that conversion is caught by nothing. *)
Definition attempt (decision : Decision) (pageSnapshot : Snapshot)
    : M (bool * string * string) :=
  try_catch
    (done <- try_body decision pageSnapshot ;;
     ret (fst done, EmptyString, snd done))
    (fun e =>
       text <- lift (ToString (description decision)) ;;
       ret (false, e, "// Failed: " +:+ text +:+ " - " +:+ e)).

(** The first read of a property of [decision] is in the [action_start]
    notification, before the [try]. *)
Definition executeAction (decision : json) (pageSnapshot : Snapshot) : M Result.t :=
  s <- get ;;
  if negb (page s) then throw "Page not initialized"
  else
    match decision_fields decision with
    | None => throw (cannot_read decision "action")
    | Some decision =>
        broadcast (action_start (action decision) (description decision) (stepCount s)) ;;;
        out <- attempt decision pageSnapshot ;;
        let '(success, errorMessage, playwrightCode) := out in
        let result :=
          {| Result.action := action decision;
             Result.target := target decision;
             Result.value := value decision;
             Result.description := description decision;
             Result.success := success;
             Result.error := errorMessage;
             Result.reasoning := reasoning decision;
             Result.confidence := confidence decision;
             Result.playwrightCode := playwrightCode |} in
        modify (record_result result) ;;;
        s' <- get ;;
        broadcast (action_complete result (stepCount s')) ;;;
        ret result
    end.

(** ** [generateTestCode] *)

Definition nl : string := String "010"%char EmptyString.

Definition generateTestCode (testName : string) (s : St) : string :=
  "const { test, expect } = require('@playwright/test');" +:+ nl +:+ nl
  +:+ "test('" +:+ testName +:+ "', async ({ page }) => {" +:+ nl
  +:+ "    page.setDefaultTimeout(30000);" +:+ nl
  +:+ "    page.setDefaultNavigationTimeout(45000);" +:+ nl
  +:+ "    " +:+ nl
  +:+ join nl (testSteps s) +:+ nl
  +:+ "});".

(** ** [executeGoal] *)

(** One iteration of the [while] loop up to and including [executeAction]. *)
Definition step (goal : string) : M (Result.t * json) :=
  modify next_step ;;;
  s <- get ;;
  broadcast (step_start (stepCount s) goal) ;;;
  takeScreenshot ;;;
  pageSnapshot <- getCurrentPageSnapshot ;;
  broadcast (page_snapshot (url pageSnapshot) (length (elements pageSnapshot))
               (stepCount s)) ;;;
  s1 <- get ;;
  decision <- decideNextAction goal pageSnapshot (executionHistory s1) ;;
  result <- executeAction decision pageSnapshot ;;
  ret (result, decision).

(** The rest of the iteration, after [results.push(result)]: the new value of
    [goalCompleted]. *)
Definition after_action (result : Result.t) (decision : json) (goalCompleted : bool)
    : M bool :=
  s <- get ;;
  completed <-
    match decision_fields decision with
    | None => throw (cannot_read decision "action")
    | Some decision =>
        if bool_decide (action decision = JStr "complete")
        then broadcast (goal_completed (stepCount s)) ;;; ret true
        else if negb (Result.success result)
        then broadcast (warning ("Action failed: " +:+ Result.error result) (stepCount s)) ;;;
             ret goalCompleted
        else ret goalCompleted
    end ;;
  call (waitForTimeout 1000) ;;;
  ret completed.

(** How control leaves the [while] loop: through its condition, with the
    locals [results] and [goalCompleted], or through a thrown error, with
    [results] as the [catch] block finds it. *)
Inductive LoopExit : Type :=
| Finished (results : list Result.t) (goalCompleted : bool)
| Escaped (results : list Result.t) (error : string).

(** The [while] loop; [n] bounds the iterations left and is
    [maxSteps - stepCount] at entry, so that it reaches 0 only when the
    condition of the loop is false. *)
Fixpoint goal_loop (n : nat) (goal : string) (results : list Result.t)
    (goalCompleted : bool) (s : St) : LoopExit * St :=
  match n with
  | O => (Finished results goalCompleted, s)
  | S n' =>
      if negb goalCompleted && (stepCount s <? maxSteps s)%nat then
        match step goal s with
        | (Throw e, s1) => (Escaped results e, s1)
        | (Ok (result, decision), s1) =>
            let results := results ++ [result] in
            match after_action result decision goalCompleted s1 with
            | (Throw e, s2) => (Escaped results e, s2)
            | (Ok completed, s2) => goal_loop n' goal results completed s2
            end
        end
      else (Finished results goalCompleted, s)
  end.

Definition count_success (results : list Result.t) : nat :=
  length (filter (fun r => Result.success r = true) results).
Definition count_failed (results : list Result.t) : nat :=
  length (filter (fun r => negb (Result.success r) = true) results).

Definition finalResult (goal : string) (results : list Result.t) (goalCompleted : bool)
    (s : St) : Report.t :=
  {| Report.success := goalCompleted || existsb Result.success results;
     Report.error := None;
     Report.goal := goal;
     Report.steps := results;
     Report.testCode := generateTestCode goal s;
     Report.executionSummary :=
       {| totalSteps := stepCount s;
          successfulSteps := count_success results;
          failedSteps := count_failed results;
          goalCompleted := goalCompleted |} |}.

Definition errorResult (goal : string) (results : list Result.t) (e : string)
    (s : St) : Report.t :=
  {| Report.success := false;
     Report.error := Some e;
     Report.goal := goal;
     Report.steps := results;
     Report.testCode := generateTestCode goal s;
     Report.executionSummary :=
       {| totalSteps := stepCount s;
          successfulSteps := count_success results;
          failedSteps := count_failed results;
          goalCompleted := false |} |}.

(** The [catch] block of [executeGoal]. *)
Definition on_error (goal : string) (results : list Result.t) (e : string) (s : St)
    : Report.t * St :=
  let report := errorResult goal results e s in
  (report, add_sent (execution_error e report) s).

Definition executeGoal (goal : string) (s : St) : Report.t * St :=
  let s0 := add_sent (execution_start goal) (start_goal goal s) in
  match waitForStability s0 with
  | (Throw e, s1) => on_error goal [] e s1
  | (Ok _, s1) =>
      match goal_loop (maxSteps s1 - stepCount s1) goal [] false s1 with
      | (Escaped results e, s2) => on_error goal results e s2
      | (Finished results goalCompleted, s2) =>
          let s3 := if (maxSteps s2 <=? stepCount s2)%nat
                    then add_sent (max_steps_reached (stepCount s2)) s2 else s2 in
          let report := finalResult goal results goalCompleted s3 in
          (report, add_sent (execution_complete report) s3)
      end
  end.

End Machine.

Arguments set_world {W}.
Arguments add_sent {W}.
Arguments record_result {W}.
Arguments start_goal {W}.
Arguments next_step {W}.
Arguments ret {W A}.
Arguments throw {W A}.
Arguments bind {W A B}.
Arguments try_catch {W A}.
Arguments lift {W A}.
Arguments get {W}.
Arguments modify {W}.
Arguments when {W}.
Arguments broadcast {W}.
Arguments world {W}.
Arguments page {W}.
Arguments currentGoal {W}.
Arguments executionHistory {W}.
Arguments testSteps {W}.
Arguments maxSteps {W}.
Arguments stepCount {W}.
Arguments retryCount {W}.
Arguments sent {W}.
Arguments calls {W}.
Arguments constructed {W}.

End Generator.

(* ===================================================================== *)
(** * Stub browsers and oracles, for running the model on concrete inputs *)
(* ===================================================================== *)

Module Stub.
Import JS Generator.

Definition style0 : Dom.Style :=
  {| Dom.cursor := "auto"; Dom.display := "block"; Dom.visibility := "visible";
     Dom.opacity := "1"; Dom.backgroundColor := "rgb(255, 255, 255)";
     Dom.color := "rgb(0, 0, 0)"; Dom.zIndex := "auto" |}.

(** An HTML element of 10 by 10 pixels at the left edge, [top] pixels down. *)
Definition element (tag id : string) (attrs : list (string * string)) (txt : string)
    (top : Z) : Dom.Element :=
  {| Dom.tagName := tag; Dom.id := id;
     Dom.className :=
       Dom.ClassString (default EmptyString (list_to_map (M := gmap string string) attrs !! "class"));
     Dom.attributes := list_to_map attrs;
     Dom.name := JUndefined; Dom.type := JUndefined; Dom.placeholder := JUndefined;
     Dom.href := JUndefined; Dom.src := JUndefined; Dom.alt := JUndefined;
     Dom.title := JStr EmptyString; Dom.value := JUndefined; Dom.checked := JUndefined;
     Dom.disabled := JUndefined; Dom.readOnly := JUndefined; Dom.required := JUndefined;
     Dom.textContent := txt;
     Dom.rect := {| Dom.x := 0; Dom.y := inject_Z top; Dom.width := 10; Dom.height := 10 |};
     Dom.style := style0; Dom.hasOffsetParent := true |}.

(** The text of a list of nodes, in document order. *)
Definition text_of (l : list Dom.Node) : string :=
  foldr (fun n acc => Dom.textContent (Dom.node_element n) +:+ acc) EmptyString l.

(** [html] and [body]: they fill the viewport and have no [offsetParent]. *)
Definition root_element (tag txt : string) : Dom.Element :=
  {| Dom.tagName := tag; Dom.id := EmptyString;
     Dom.className := Dom.ClassString EmptyString;
     Dom.attributes := ∅;
     Dom.name := JUndefined; Dom.type := JUndefined; Dom.placeholder := JUndefined;
     Dom.href := JUndefined; Dom.src := JUndefined; Dom.alt := JUndefined;
     Dom.title := JStr EmptyString; Dom.value := JUndefined; Dom.checked := JUndefined;
     Dom.disabled := JUndefined; Dom.readOnly := JUndefined; Dom.required := JUndefined;
     Dom.textContent := txt;
     Dom.rect := {| Dom.x := 0; Dom.y := 0; Dom.width := 1280; Dom.height := 720 |};
     Dom.style := style0; Dom.hasOffsetParent := false |}.

Definition document (body : list Dom.Node) : Dom.Document :=
  {| Dom.url := "https://example.com/"; Dom.docTitle := "Example";
     Dom.hostname := "example.com"; Dom.readyState := "complete";
     Dom.activeElement := Some "BODY";
     Dom.documentElement :=
       Dom.MkNode (root_element "HTML" (text_of body))
         [Dom.MkNode (root_element "BODY" (text_of body)) body];
     Dom.innerWidth := 1280; Dom.innerHeight := 720;
     Dom.bodyInnerText := text_of body |}.

(** [n] buttons, one below the other. *)
Definition buttons (n : nat) : list Dom.Node :=
  map (fun i => Dom.MkNode (element "BUTTON" "" [] "ok" (Z.of_nat i)) []) (seq 0 n).

(** [n] paragraphs of text, one below the other. *)
Definition paragraphs (n : nat) : list Dom.Node :=
  map (fun i => Dom.MkNode (element "P" "" [] "text" (Z.of_nat i)) []) (seq 0 n).

(** A page of eighty paragraphs and nothing to interact with. *)
Definition eighty_paragraphs : Dom.Document := document (paragraphs 80).

(** A button with an id, a test id, classes and a type. *)
Definition go_button : Dom.ElementRef :=
  {| Dom.self := element "BUTTON" "go-1"
                   [("data-testid", "go"); ("class", "btn primary"); ("type", "submit");
                    ("aria-label", "Go")] "Go now" 50;
     Dom.path := [0%nat; 0%nat];
     Dom.parentElement :=
       Some (root_element "BODY" "Go now",
             [element "BUTTON" "go-1"
                [("data-testid", "go"); ("class", "btn primary"); ("type", "submit");
                 ("aria-label", "Go")] "Go now" 50], 0%nat) |}.

(** A page of five buttons. *)
Definition five_buttons : Dom.Document := document (buttons 5).

(** The members that are there: [JSON.parse] yields no member that is
    [undefined]. *)
Definition present (members : list (string * json)) : list (string * json) :=
  filter (fun kv => kv.2 <> JPrim JUndefined) members.

(** A reply of the oracle in the shape the prompt asks for, but for its
    description, which is any value; a target or a value that is
    [JUndefined] is left out of the object. *)
Definition described (description : json) (action : string) (target value : json) : json :=
  JObj (present
          [("action", JPrim (JStr action)); ("target", target); ("value", value);
           ("verifyVisible", JPrim (JBool true)); ("reasoning", JPrim (JStr "because"));
           ("description", description); ("confidence", JPrim (JStr "high"))]).

Definition decision : string -> json -> json -> json := described (JPrim (JStr "doing it")).

(** An object with a member [toString]: it does not convert to a string. *)
Definition opaque : json := JObj [("toString", JPrim (JNum 1))].

(** The stub world counts the calls made so far.  A stub is given by the
    document it shows, the reply of its oracle at each call count, and the
    calls it rejects (with the message). *)
Record Script : Type := {
  shows : Dom.Document;
  decides : nat -> json;
  rejects : Call -> nat -> option string
}.

Definition accept (sc : Script) (w : nat) (c : Call) : reply c :=
  match c return reply c with
  | waitForLoadState_or_timeout => tt
  | evaluate_quiescence => tt
  | waitForTimeout _ => tt
  | screenshot => tt
  | evaluate_snapshot => shows sc
  | chat_completion _ _ _ => decides sc w
  | goto _ => tt
  | waitForSelector _ _ => 0%nat
  | isVisible _ => true
  | isEnabled _ => true
  | scrollIntoViewIfNeeded _ => tt
  | boundingBox _ => Some {| box_x := 0; box_y := 0; box_width := 10; box_height := 10 |}
  | click _ _ => tt
  | evaluate_click _ => tt
  | keyboard_press _ => tt
  | type_text _ _ => tt
  | fill _ _ => tt
  | hover _ => tt
  | evaluate_scrollBy _ => tt
  end.

Definition perform (sc : Script) (c : Call) (w : nat) : Res (reply c) * nat :=
  match rejects sc c w with
  | Some e => (Throw e, S w)
  | None => (Ok (accept sc w c), S w)
  end.

Definition clock (w : nat) : Z := 1000 * Z.of_nat w.

(** A generator whose [initialize()] has succeeded, on a fresh stub world. *)
Definition ready : St nat :=
  {| world := 0%nat; page := true; currentGoal := JNull; executionHistory := [];
     testSteps := []; maxSteps := 15; stepCount := 0; retryCount := 3;
     sent := []; calls := [] |}.

(** A browser where every call succeeds and an oracle that always asks to
    scroll. *)
Definition scrolling : Script :=
  {| shows := five_buttons;
     decides := fun _ => decision "scroll" JUndefined (JNum 200);
     rejects := fun _ _ => None |}.

(** The same, with a screenshot that fails. *)
Definition no_screenshot : Script :=
  {| shows := five_buttons;
     decides := fun _ => decision "scroll" JUndefined (JNum 200);
     rejects := fun c _ => match c with
                           | screenshot => Some "Target closed"
                           | _ => None
                           end |}.

(** An oracle that asks to navigate to [example.com] and then says the goal
    is complete: its first decision is asked for after 8 calls, its second
    one after more than 10. *)
Definition navigate_then_complete : Script :=
  {| shows := five_buttons;
     decides := fun w => if (w <? 10)%nat
                         then decision "navigate" (JStr "example.com") JUndefined
                         else decision "complete" JUndefined JUndefined;
     rejects := fun _ _ => None |}.

(** A navigation that is rejected on the first two calls of the world. *)
Definition flaky_goto : Script :=
  {| shows := five_buttons;
     decides := fun _ => decision "navigate" (JStr "example.com") JUndefined;
     rejects := fun c w => match c with
                           | goto _ => if (w <? 4)%nat then Some "net::ERR_TIMED_OUT" else None
                           | _ => None
                           end |}.

End Stub.

(* ===================================================================== *)
(** * Class [AIActionProcessor] and [handleChatMessage] (command variant) *)
(* ===================================================================== *)

Module Chat.
Import JS Regex.

(** An action object; a field the object lacks is [JUndefined]. *)
Record ActionObj : Type := {
  action : jsval;
  url : jsval;
  selector : jsval;
  text : jsval;
  query : jsval;
  direction : jsval;
  key : jsval;
  message : jsval;
  originalInput : jsval
}.

Definition obj (action : string) : ActionObj :=
  {| action := JStr action; url := JUndefined; selector := JUndefined;
     text := JUndefined; query := JUndefined; direction := JUndefined;
     key := JUndefined; message := JUndefined; originalInput := JUndefined |}.

Definition set_url (v : jsval) (o : ActionObj) : ActionObj :=
  {| action := action o; url := v; selector := selector o; text := text o;
     query := query o; direction := direction o; key := key o;
     message := message o; originalInput := originalInput o |}.
Definition set_selector (v : jsval) (o : ActionObj) : ActionObj :=
  {| action := action o; url := url o; selector := v; text := text o;
     query := query o; direction := direction o; key := key o;
     message := message o; originalInput := originalInput o |}.
Definition set_text (v : jsval) (o : ActionObj) : ActionObj :=
  {| action := action o; url := url o; selector := selector o; text := v;
     query := query o; direction := direction o; key := key o;
     message := message o; originalInput := originalInput o |}.
Definition set_query (v : jsval) (o : ActionObj) : ActionObj :=
  {| action := action o; url := url o; selector := selector o; text := text o;
     query := v; direction := direction o; key := key o;
     message := message o; originalInput := originalInput o |}.
Definition set_direction (v : jsval) (o : ActionObj) : ActionObj :=
  {| action := action o; url := url o; selector := selector o; text := text o;
     query := query o; direction := v; key := key o;
     message := message o; originalInput := originalInput o |}.
Definition set_key (v : jsval) (o : ActionObj) : ActionObj :=
  {| action := action o; url := url o; selector := selector o; text := text o;
     query := query o; direction := direction o; key := v;
     message := message o; originalInput := originalInput o |}.

(** [{ action: "unknown", message, originalInput: message }] *)
Definition unknown (input : string) : ActionObj :=
  {| action := JStr "unknown"; url := JUndefined; selector := JUndefined;
     text := JUndefined; query := JUndefined; direction := JUndefined;
     key := JUndefined; message := JStr input; originalInput := JStr input |}.

(** ** The patterns of [fallbackParser] *)

(** [[a-zA-Z0-9.-]] *)
Definition host : regex :=
  Chr (fun c => is_alpha c || is_digit c || bool_decide (c = "."%char)
                || bool_decide (c = "-"%char)).
(** [[a-zA-Z]] *)
Definition alpha : regex := Chr is_alpha.
(** [(?:visit|go to|open|navigate to)], under the [i] flag. *)
Definition verbs : regex :=
  alts [lit_i "visit"; lit_i "go to"; lit_i "open"; lit_i "navigate to"].
(** [[a-zA-Z0-9.-]+\.[a-zA-Z]{2,}] *)
Definition domain_name : regex := seqs [Plus host; chr "."; AtLeast2 alpha].

(** The first pattern of the navigation layer: an optional [https?:\/\/],
    then group 1, a domain name with an optional [\/] and non-space code
    units after it. *)
Definition url_with_path : regex :=
  seqs [Opt (seqs [lit "http"; Opt (chr "s"); lit "://"]);
        Group 1 (seqs [domain_name; Opt (Seq (chr "/") (Star not_space))])].
(** [/(?:visit|go to|open|navigate to)\s+([a-zA-Z0-9.-]+\.[a-zA-Z]{2,})/i] *)
Definition url_after_verb : regex :=
  seqs [verbs; Plus space; Group 1 domain_name].
(** [/([a-zA-Z0-9.-]+\.(?:com|org|net|edu|gov|io|co))/i] *)
Definition url_known_tld : regex :=
  Group 1 (seqs [Plus host; chr ".";
                 alts [lit_i "com"; lit_i "org"; lit_i "net"; lit_i "edu";
                       lit_i "gov"; lit_i "io"; lit_i "co"]]).
(** [/^(visit|go to|open|navigate to)\s+/i] *)
Definition leading_verb : regex := seqs [Bol; Group 1 verbs; Plus space].
(** [/click(?:\s+on)?\s+(.+)/i] *)
Definition click_pattern : regex :=
  seqs [lit_i "click"; Opt (Seq (Plus space) (lit_i "on")); Plus space;
        Group 1 (Plus any)].
(** [/([a-zA-Z0-9.-]+\.[a-zA-Z]{2,})/] *)
Definition urlPattern : regex := Group 1 domain_name.

(** [kw\s+Q([^Q]+)Q] for a quote character [Q], and [kw\s+(.+)]. *)
Definition quoted (kw : list regex) (q : ascii) : regex :=
  seqs (kw ++ [Plus space; chr q; Group 1 (Plus (not_chr q)); chr q]).
Definition rest_of_line (kw : list regex) : regex :=
  seqs (kw ++ [Plus space; Group 1 (Plus any)]).

Definition three (kw : list regex) : list regex :=
  [quoted kw "034"; quoted kw "'"; rest_of_line kw].

(** The nine patterns for [type], [enter text] and [input]. *)
Definition textPatterns : list regex :=
  three [lit_i "type"] ++ three [lit_i "enter"; Plus space; lit_i "text"]
  ++ three [lit_i "input"].

(** The six patterns for [search for] and [search]. *)
Definition searchPatterns : list regex :=
  three [lit_i "search"; Plus space; lit_i "for"] ++ three [lit_i "search"].

(** ** [fallbackParser] *)

(** [for (const pattern of patterns) { m = message.match(pattern); if (m) return f(m) }]:
    the result of the first pattern that matches, if any. *)
Fixpoint first_match {A} (message : string) (patterns : list regex)
    (f : MatchResult -> Res A) : option (Res A) :=
  match patterns with
  | [] => None
  | pattern :: rest =>
      match smatch message pattern with
      | Some m => Some (f m)
      | None => first_match message rest f
      end
  end.

(** [m[1].trim()]: a TypeError when group 1 took no part in the match. *)
Definition group1_trim (m : MatchResult) : Res string :=
  match group m 1 with
  | Some s => Ok (trim s)
  | None => Throw "Cannot read properties of undefined (reading 'trim')"
  end.

Definition with_scheme (url : string) : string :=
  if negb (startsWith url "http") then "https://" +:+ url else url.

Definition navigate_of_match (m : MatchResult) : Res ActionObj :=
  let url := match group m 1 with
             | Some g => if bool_decide (g = EmptyString) then m_text m else g
             | None => m_text m
             end in
  let url := replace_prefix url leading_verb in
  Ok (set_url (JStr (with_scheme url)) (obj "navigate")).

Definition fallbackParser (message : string) : Res ActionObj :=
  let lowerMessage := trim (toLowerCase message) in
  let has := includes lowerMessage in
  if has "generate test" || has "create test" || has "test case" || has "test code"
  then Ok (obj "generate_test")
  else
  match (if has "navigate" || has "go to" || has "open" || has "visit"
         then first_match message [url_with_path; url_after_verb; url_known_tld]
                navigate_of_match
         else None) with
  | Some r => r
  | None =>
  if has "click" then
    let text := match smatch message click_pattern with
                | Some textMatch =>
                    match group textMatch 1 with
                    | Some g => JStr g
                    | None => JUndefined
                    end
                | None => JStr "clickable element"
                end in
    Ok (set_text text (set_selector (JStr "button, a, [role='button']") (obj "click")))
  else
  match (if has "type" || has "enter text" || has "input"
         then first_match message textPatterns
                (fun textMatch =>
                   res_bind (group1_trim textMatch) (fun text =>
                   Ok (set_text (JStr text)
                         (set_selector (JStr "input, textarea") (obj "type")))))
         else None) with
  | Some r => r
  | None =>
  match (if has "search"
         then first_match message searchPatterns
                (fun searchMatch =>
                   res_bind (group1_trim searchMatch) (fun query =>
                   Ok (set_query (JStr query) (obj "search"))))
         else None) with
  | Some r => r
  | None =>
  if has "scroll" then
    let direction :=
      if has "up" then "up"
      else if has "down" then "down"
      else if has "left" then "left"
      else if has "right" then "right"
      else "down" in
    Ok (set_direction (JStr direction) (obj "scroll"))
  else if has "screenshot" || has "capture" || has "take picture"
  then Ok (obj "screenshot")
  else if has "enter" || has "press enter"
  then Ok (set_key (JStr "Enter") (obj "press_key"))
  else if has "wait"
  then Ok (set_selector (JStr "*") (obj "wait"))
  else
  match smatch message urlPattern with
  | Some urlMatch =>
      match group urlMatch 1 with
      | Some url => Ok (set_url (JStr (with_scheme url)) (obj "navigate"))
      | None => Throw "Cannot read properties of undefined (reading 'startsWith')"
      end
  | None => Ok (unknown message)
  end
  end
  end
  end.

(** ** [validateAction] and [processCommand] *)

Definition validActions : list string :=
  ["navigate"; "click"; "type"; "search"; "scroll"; "wait"; "screenshot";
   "press_key"; "generate_test"].

Definition is_action (o : ActionObj) (a : string) : bool :=
  bool_decide (action o = JStr a).

Definition validateAction (actionObj : ActionObj) : Res ActionObj :=
  if negb (truthy (action actionObj)) then Throw "Invalid action object"
  else if negb (existsb (is_action actionObj) validActions)
  then Throw ("Invalid action: " +:+ to_string (action actionObj))
  else if is_action actionObj "navigate" then
    if negb (truthy (url actionObj)) then Throw "Navigate action requires url"
    else match url actionObj with
         | JStr u => Ok (set_url (JStr (with_scheme u)) actionObj)
         | _ => Throw "actionObj.url.startsWith is not a function"
         end
  else if is_action actionObj "scroll" then
    let o1 := if negb (truthy (direction actionObj))
              then set_direction (JStr "down") actionObj else actionObj in
    let known := bool_decide (direction o1 ∈ [JStr "up"; JStr "down"; JStr "left"; JStr "right"]) in
    Ok (if negb known then set_direction (JStr "down") o1 else o1)
  else if is_action actionObj "click" then
    Ok (if negb (truthy (selector actionObj))
        then set_selector (JStr ("button, a, [role=" +:+ dq +:+ "button" +:+ dq +:+ "]")) actionObj
        else actionObj)
  else if is_action actionObj "type" then
    let o1 := if negb (truthy (selector actionObj))
              then set_selector (JStr "input, textarea") actionObj else actionObj in
    if negb (truthy (text o1)) then Throw "Type action requires text" else Ok o1
  else if is_action actionObj "search" then
    if negb (truthy (query actionObj)) then Throw "Search action requires query"
    else Ok actionObj
  else if is_action actionObj "wait" then
    Ok (if negb (truthy (selector actionObj))
        then set_selector (JStr "*") actionObj else actionObj)
  else if is_action actionObj "press_key" then
    Ok (if negb (truthy (key actionObj))
        then set_key (JStr "Enter") actionObj else actionObj)
  else Ok actionObj.

(** What a session sends to its client, by [type]. *)
Inductive WsMessage : Type :=
| ws_error (message : string)
| ws_ai_processing (message : string)
| ws_ai_decision (action : ActionObj) (message : string).

(** A WebSocket: whether [readyState] is [OPEN], and what was sent on it
    (oldest first). *)
Record Socket : Type := {
  is_open : bool;
  outbox : list WsMessage
}.

(** [String.prototype.toUpperCase] on ASCII; it is applied to action names. *)
Fixpoint toUpperCase (s : string) : string :=
  match s with
  | EmptyString => EmptyString
  | String c s' => String (canon c) (toUpperCase s')
  end.

Section Handler.

(** The rest of a session (its browser handler, its page snapshot and URL,
    its recorded steps), the system prompt that [processCommand] builds from
    it before its [try] block (building it throws when the snapshot is
    malformed), the language model behind [processCommand], and the
    dispatcher [executeAction] of this variant.  The model's reply stands for
    the completion parsed by [JSON.parse]; a failed call, a reply that does
    not parse and a reply that is not an object are all a [Throw]: each ends
    in the [catch] block of [processCommand]. *)
Variable B : Type.

Record Session : Type := {
  ws : option Socket;
  rest : B
}.

Variable systemPrompt : B -> Res string.
Variable completion : string -> string -> Res ActionObj.
Variable executeAction : Session -> ActionObj -> string -> Res unit * Session.

Definition processCommand (message : string) (session : Session) : Res ActionObj :=
  res_bind (systemPrompt (rest session)) (fun prompt =>
  match res_bind (completion prompt message) validateAction with
  | Ok actionObj => Ok actionObj
  | Throw _ => fallbackParser message
  end).

(** [safeWebSocketSend(session.ws, data)] *)
Definition safeWebSocketSend (data : WsMessage) (session : Session) : Session :=
  match ws session with
  | Some sock =>
      if is_open sock
      then {| ws := Some {| is_open := true; outbox := outbox sock ++ [data] |};
              rest := rest session |}
      else session
  | None => session
  end.

(** The payload of a chat message: [{ message, type }]. *)
Record ChatData : Type := {
  chat_message : jsval;
  chat_type : jsval
}.

Definition not_understood (message : string) : string :=
  "I couldn't understand: " +:+ dq +:+ message +:+ dq
  +:+ ". Try commands like " +:+ dq +:+ "visit google.com" +:+ dq +:+ ", "
  +:+ dq +:+ "scroll down" +:+ dq +:+ ", " +:+ dq +:+ "click button" +:+ dq +:+ ", "
  +:+ dq +:+ "type hello" +:+ dq +:+ ", " +:+ dq +:+ "generate test cases" +:+ dq
  +:+ ", etc.".

(** The [try] block of [handleChatMessage], for a string message. *)
Definition handle_command (message : string) (session : Session) : Res unit * Session :=
  match processCommand message session with
  | Throw e => (Throw e, session)
  | Ok actionCommand =>
      if bool_decide (action actionCommand = JStr "unknown")
      then (Ok tt, safeWebSocketSend (ws_error (not_understood message)) session)
      else
        match action actionCommand with
        | JStr a =>
            let session1 :=
              safeWebSocketSend
                (ws_ai_decision actionCommand ("AI decided: " +:+ toUpperCase a)) session in
            executeAction session1 actionCommand message
        | _ => (Throw "actionCommand.action.toUpperCase is not a function", session)
        end
  end.

(** [handleChatMessage(sessionId, data)] on the session map
    [activeSessions]. *)
Definition handleChatMessage (sessionId : string) (data : ChatData)
    (activeSessions : gmap string Session) : gmap string Session :=
  match activeSessions !! sessionId with
  | None => activeSessions
  | Some session =>
      match ws session with
      | None => activeSessions
      | Some _ =>
          match chat_message data with
          | JStr message =>
              if bool_decide (message = EmptyString)
              then <[sessionId := safeWebSocketSend (ws_error "Invalid message format") session]>
                     activeSessions
              else
                let session1 :=
                  safeWebSocketSend (ws_ai_processing "AI analyzing your request...") session in
                match handle_command message session1 with
                | (Ok _, session2) => <[sessionId := session2]> activeSessions
                | (Throw e, session2) =>
                    <[sessionId := safeWebSocketSend (ws_error ("Command failed: " +:+ e)) session2]>
                      activeSessions
                end
          | _ => <[sessionId := safeWebSocketSend (ws_error "Invalid message format") session]>
                   activeSessions
          end
      end
  end.

End Handler.

Arguments ws {B}.
Arguments rest {B}.
Arguments safeWebSocketSend {B}.

End Chat.

(* ===================================================================== *)
(** * The command variant: selector finders, dispatcher and handlers *)
(* ===================================================================== *)

(** [findBestSelector], [findExactMatch] and [fallbackSelectorFinder] of class
    [AIActionProcessor], and [executeAction] with the handlers it dispatches
    to, of [src/unnamed/part_001].

    Conventions, besides those of the embedding above.
    - The MCP handler of a session ([./mcp/handlers], not part of the
      sources) is a state [H] and the outcome of each [handleTool] call in
      it: a reply or a thrown error, the progress objects it reports
      meanwhile, and the next state.  The language model behind
      [findBestSelector], the clock and the file system of [generateTest] are
      read from the same state.
    - A page snapshot is an object whose [elements], when present, is an array
      of objects; a field that an object lacks is [JUndefined].
    - The pauses ([setTimeout]) have no effect on what is modelled and are
      left out. *)

Module Handlers.
Import JS.

(** An element of a page snapshot, as the handler reports it. *)
Module Info.
Record t : Type := {
  tag : jsval;
  type : jsval;
  role : jsval;
  text : jsval;
  value : jsval;
  placeholder : jsval;
  name : jsval;
  id : jsval;
  className : jsval;
  selector : jsval
}.
End Info.

(** [session.pageSnapshot]: [elements] is absent or an array. *)
Record PageSnapshot : Type := { elements : option (list Info.t) }.

(** ** The selector finders *)

(** [v.toLowerCase()] *)
Definition toLowerCase_of (what : string) (v : jsval) : Res string :=
  match v with
  | JStr s => Ok (toLowerCase s)
  | JUndefined => Throw "Cannot read properties of undefined (reading 'toLowerCase')"
  | JNull => Throw "Cannot read properties of null (reading 'toLowerCase')"
  | _ => Throw (what +:+ ".toLowerCase is not a function")
  end.

(** [v?.toLowerCase().includes(sub)]: [undefined], which is falsy, when [v]
    is [null] or [undefined]. *)
Definition opt_includes (what : string) (v : jsval) (sub : string) : Res bool :=
  match v with
  | JStr s => Ok (includes (toLowerCase s) sub)
  | JUndefined | JNull => Ok false
  | _ => Throw (what +:+ "?.toLowerCase is not a function")
  end.

(** [a || b] where both sides can throw. *)
Definition or_else (a : Res bool) (b : Res bool) : Res bool :=
  res_bind a (fun x => if x then Ok true else b).

(** [l.find(p)] for a predicate that can throw. *)
Fixpoint find_res {A} (p : A -> Res bool) (l : list A) : Res (option A) :=
  match l with
  | [] => Ok None
  | x :: l' =>
      match p x with
      | Throw e => Throw e
      | Ok true => Ok (Some x)
      | Ok false => find_res p l'
      end
  end.

(** [v === "s"] *)
Definition same (v : jsval) (s : string) : bool := bool_decide (v = JStr s).

(** [el.tag === "button" || el.tag === "a" || el.type === "submit" ||
    el.role === "button"] *)
Definition clickable (el : Info.t) : bool :=
  same (Info.tag el) "button" || same (Info.tag el) "a" || same (Info.type el) "submit"
  || same (Info.role el) "button".

(** The predicate of the first [find] of [findExactMatch]. *)
Definition button_with_text (lowerDesc : string) (el : Info.t) : Res bool :=
  if same (Info.tag el) "button" || same (Info.tag el) "a" || same (Info.role el) "button"
  then if truthy (Info.text el)
       then res_bind (toLowerCase_of "el.text" (Info.text el))
              (fun t => Ok (includes t lowerDesc))
       else Ok false
  else Ok false.

(** [(el.tag === "input" || el.tag === "textarea") &&
     (!el.type || el.type === "text" || el.type === "search")] *)
Definition text_input (el : Info.t) : bool :=
  (same (Info.tag el) "input" || same (Info.tag el) "textarea")
  && (negb (truthy (Info.type el)) || same (Info.type el) "text"
      || same (Info.type el) "search").

Definition findExactMatch (elements : list Info.t) (actionType : string)
    (description : jsval) : Res jsval :=
  res_bind (toLowerCase_of "description" description) (fun lowerDesc =>
  res_bind
    (if bool_decide (actionType = "click") then
       res_bind (find_res (button_with_text lowerDesc) elements) (fun button =>
       match button with
       | Some button => Ok (Some (Info.selector button))
       | None =>
           match find clickable elements with
           | Some clickable => Ok (Some (Info.selector clickable))
           | None => Ok None
           end
       end)
     else Ok None)
    (fun returned =>
       match returned with
       | Some v => Ok v
       | None =>
           if bool_decide (actionType = "type") then
             match find text_input elements with
             | Some input => Ok (Info.selector input)
             | None => Ok JNull
             end
           else Ok JNull
       end)).

(** [x?.selector || d] for [x = l[0]]. *)
Definition first_selector_or (l : list Info.t) (d : string) : jsval :=
  match l with
  | el :: _ => if truthy (Info.selector el) then Info.selector el else JStr d
  | [] => JStr d
  end.

Definition fallbackSelectorFinder (elements : list Info.t) (actionType : string)
    (description : jsval) : Res jsval :=
  res_bind (toLowerCase_of "description" description) (fun lowerDesc =>
  if bool_decide (actionType = "click") then
    let clickable := filter (fun el => clickable el = true) elements in
    res_bind
      (if includes lowerDesc "search" then
         find_res (fun el =>
                     or_else (opt_includes "el.text" (Info.text el) "search")
                             (opt_includes "el.value" (Info.value el) "search"))
           clickable
       else Ok None)
      (fun searchBtn =>
         match searchBtn with
         | Some searchBtn => Ok (Info.selector searchBtn)
         | None => Ok (first_selector_or clickable "button")
         end)
  else if bool_decide (actionType = "type") then
    let inputs :=
      filter (fun el => same (Info.tag el) "input" || same (Info.tag el) "textarea"
                        || same (Info.type el) "input" = true) elements in
    res_bind
      (if includes lowerDesc "search" then
         find_res (fun el =>
                     or_else (opt_includes "el.placeholder" (Info.placeholder el) "search")
                       (or_else (opt_includes "el.name" (Info.name el) "search")
                                (opt_includes "el.id" (Info.id el) "search")))
           inputs
       else Ok None)
      (fun searchInput =>
         match searchInput with
         | Some searchInput => Ok (Info.selector searchInput)
         | None => Ok (first_selector_or inputs "input")
         end)
  else Ok JNull).

(** [s.replace] of every quote character, single or double, by nothing. *)
Fixpoint remove_quotes (s : string) : string :=
  match s with
  | EmptyString => EmptyString
  | String c s' =>
      if bool_decide (c = "'"%char) || bool_decide (c = "034"%char)
      then remove_quotes s' else String c (remove_quotes s')
  end.

(** ** What a session sends to its client *)

Inductive Msg : Type :=
| error (message : string)
| status (message : string)
| progress (fields : list (string * jsval))
| action_start (action : string) (fields : list (string * jsval)) (message : string)
| navigation_complete (url title : jsval) (elements : list Info.t) (elementsCount : nat)
    (message : string)
| action_complete (action : string) (fields : list (string * jsval))
    (newElements : option (list Info.t)) (playwrightCode : option string)
    (message : string)
| screenshot_taken (screenshot : jsval) (playwrightCode : string) (message : string)
| test_generated (testCode fileName : string) (stepsCount : nat) (message : string).

Record Socket : Type := {
  is_open : bool;
  outbox : list Msg
}.

(** ** The tools of the MCP handler *)

Inductive Tool : Type :=
| browser_initialize
| page_navigate (url : jsval)
| page_get_snapshot
| element_click (selector : jsval) (timeout : Z)
| element_type (selector text : jsval) (timeout : Z)
| keyboard_press (key : jsval)
| page_scroll (direction : jsval)
| element_wait (selector : jsval) (timeout : Z)
| page_screenshot (fullPage : bool).

Record Navigated : Type := { nav_url : jsval; nav_title : jsval }.

(** What the handlers read of a tool result; [None] is a result that is
    [undefined]. *)
Definition tool_reply (t : Tool) : Type :=
  match t with
  | page_navigate _ => option Navigated
  | page_get_snapshot => option (option PageSnapshot)
  | page_screenshot _ => option jsval
  | _ => unit
  end.

Section Handlers.

Variable H : Type.
Variable handleTool :
  forall t : Tool, H -> Res (tool_reply t) * list (list (string * jsval)) * H.
(** The completion of the model for the prompt of [findBestSelector]: its
    [content], or a failed call. *)
Variable selectorModel : list Info.t -> string -> jsval -> H -> Res string * H.
(** [Date.now()], [new Date().toLocaleDateString()], and [fs.mkdir] followed
    by [fs.writeFile] of a file in [generated-tests]. *)
Variable now : H -> Z.
Variable localeDate : H -> string.
Variable writeTest : string -> string -> H -> Res unit * H.

Record Session : Type := {
  ws : option Socket;
  handler : H;
  isActive : bool;
  currentUrl : jsval;
  pageSnapshot : option PageSnapshot;
  testSteps : list string;
  lastAction : option (jsval * jsval)
}.

(** The session that the connection handler registers. *)
Definition started (sock : Socket) (h : H) : Session :=
  {| ws := Some sock; handler := h; isActive := false; currentUrl := JNull;
     pageSnapshot := None; testSteps := []; lastAction := None |}.

Definition set_ws (v : option Socket) (s : Session) : Session :=
  {| ws := v; handler := handler s; isActive := isActive s; currentUrl := currentUrl s;
     pageSnapshot := pageSnapshot s; testSteps := testSteps s; lastAction := lastAction s |}.
Definition set_handler (v : H) (s : Session) : Session :=
  {| ws := ws s; handler := v; isActive := isActive s; currentUrl := currentUrl s;
     pageSnapshot := pageSnapshot s; testSteps := testSteps s; lastAction := lastAction s |}.
Definition set_isActive (v : bool) (s : Session) : Session :=
  {| ws := ws s; handler := handler s; isActive := v; currentUrl := currentUrl s;
     pageSnapshot := pageSnapshot s; testSteps := testSteps s; lastAction := lastAction s |}.
Definition set_currentUrl (v : jsval) (s : Session) : Session :=
  {| ws := ws s; handler := handler s; isActive := isActive s; currentUrl := v;
     pageSnapshot := pageSnapshot s; testSteps := testSteps s; lastAction := lastAction s |}.
Definition set_pageSnapshot (v : option PageSnapshot) (s : Session) : Session :=
  {| ws := ws s; handler := handler s; isActive := isActive s; currentUrl := currentUrl s;
     pageSnapshot := v; testSteps := testSteps s; lastAction := lastAction s |}.
Definition push_testStep (line : string) (s : Session) : Session :=
  {| ws := ws s; handler := handler s; isActive := isActive s; currentUrl := currentUrl s;
     pageSnapshot := pageSnapshot s; testSteps := testSteps s ++ [line];
     lastAction := lastAction s |}.
Definition set_lastAction (v : option (jsval * jsval)) (s : Session) : Session :=
  {| ws := ws s; handler := handler s; isActive := isActive s; currentUrl := currentUrl s;
     pageSnapshot := pageSnapshot s; testSteps := testSteps s; lastAction := v |}.

(** ** The monad of the handlers *)

Definition M (A : Type) : Type := Session -> Res A * Session.

Definition ret {A} (a : A) : M A := fun s => (Ok a, s).
Definition throw {A} (message : string) : M A := fun s => (Throw message, s).
Definition bind {A B} (m : M A) (f : A -> M B) : M B :=
  fun s => match m s with
           | (Ok a, s') => f a s'
           | (Throw e, s') => (Throw e, s')
           end.
Definition try_catch {A} (m : M A) (h : string -> M A) : M A :=
  fun s => match m s with
           | (Ok a, s') => (Ok a, s')
           | (Throw e, s') => h e s'
           end.
Definition get : M Session := fun s => (Ok s, s).
Definition modify (f : Session -> Session) : M unit := fun s => (Ok tt, f s).
Definition lift {A} (r : Res A) : M A := fun s => (r, s).

Notation "x <- m ;; k" := (bind m (fun x => k))
  (at level 100, m at next level, right associativity).
Notation "m ;;; k" := (bind m (fun _ => k))
  (at level 100, right associativity).

(** [safeWebSocketSend(session.ws, data)] *)
Definition safeWebSocketSend (data : Msg) : M unit :=
  modify (fun s =>
            match ws s with
            | Some sock =>
                if is_open sock
                then set_ws (Some {| is_open := true; outbox := outbox sock ++ [data] |}) s
                else s
            | None => s
            end).

(** [await session.handler.handleTool(t, args, callback)]: the progress
    objects are forwarded to the client as they come, unless the callback
    is the empty one, as it is for [page_get_snapshot]. *)
Definition forward (reported : list (list (string * jsval))) : M unit :=
  fun s => (Ok tt, foldl (fun s0 p => snd (safeWebSocketSend (progress p) s0)) s reported).

Definition tool (t : Tool) (forwarding : bool) : M (tool_reply t) :=
  fun s =>
    let '(r, reported, h) := handleTool t (handler s) in
    let s1 := set_handler h s in
    (r, if forwarding then snd (forward reported s1) else s1).

(** ** [findBestSelector] *)

Definition findBestSelector (elements : list Info.t) (actionType : string)
    (description : jsval) : M jsval :=
  if bool_decide (length elements = 0%nat) then ret JNull
  else
    exactMatch <- lift (findExactMatch elements actionType description) ;;
    if truthy exactMatch then ret exactMatch
    else
      try_catch
        (fun s =>
           let '(r, h) := selectorModel (take 20 elements) actionType description
                            (handler s) in
           (res_bind r (fun content => Ok (JStr (remove_quotes (trim content)))),
            set_handler h s))
        (fun _ => lift (fallbackSelectorFinder elements actionType description)).

(** ** The handlers *)

(** [if (!session.isActive) { send the error; return; }] *)
Definition when_active (body : M unit) : M unit :=
  s <- get ;;
  if negb (isActive s)
  then safeWebSocketSend (error "Please navigate to a website first")
  else body.

(** The snapshot after an action: [session.pageSnapshot] is set, and the
    elements to report are [snapshot.snapshot.elements || []]. *)
Definition refresh_snapshot : M (list Info.t) :=
  newSnapshot <- (tool page_get_snapshot false : M (option (option PageSnapshot))) ;;
  match newSnapshot with
  | None => throw "Cannot read properties of undefined (reading 'snapshot')"
  | Some snapshot =>
      modify (set_pageSnapshot snapshot) ;;;
      match snapshot with
      | None => throw "Cannot read properties of undefined (reading 'elements')"
      | Some snapshot => ret (default [] (elements snapshot))
      end
  end.

(** [x || d] in a template literal or a field. *)
Definition or_default (v : jsval) (d : jsval) : jsval := if truthy v then v else d.

(** [if (!session.isActive) { ... }] of [handleNavigate]: the browser is
    initialized on the first navigation of a session. *)
Definition ensure_browser : M unit :=
  s <- get ;;
  if negb (isActive s) then
    safeWebSocketSend (status "Initializing browser...") ;;;
    tool browser_initialize true ;;;
    modify (set_isActive true)
  else ret tt.

(** The rest of the [try] block of [handleNavigate]. *)
Definition load_page (url : jsval) : M unit :=
  safeWebSocketSend
    (action_start "navigate" [("url", url)]
       ("Navigating to " +:+ to_string url +:+ "...")) ;;;
  result <- (tool (page_navigate url) true : M (option Navigated)) ;;
  match result with
  | None => throw "Cannot read properties of undefined (reading 'url')"
  | Some result =>
      modify (set_currentUrl (nav_url result)) ;;;
      modify (push_testStep ("await page.goto('" +:+ to_string url +:+ "');")) ;;;
      let loaded :=
        "Successfully loaded " +:+ to_string (or_default (nav_title result) url) in
      let title := or_default (nav_title result) (JStr "Unknown Title") in
      try_catch
        (els <- refresh_snapshot ;;
         safeWebSocketSend
           (navigation_complete (nav_url result) title els (length els) loaded))
        (fun _ =>
           safeWebSocketSend
             (navigation_complete (nav_url result) title [] 0 loaded))
  end.

Definition handleNavigate (actionCommand : Chat.ActionObj) : M unit :=
  let url := Chat.url actionCommand in
  try_catch
    (ensure_browser ;;; load_page url)
    (fun e => safeWebSocketSend (error ("Navigation failed: " +:+ e))).

(** [if (session.pageSnapshot && session.pageSnapshot.elements) { ... }]: the
    selector to use. *)
Definition better_selector (actionType : string) (description selector : jsval)
    : M jsval :=
  s <- get ;;
  match pageSnapshot s ≫= elements with
  | Some els =>
      bestSelector <- findBestSelector els actionType description ;;
      ret (if truthy bestSelector then bestSelector else selector)
  | None => ret selector
  end.

Definition handleClick (actionCommand : Chat.ActionObj) : M unit :=
  when_active
    (try_catch
       (selector <- better_selector "click"
                      (or_default (Chat.text actionCommand) (JStr "clickable element"))
                      (Chat.selector actionCommand) ;;
        safeWebSocketSend
          (action_start "click" [("selector", selector)]
             ("Clicking: " +:+ to_string selector)) ;;;
        tool (element_click selector 10000) true ;;;
        modify (push_testStep ("await page.click('" +:+ to_string selector +:+ "');")) ;;;
        let clicked := "Successfully clicked: " +:+ to_string selector in
        try_catch
          (els <- refresh_snapshot ;;
           safeWebSocketSend
             (action_complete "click" [("selector", selector)] (Some els) None clicked))
          (fun _ =>
             safeWebSocketSend
               (action_complete "click" [("selector", selector)] None None clicked)))
       (fun e => safeWebSocketSend (error ("Click failed: " +:+ e)))).

Definition handleType (actionCommand : Chat.ActionObj) : M unit :=
  when_active
    (try_catch
       (let text := Chat.text actionCommand in
        selector <- better_selector "type" text (Chat.selector actionCommand) ;;
        safeWebSocketSend
          (action_start "type" [("selector", selector); ("text", text)]
             ("Typing " +:+ dq +:+ to_string text +:+ dq +:+ " into: "
                +:+ to_string selector)) ;;;
        tool (element_type selector text 10000) true ;;;
        let code := "await page.fill('" +:+ to_string selector +:+ "', '"
                      +:+ to_string text +:+ "');" in
        modify (push_testStep code) ;;;
        modify (set_lastAction (Some (text, selector))) ;;;
        safeWebSocketSend
          (action_complete "type" [("selector", selector); ("text", text)] None (Some code)
             ("Successfully typed: " +:+ dq +:+ to_string text +:+ dq)))
       (fun e => safeWebSocketSend (error ("Type failed: " +:+ e)))).

(** The predicate of the [find] of [handleSearch]. *)
Definition search_input (el : Info.t) : Res bool :=
  if same (Info.tag el) "input" || same (Info.tag el) "textarea" then
    or_else (Ok (same (Info.type el) "search"))
      (or_else (opt_includes "el.name" (Info.name el) "search")
         (or_else (opt_includes "el.placeholder" (Info.placeholder el) "search")
            (or_else (opt_includes "el.id" (Info.id el) "search")
                     (opt_includes "el.className" (Info.className el) "search"))))
  else Ok false.

Definition nl : string := String "010"%char EmptyString.

Definition handleSearch (actionCommand : Chat.ActionObj) : M unit :=
  when_active
    (try_catch
       (let query := Chat.query actionCommand in
        s <- get ;;
        found <-
          match pageSnapshot s ≫= elements with
          | Some els =>
              searchInput <- lift (find_res search_input els) ;;
              ret (match searchInput with
                   | Some searchInput => Info.selector searchInput
                   | None => JNull
                   end)
          | None => ret JNull
          end ;;
        let searchBox :=
          or_default found
            (JStr ("input[name=" +:+ dq +:+ "q" +:+ dq +:+ "], input[type=" +:+ dq
                     +:+ "search" +:+ dq +:+ "], textarea[name=" +:+ dq +:+ "q" +:+ dq
                     +:+ "]")) in
        safeWebSocketSend
          (action_start "search" [("query", query); ("selector", searchBox)]
             ("Searching for: " +:+ dq +:+ to_string query +:+ dq)) ;;;
        tool (element_type searchBox query 10000) true ;;;
        let fill := "await page.fill('" +:+ to_string searchBox +:+ "', '"
                      +:+ to_string query +:+ "');" in
        modify (push_testStep fill) ;;;
        tool (keyboard_press (JStr "Enter")) true ;;;
        modify (push_testStep "await page.keyboard.press('Enter');") ;;;
        let searched := "Successfully searched for: " +:+ dq +:+ to_string query +:+ dq in
        try_catch
          (els <- refresh_snapshot ;;
           safeWebSocketSend
             (action_complete "search" [("query", query)] (Some els)
                (Some (fill +:+ nl +:+ "await page.keyboard.press('Enter');")) searched))
          (fun _ =>
             safeWebSocketSend
               (action_complete "search" [("query", query)] None None searched)))
       (fun e =>
          safeWebSocketSend
            (error ("Search failed: " +:+ e +:+ ". Try navigating to a search page first.")))).

(** [direction === "down" ? 300 : direction === "up" ? -300 : 0] *)
Definition scrollAmount (direction : jsval) : Z :=
  if same direction "down" then 300 else if same direction "up" then -300 else 0.

Definition handleScroll (actionCommand : Chat.ActionObj) : M unit :=
  when_active
    (try_catch
       (let direction := Chat.direction actionCommand in
        safeWebSocketSend
          (action_start "scroll" [("direction", direction)]
             ("Scrolling " +:+ to_string direction +:+ "...")) ;;;
        tool (page_scroll direction) true ;;;
        let code := "await page.evaluate(() => window.scrollBy(0, "
                      +:+ pretty (scrollAmount direction) +:+ "));" in
        modify (push_testStep code) ;;;
        safeWebSocketSend
          (action_complete "scroll" [("direction", direction)] None (Some code)
             ("Scrolled " +:+ to_string direction)))
       (fun e => safeWebSocketSend (error ("Scroll failed: " +:+ e)))).

Definition handleWait (actionCommand : Chat.ActionObj) : M unit :=
  when_active
    (try_catch
       (let selector := Chat.selector actionCommand in
        safeWebSocketSend
          (action_start "wait" [("selector", selector)]
             ("Waiting for: " +:+ to_string selector)) ;;;
        tool (element_wait selector 10000) true ;;;
        let code := "await page.waitForSelector('" +:+ to_string selector +:+ "');" in
        modify (push_testStep code) ;;;
        safeWebSocketSend
          (action_complete "wait" [("selector", selector)] None (Some code)
             ("Element appeared: " +:+ to_string selector)))
       (fun e => safeWebSocketSend (error ("Wait failed: " +:+ e)))).

Definition handlePressKey (actionCommand : Chat.ActionObj) : M unit :=
  when_active
    (try_catch
       (let key := Chat.key actionCommand in
        safeWebSocketSend
          (action_start "press_key" [("key", key)] ("Pressing: " +:+ to_string key)) ;;;
        tool (keyboard_press key) true ;;;
        let code := "await page.keyboard.press('" +:+ to_string key +:+ "');" in
        modify (push_testStep code) ;;;
        let pressed := "Successfully pressed: " +:+ to_string key in
        try_catch
          (els <- refresh_snapshot ;;
           safeWebSocketSend
             (action_complete "press_key" [("key", key)] (Some els) (Some code) pressed))
          (fun _ =>
             safeWebSocketSend
               (action_complete "press_key" [("key", key)] None None pressed)))
       (fun e => safeWebSocketSend (error ("Key press failed: " +:+ e)))).

Definition handleScreenshot : M unit :=
  when_active
    (try_catch
       (safeWebSocketSend (action_start "screenshot" [] "Taking screenshot...") ;;;
        result <- (tool (page_screenshot false) true : M (option jsval)) ;;
        let code := "await page.screenshot({ path: 'screenshot.png' });" in
        modify (push_testStep code) ;;;
        match result with
        | None => throw "Cannot read properties of undefined (reading 'screenshot')"
        | Some screenshot =>
            safeWebSocketSend
              (screenshot_taken screenshot code "Screenshot captured successfully")
        end)
       (fun e => safeWebSocketSend (error ("Screenshot failed: " +:+ e)))).

(** ** [generateTest] *)

(** The test file: the recorded steps, indented by twelve spaces, in the
    first test; the current URL, or [https://google.com], in the two others. *)
Definition testCode (date : string) (steps : list string) (currentUrl : jsval) : string :=
  let home := to_string (or_default currentUrl (JStr "https://google.com")) in
  join nl
    ["const { test, expect } = require('@playwright/test');";
     EmptyString;
     "test.describe('AI Generated Test Suite', () => {";
     "    test.beforeEach(async ({ page }) => {";
     "        // Set longer timeouts for complex interactions";
     "        page.setDefaultTimeout(30000);";
     "        page.setDefaultNavigationTimeout(45000);";
     "    });";
     EmptyString;
     "    test('Recorded User Journey - " +:+ date +:+ "', async ({ page }) => {";
     "        // Test generated from recorded actions";
     "        // Total steps: " +:+ pretty (length steps);
     "        // URL: " +:+ to_string (or_default currentUrl (JStr "N/A"));
     "        ";
     "        try {";
     join nl (map (fun step => "            " +:+ step) steps);
     "            ";
     "            // Verify the page loaded successfully";
     "            await expect(page).toHaveURL(/.*/);";
     "            ";
     "            console.log('Test completed successfully');";
     "        } catch (error) {";
     "            console.error('Test failed:', error);";
     "            throw error;";
     "        }";
     "    });";
     EmptyString;
     "    test('Page Load Performance Check', async ({ page }) => {";
     "        const start = Date.now();";
     "        await page.goto('" +:+ home +:+ "');";
     "        const loadTime = Date.now() - start;";
     "        ";
     "        expect(loadTime).toBeLessThan(10000); // Should load within 10 seconds";
     "        console.log(`Page loaded in ${loadTime}ms`);";
     "    });";
     EmptyString;
     "    test('Basic Accessibility Check', async ({ page }) => {";
     "        await page.goto('" +:+ home +:+ "');";
     "        ";
     "        // Check for basic accessibility elements";
     "        const title = await page.title();";
     "        expect(title).toBeTruthy();";
     "        expect(title.length).toBeGreaterThan(0);";
     "        ";
     "        console.log(`Page title: ${title}`);";
     "    });";
     "});"].

Definition generateTest : M unit :=
  s <- get ;;
  if bool_decide (length (testSteps s) = 0%nat) then
    safeWebSocketSend
      (error ("No actions recorded yet. Perform some actions first, "
                +:+ "then try generating test cases."))
  else
    try_catch
      (safeWebSocketSend (status "Generating comprehensive test cases...") ;;;
       let code := testCode (localeDate (handler s)) (testSteps s) (currentUrl s) in
       let fileName := "ai-generated-test-" +:+ pretty (now (handler s)) +:+ ".spec.js" in
       (fun s0 => let '(r, h) := writeTest fileName code (handler s0) in
                  (r, set_handler h s0)) ;;;
       safeWebSocketSend
         (test_generated code fileName (length (testSteps s))
            ("Generated comprehensive test suite with " +:+ pretty (length (testSteps s))
               +:+ " recorded steps + additional validation tests")) ;;;
       safeWebSocketSend
         (action_complete "generate_test" [] None (Some code)
            ("Test generation complete! File saved: " +:+ fileName)))
      (fun e => safeWebSocketSend (error ("Test generation failed: " +:+ e))).

(** ** [executeAction] *)

Definition unknown_action (action : jsval) : string :=
  "Unknown action: " +:+ to_string action +:+ ". Try commands like " +:+ dq
  +:+ "visit google.com" +:+ dq +:+ ", " +:+ dq +:+ "scroll down" +:+ dq +:+ ", "
  +:+ dq +:+ "click button" +:+ dq +:+ ", etc.".

Definition executeAction (actionCommand : Chat.ActionObj) : M unit :=
  let on (a : string) := same (Chat.action actionCommand) a in
  try_catch
    (if on "navigate" then handleNavigate actionCommand
     else if on "click" then handleClick actionCommand
     else if on "type" then handleType actionCommand
     else if on "search" then handleSearch actionCommand
     else if on "scroll" then handleScroll actionCommand
     else if on "wait" then handleWait actionCommand
     else if on "screenshot" then handleScreenshot
     else if on "press_key" then handlePressKey actionCommand
     else if on "generate_test" then generateTest
     else safeWebSocketSend (error (unknown_action (Chat.action actionCommand))))
    (fun e => safeWebSocketSend (error ("Action failed: " +:+ e))).

End Handlers.

Arguments set_ws {H}.
Arguments set_handler {H}.
Arguments set_isActive {H}.
Arguments set_currentUrl {H}.
Arguments set_pageSnapshot {H}.
Arguments push_testStep {H}.
Arguments set_lastAction {H}.
Arguments ret {H A}.
Arguments throw {H A}.
Arguments bind {H A B}.
Arguments try_catch {H A}.
Arguments get {H}.
Arguments modify {H}.
Arguments lift {H A}.
Arguments safeWebSocketSend {H}.
Arguments forward {H}.
Arguments when_active {H}.
Arguments ws {H}.
Arguments handler {H}.
Arguments isActive {H}.
Arguments currentUrl {H}.
Arguments pageSnapshot {H}.
Arguments testSteps {H}.
Arguments lastAction {H}.
Arguments started {H}.

End Handlers.

(* ===================================================================== *)
(** * Properties *)
(* ===================================================================== *)

(** ** The model on concrete inputs *)

Module Examples.
Import JS Regex Generator.

Example parseInt_examples :
  parseInt (JStr " 12px") = Ok (Some 12) /\ parseInt (JStr "0x1f") = Ok (Some 31)
  /\ parseInt (JStr "seven") = Ok None /\ parseInt (JNum (-7)) = Ok (Some (-7))
  /\ parseInt JUndefined = Ok None /\ parseInt_or (JStr "0") 3000 = Ok 3000
  /\ parseInt (JArr [JPrim (JStr "3"); JPrim (JStr "4")]) = Ok (Some 3)
  /\ parseInt Stub.opaque = Throw "Cannot convert object to primitive value".
Proof. vm_compute. done. Qed.

Example ToString_examples :
  ToString (JArr [JPrim (JNum 1); JPrim JNull; JArr [JPrim (JStr "a"); JPrim (JBool true)]])
  = Ok "1,,a,true"
  /\ ToString (JArr []) = Ok EmptyString
  /\ ToString (JObj [("a", JPrim (JNum 1))]) = Ok "[object Object]"
  /\ ToString Stub.opaque = Throw "Cannot convert object to primitive value"
  /\ ToString (JArr [JPrim (JNum 1); Stub.opaque])
     = Throw "Cannot convert object to primitive value".
Proof. vm_compute. done. Qed.

(** What the property reads find in a reply: the last of two members with
    the same key, nothing in an array, and no reply to read in [null]. *)
Example decision_fields_examples :
  (action <$> decision_fields (JObj [("action", JPrim (JStr "click"));
                                       ("action", JPrim (JStr "wait"))]))
  = Some (JPrim (JStr "wait"))
  /\ (action <$> decision_fields (JArr [JPrim (JStr "click")])) = Some (JPrim JUndefined)
  /\ decision_fields (JPrim JNull) = None.
Proof. vm_compute. done. Qed.

Example safe_pattern_examples :
  test safe_pattern "go-1" = true /\ test safe_pattern "1go" = false
  /\ test safe_pattern "hover:bg-blue-500" = false /\ test safe_pattern "" = false.
Proof. vm_compute. done. Qed.

Example class_names_example :
  getClassNames (Stub.element "DIV" "" [("class", "btn hover:bg-blue-500 2col  ok")] "" 0)
  = ["btn"; "ok"].
Proof. vm_compute. done. Qed.

Example ranked_selectors_example :
  getOptimalSelector Stub.go_button
  = {| primary := Some "#go-1";
       fallback := Some ("[data-testid=" +:+ dq +:+ "go" +:+ dq +:+ "]");
       tertiary := Some ("[aria-label=" +:+ dq +:+ "Go" +:+ dq +:+ "]") |}.
Proof. vm_compute. done. Qed.

Example fallbackParser_examples :
  Chat.fallbackParser "visit google.com"
  = Ok (Chat.set_url (JStr "https://google.com") (Chat.obj "navigate"))
  /\ Chat.fallbackParser "Click on the Login button"
     = Ok (Chat.set_text (JStr "the Login button")
             (Chat.set_selector (JStr "button, a, [role='button']") (Chat.obj "click")))
  /\ Chat.fallbackParser "search for 'red shoes' now"
     = Ok (Chat.set_query (JStr "red shoes") (Chat.obj "search"))
  /\ Chat.fallbackParser "scroll" = Ok (Chat.set_direction (JStr "down") (Chat.obj "scroll"))
  /\ Chat.fallbackParser "hello there" = Ok (Chat.unknown "hello there")
  /\ Chat.fallbackParser "type" = Ok (Chat.unknown "type").
Proof. vm_compute. done. Qed.

(** An oracle that returns [complete] at once: one step, goal completed. *)
Example complete_on_first_call :
  let oracle := {| Stub.shows := Stub.five_buttons;
                   Stub.decides := fun _ => Stub.decision "complete" JUndefined JUndefined;
                   Stub.rejects := fun _ _ => None |} in
  Report.executionSummary
    (fst (executeGoal nat (Stub.perform oracle) Stub.clock "nothing to do" Stub.ready))
  = {| totalSteps := 1; successfulSteps := 1; failedSteps := 0; goalCompleted := true |}.
Proof. vm_compute. done. Qed.

(** Navigate to a bare host, then complete: two steps, and the replay line of
    the navigation has the URL with [https://] in front. *)
Example navigate_then_complete_run :
  let report := fst (executeGoal nat (Stub.perform Stub.navigate_then_complete)
                       Stub.clock "go to example.com" Stub.ready) in
  Report.executionSummary report
  = {| totalSteps := 2; successfulSteps := 2; failedSteps := 0; goalCompleted := true |}
  /\ (Result.playwrightCode <$> Report.steps report)
     = ["await page.goto('https://example.com', { waitUntil: 'domcontentloaded' });";
        "// Goal: " +:+ dq +:+ "go to example.com" +:+ dq +:+ " completed successfully"].
Proof. vm_compute. done. Qed.

(** A click on element 7 of a snapshot of five fails with the message that
    names the index, and the loop goes on to the next step. *)
Example click_out_of_range_goes_on :
  let oracle := {| Stub.shows := Stub.five_buttons;
                   Stub.decides := fun w => if (w <? 10)%nat
                                            then Stub.decision "click" (JStr "7") JUndefined
                                            else Stub.decision "complete" JUndefined JUndefined;
                   Stub.rejects := fun _ _ => None |} in
  let report := fst (executeGoal nat (Stub.perform oracle) Stub.clock "click it" Stub.ready) in
  ((fun r => (Result.success r, Result.error r)) <$> Report.steps report)
  = [(false, "Element index 7 not found"); (true, EmptyString)].
Proof. vm_compute. done. Qed.

(** An oracle that replies [null]: the first step throws before anything is
    recorded, and the run ends with the error report. *)
Example null_reply_ends_the_run :
  let oracle := {| Stub.shows := Stub.five_buttons;
                   Stub.decides := fun _ => JPrim JNull;
                   Stub.rejects := fun _ _ => None |} in
  let report := fst (executeGoal nat (Stub.perform oracle) Stub.clock "anything" Stub.ready) in
  Report.error report = Some "Cannot read properties of null (reading 'action')"
  /\ Report.steps report = []
  /\ totalSteps (Report.executionSummary report) = 1%nat.
Proof. vm_compute. done. Qed.

(** An oracle whose descriptions do not convert to strings: the scroll of
    the first step succeeds and is recorded, and the prompt of the second
    step cannot be built from that history. *)
Example opaque_description_ends_the_run :
  let oracle := {| Stub.shows := Stub.five_buttons;
                   Stub.decides := fun _ => Stub.described Stub.opaque "scroll" JUndefined
                                              (JNum 200);
                   Stub.rejects := fun _ _ => None |} in
  let report := fst (executeGoal nat (Stub.perform oracle) Stub.clock "anything" Stub.ready) in
  Report.error report = Some "Cannot convert object to primitive value"
  /\ (Result.success <$> Report.steps report) = [true]
  /\ totalSteps (Report.executionSummary report) = 2%nat.
Proof. vm_compute. done. Qed.

End Examples.

(** ** Sorting with a comparator *)

Module SortFacts.
Import JS.

Section Sorting.
Context {A : Type} (cmp : A -> A -> Z).

(** The order a comparator induces: [a] may come before [b]. *)
Definition before (a b : A) : Prop := cmp a b <= 0.

(** A consistent comparator, as far as sorting needs it. *)
Hypothesis cmp_total : forall a b, before a b \/ before b a.
Hypothesis cmp_trans : forall a b c, before a b -> before b c -> before a c.

Lemma sort_insert_Permutation (x : A) (l : list A) :
  sort_insert cmp x l ≡ₚ x :: l.
Proof.
  induction l as [|y l IH]; simpl; [done|].
  destruct (cmp x y <=? 0); [done|].
  rewrite IH. apply Permutation_swap.
Qed.

Lemma sort_Permutation (l : list A) : sort cmp l ≡ₚ l.
Proof.
  induction l as [|x l IH]; simpl; [done|].
  by rewrite sort_insert_Permutation, IH.
Qed.

Lemma sort_insert_sorted (x : A) (l : list A) :
  StronglySorted before l -> StronglySorted before (sort_insert cmp x l).
Proof.
  induction l as [|y l IH]; simpl; intros Hl.
  - repeat constructor.
  - apply StronglySorted_inv in Hl as [Hl Hy].
    destruct (cmp x y <=? 0) eqn:E.
    + apply Z.leb_le in E.
      constructor; [by constructor|].
      constructor; [exact E|].
      eapply Forall_impl; [exact Hy|]. intros z Hz. by eapply cmp_trans.
    + apply Z.leb_gt in E.
      constructor; [by apply IH|].
      rewrite sort_insert_Permutation. constructor; [|done].
      destruct (cmp_total y x) as [H|H]; [done|unfold before in H; lia].
Qed.

Lemma sort_sorted (l : list A) : StronglySorted before (sort cmp l).
Proof.
  induction l as [|x l IH]; simpl; [constructor|].
  by apply sort_insert_sorted.
Qed.

Lemma sort_length (l : list A) : length (sort cmp l) = length l.
Proof. by rewrite sort_Permutation. Qed.

End Sorting.

(** The head of the input stays the head when nothing compares smaller. *)
Lemma sort_head_min {A} (cmp : A -> A -> Z) (x : A) (l : list A) :
  Forall (fun y => cmp x y <= 0) l -> exists l', sort cmp (x :: l) = x :: l'.
Proof.
  intros Hl. simpl.
  assert (Hs : Forall (fun y => cmp x y <= 0) (sort cmp l)).
  { clear -Hl. induction l as [|y l IH]; simpl; [constructor|].
    apply Forall_cons in Hl as [Hy Hl]. specialize (IH Hl).
    generalize dependent (sort cmp l). intros l0. induction l0 as [|z l0 IH0]; simpl; intros H0.
    - by repeat constructor.
    - apply Forall_cons in H0 as [Hz H0]. destruct (cmp y z <=? 0).
      + by repeat constructor.
      + constructor; [done|]. by apply IH0. }
  destruct (sort cmp l) as [|y l0]; simpl; [by eexists|].
  apply Forall_cons in Hs as [Hy _].
  apply Z.leb_le in Hy. rewrite Hy. by eexists.
Qed.

End SortFacts.

(** ** The snapshot: indices, cap and order *)

Module SnapshotFacts.
Import JS Snapshotter SortFacts.

Lemma compare_elements_total (a b : El.ElementData) :
  before compare_elements a b \/ before compare_elements b a.
Proof.
  unfold before, compare_elements.
  destruct (El.isInteractable a), (El.isInteractable b),
    (El.inViewport (El.position a)), (El.inViewport (El.position b)); simpl; lia.
Qed.

Lemma compare_elements_trans (a b c : El.ElementData) :
  before compare_elements a b -> before compare_elements b c ->
  before compare_elements a c.
Proof.
  unfold before, compare_elements.
  destruct (El.isInteractable a), (El.isInteractable b), (El.isInteractable c),
    (El.inViewport (El.position a)), (El.inViewport (El.position b)),
    (El.inViewport (El.position c)); simpl; lia.
Qed.

(** What [compare_elements a b <= 0] says, in the three keys of the order. *)
Lemma before_keys (a b : El.ElementData) :
  before compare_elements a b ->
  (El.isInteractable b = true -> El.isInteractable a = true) /\
  (El.isInteractable a = El.isInteractable b ->
   El.inViewport (El.position b) = true -> El.inViewport (El.position a) = true) /\
  (El.isInteractable a = El.isInteractable b ->
   El.inViewport (El.position a) = El.inViewport (El.position b) ->
   El.y (El.position a) <= El.y (El.position b)).
Proof.
  unfold before, compare_elements.
  destruct (El.isInteractable a), (El.isInteractable b),
    (El.inViewport (El.position a)), (El.inViewport (El.position b)); simpl;
    intros H; repeat split; intros; try done; lia.
Qed.

Lemma StronglySorted_lookup {A} (R : relation A) (l : list A) (i j : nat) (a b : A) :
  StronglySorted R l -> (i < j)%nat -> l !! i = Some a -> l !! j = Some b -> R a b.
Proof.
  intros Hl. revert i j. induction Hl as [|x l Hl IH Hx]; intros i j Hij Hi Hj; [done|].
  destruct j as [|j]; [lia|]. simpl in Hj.
  destruct i as [|i]; simpl in Hi.
  - injection Hi as <-. rewrite Forall_forall in Hx. apply Hx.
    by eapply list_elem_of_lookup_2.
  - eapply IH; [|done..]. lia.
Qed.

Lemma assign_index_lookup (l : list El.ElementData) (i : nat) (el : El.ElementData) :
  assign_index l !! i = Some el ->
  exists el0, l !! i = Some el0 /\ el = El.set_index i el0.
Proof.
  unfold assign_index. rewrite list_lookup_imap.
  destruct (l !! i) as [el0|]; simpl; [|done].
  intros [= <-]. by exists el0.
Qed.

Lemma assign_index_indices (l : list El.ElementData) :
  El.index <$> assign_index l = Some <$> seq 0 (length l).
Proof.
  apply list_eq. intros i. unfold assign_index.
  rewrite !list_lookup_fmap, list_lookup_imap.
  destruct (l !! i) as [el|] eqn:E; simpl.
  - rewrite lookup_seq_lt; [done|]. by eapply lookup_lt_Some.
  - rewrite lookup_seq_ge; [done|]. by apply lookup_ge_None.
Qed.

(** C1.  In every snapshot the [index] fields are 0, 1, ..., len-1 in this
    order, there are at most 75 elements, and of two elements the earlier one
    is interactable if the later one is; with equal interactability it is in
    the viewport if the later one is; and with both equal its vertical
    position is not greater. *)
Theorem snapshot_index_dense_capped_sorted (doc : Dom.Document) :
  let els := elements (snapshot_script doc) in
  El.index <$> els = Some <$> seq 0 (length els)
  /\ (length els <= 75)%nat
  /\ forall (i j : nat) (a b : El.ElementData),
       (i < j)%nat -> els !! i = Some a -> els !! j = Some b ->
       (El.isInteractable b = true -> El.isInteractable a = true) /\
       (El.isInteractable a = El.isInteractable b ->
        El.inViewport (El.position b) = true ->
        El.inViewport (El.position a) = true) /\
       (El.isInteractable a = El.isInteractable b ->
        El.inViewport (El.position a) = El.inViewport (El.position b) ->
        El.y (El.position a) <= El.y (El.position b)).
Proof.
  simpl. set (scanned := collected (scan doc)).
  split; [|split].
  - rewrite assign_index_indices. unfold assign_index. by rewrite length_imap.
  - unfold assign_index. rewrite length_imap, length_take. lia.
  - intros i j a b Hij Ha Hb.
    apply assign_index_lookup in Ha as (a0 & Ha & ->).
    apply assign_index_lookup in Hb as (b0 & Hb & ->).
    apply (before_keys (El.set_index i a0) (El.set_index j b0)).
    change (before compare_elements a0 b0).
    apply lookup_take_Some in Ha as [Ha _]. apply lookup_take_Some in Hb as [Hb _].
    eapply StronglySorted_lookup; [|exact Hij|exact Ha|exact Hb].
    apply sort_sorted; [apply compare_elements_total|apply compare_elements_trans].
Qed.

End SnapshotFacts.

(** ** The selector ranker *)

Module RankerFacts.
Import JS Regex Snapshotter SortFacts.

(** Follows the words of the specification: a safe identifier starts with a
    letter and contains only word characters and hyphens. *)
Fixpoint all_chars (p : ascii -> bool) (s : string) : bool :=
  match s with
  | EmptyString => true
  | String c s' => p c && all_chars p s'
  end.

Definition safe_identifier (s : string) : bool :=
  match s with
  | EmptyString => false
  | String c rest =>
      is_alpha c && all_chars (fun d => is_word d || bool_decide (d = "-"%char)) rest
  end.

Section Star.
Context {R : Type}.

(** A star of one character class followed by the end of input: it succeeds
    exactly when the class holds of all that is left. *)
Lemma star_class_to_end (p : ascii -> bool) (k : @cont R) (s : string) :
  forall (n i : nat) (caps : gmap nat string),
    (String.length s < n)%nat ->
    star_loop (rmatch (Chr p)) (fun i' s' caps' => rmatch Eol i' s' caps' k) n i s caps
    = if all_chars p s then k (i + String.length s)%nat EmptyString caps else None.
Proof.
  induction s as [|c s IH]; intros n i caps Hn.
  - destruct n as [|n]; [simpl in Hn; lia|]. simpl. by rewrite Nat.add_0_r.
  - destruct n as [|n]; [simpl in Hn; lia|]. simpl in Hn. cbn [star_loop rmatch all_chars String.length].
    destruct (p c) eqn:Epc; cbn [andb]; [|reflexivity].
    assert ((i <? S i)%nat = true) as -> by (apply Nat.ltb_lt; lia).
    rewrite IH by lia. replace (S i + String.length s)%nat with (i + S (String.length s))%nat by lia.
    destruct (all_chars p s); [|reflexivity]. by destruct (k _ _ _).
Qed.

End Star.

Lemma exec_from_Bol (r : regex) (s : string) (i : nat) :
  (0 < i)%nat -> exec_from (Seq Bol r) i s = None.
Proof.
  revert i. induction s as [|c s IH]; intros i Hi; simpl.
  - destruct i; [lia|done].
  - destruct i; [lia|]. simpl. apply IH. lia.
Qed.

(** The pattern of the source and the words of the specification agree. *)
Lemma safe_pattern_spec (s : string) : test safe_pattern s = safe_identifier s.
Proof.
  unfold test, smatch, safe_pattern.
  destruct s as [|c s].
  - reflexivity.
  - cbn [seqs exec_from rmatch Nat.eqb].
    destruct (is_alpha c) eqn:Ec; cbn [andb safe_identifier].
    + rewrite Ec. cbn [andb].
      pose proof (star_class_to_end
                    (fun d => is_word d || bool_decide (d = "-"%char))
                    (fun i' _ caps => Some (i', caps)) s
                    (S (String.length s)) 1%nat ∅ ltac:(lia)) as Hstar.
      cbn [rmatch] in Hstar. rewrite Hstar. clear Hstar.
      destruct (all_chars _ s).
      * by apply bool_decide_eq_true_2.
      * rewrite exec_from_Bol by lia.
        by apply bool_decide_eq_false_2; intros [? [=]].
    + rewrite Ec. cbn [andb].
      rewrite exec_from_Bol by lia.
      by apply bool_decide_eq_false_2; intros [? [=]].
Qed.

(** No candidate scores above 100. *)
Lemma pushed_if_score (b : bool) (x : Candidate) (top : Z) :
  snd x <= top -> Forall (fun d => snd d <= top) (pushed_if b x).
Proof. intros Hx. destruct b; by repeat constructor. Qed.

Lemma pushed_for_score (v : option string) (f : string -> Candidate) (top : Z) :
  (forall s, snd (f s) <= top) -> Forall (fun d => snd d <= top) (pushed_for v f).
Proof. intros Hf. destruct v; by repeat constructor. Qed.

Lemma parent_candidate_score (el : Dom.ElementRef) (tagName : string) :
  Forall (fun d => snd d <= 100) (parent_candidate el tagName).
Proof.
  unfold parent_candidate.
  destruct (Dom.parentElement el) as [[[parent children] place]|]; [|constructor].
  destruct (1 <? _); repeat constructor. simpl. lia.
Qed.

(** With a safe [id], the list of candidates starts with [#id], and nothing
    after it compares smaller under [by_score]. *)
Lemma candidates_led_by_id (el : Dom.ElementRef) :
  safe_identifier (Dom.id (Dom.self el)) = true ->
  exists rest,
    candidates el = ("#" +:+ Dom.id (Dom.self el), 100) :: rest
    /\ Forall (fun d => by_score ("#" +:+ Dom.id (Dom.self el), 100) d <= 0) rest.
Proof.
  intros Hid. unfold candidates. cbv zeta.
  rewrite safe_pattern_spec, Hid.
  assert (bool_decide (Dom.id (Dom.self el) = EmptyString) = false) as ->.
  { apply bool_decide_eq_false_2. intros E. by rewrite E in Hid. }
  cbn [negb andb pushed_if app].
  eexists. split; [reflexivity|].
  eapply Forall_impl with (P := fun d => snd d <= 100);
    [|unfold by_score; simpl; intros; lia].
  repeat (apply Forall_app; split);
    try (apply pushed_for_score; intros; simpl; lia);
    try (apply pushed_if_score; simpl; lia);
    try apply parent_candidate_score.
  - destruct (attr _ "role"); [apply pushed_if_score; simpl; lia|constructor].
  - destruct (attr _ "type"); [apply pushed_if_score; simpl; lia|constructor].
Qed.

(** C7.  An element whose [id] is a safe identifier (it starts with a letter
    and contains only word characters and hyphens) gets [#id] as its primary
    selector, whatever its other attributes are. *)
Theorem valid_id_is_primary_selector (el : Dom.ElementRef) :
  safe_identifier (Dom.id (Dom.self el)) = true ->
  primary (getOptimalSelector el) = Some ("#" +:+ Dom.id (Dom.self el)).
Proof.
  intros Hid. unfold getOptimalSelector. cbv zeta.
  destruct (candidates_led_by_id el Hid) as (rest & Hc & Hrest).
  destruct (sort_head_min by_score _ rest Hrest) as (l' & Hs).
  rewrite Hc. unfold Candidate in *. rewrite Hs.
  reflexivity.
Qed.

(** A button with a safe [id] and a test id, an ARIA label, classes and a
    type as well: [#go-1] comes first. *)
Lemma valid_id_is_primary_selector_witness :
  primary (getOptimalSelector Stub.go_button) = Some "#go-1".
Proof. exact (valid_id_is_primary_selector Stub.go_button eq_refl). Defined.

End RankerFacts.

(** ** The two scanning passes *)

Module ScanFacts.
Import JS Snapshotter.

(** One step of the generic pass: an element is added exactly when it was
    not processed by the first loop, fewer than 100 elements are collected,
    it is visible and its text is not empty. *)
Lemma scan_generic_step (doc : Dom.Document) (st : Scan) (r : Dom.ElementRef) :
  processedElements (scan_generic doc st r) = processedElements st /\
  ((exists d, (Dom.path r ∉ processedElements st) /\ (length (collected st) < 100)%nat
              /\ processElement doc r = Some d /\ El.text d <> EmptyString
              /\ collected (scan_generic doc st r) = collected st ++ [d])
   \/ ((Dom.path r ∈ processedElements st \/ (100 <= length (collected st))%nat
        \/ processElement doc r = None
        \/ (exists d, processElement doc r = Some d /\ El.text d = EmptyString))
       /\ scan_generic doc st r = st)).
Proof.
  unfold scan_generic.
  destruct (bool_decide (Dom.path r ∈ processedElements st)) eqn:Ep; simpl.
  { apply bool_decide_eq_true in Ep. split; [done|]. right. by split; [left|]. }
  apply bool_decide_eq_false in Ep.
  destruct (100 <=? Z.of_nat (length (collected st))) eqn:El.
  { apply Z.leb_le in El. split; [done|]. right. split; [|done]. right; left. lia. }
  apply Z.leb_gt in El.
  destruct (processElement doc r) as [d|] eqn:Ed.
  - destruct (0 <? slength (El.text d)) eqn:Et.
    + split; [done|]. left. exists d.
      split; [done|]. split; [lia|]. split; [done|]. split; [|done].
      intros E. rewrite E in Et. done.
    + split; [done|]. right. split; [|done]. do 3 right. exists d. split; [done|].
      apply Z.ltb_ge in Et. unfold slength in Et.
      destruct (El.text d); [done|]. cbn [String.length] in Et. lia.
  - split; [done|]. right. split; [|done]. right; right; by left.
Qed.

Lemma scan_generic_grows (doc : Dom.Document) (st : Scan) (r : Dom.ElementRef) :
  exists extra, collected (scan_generic doc st r) = collected st ++ extra
                /\ (length (collected st) <= 100 ->
                    length (collected (scan_generic doc st r)) <= 100)%nat.
Proof.
  destruct (scan_generic_step doc st r) as [_ [(d & _ & Hlt & _ & _ & E)|[_ E]]].
  - exists [d]. split; [done|]. rewrite E, length_app. simpl. lia.
  - exists []. rewrite E, app_nil_r. done.
Qed.

(** The whole generic pass from any state. *)
Lemma generic_pass_from (doc : Dom.Document) (l : list Dom.ElementRef) :
  forall st : Scan,
    let final := foldl (scan_generic doc) st l in
    processedElements final = processedElements st
    /\ (exists extra, collected final = collected st ++ extra)
    /\ ((length (collected st) <= 100)%nat -> (length (collected final) <= 100)%nat)
    /\ forall r d, r ∈ l -> Dom.path r ∉ processedElements st ->
         processElement doc r = Some d -> El.text d <> EmptyString ->
         d ∈ collected final \/ (100 <= length (collected final))%nat.
Proof.
  induction l as [|r0 l IH]; intros st; simpl.
  - split; [done|]. split; [by exists []; rewrite app_nil_r|]. split; [done|].
    intros r d Hr. by apply elem_of_nil in Hr.
  - destruct (IH (scan_generic doc st r0)) as (Hp & (extra & He) & Hlen & Hin).
    destruct (scan_generic_step doc st r0) as [Hp0 Hstep].
    destruct (scan_generic_grows doc st r0) as (extra0 & He0 & Hlen0).
    split; [by rewrite Hp, Hp0|].
    split; [exists (extra0 ++ extra); by rewrite He, He0, app_assoc|].
    split; [intros H; apply Hlen, Hlen0, H|].
    intros r d Hr Hnp Hd Ht. apply elem_of_cons in Hr as [->|Hr].
    + destruct Hstep as [(d' & _ & _ & Hd' & _ & E)|[[?|[Hfull|[Hn|(d' & Hd' & Ht')]]] E]].
      * left. rewrite He, E. rewrite Hd in Hd'. injection Hd' as <-.
        apply elem_of_app. left. apply elem_of_app. right. by apply list_elem_of_singleton.
      * done.
      * right. rewrite He, length_app, E. lia.
      * congruence.
      * congruence.
    + apply (Hin r d); try done. by rewrite Hp0.
Qed.

(** C6, as the code has it.  When the interactive-element query collected
    fewer than 100 elements, the generic pass never lets the list grow past
    100; every element that the first loop did not process, that is visible
    and has non-empty text is in the list after the pass unless 100 were
    reached; and the snapshot keeps at most 75 elements, cut after sorting. *)
Theorem generic_pass_stops_at_100 (doc : Dom.Document) :
  (length (collected (interactive_pass doc)) < 100)%nat ->
  (forall n : nat,
     (length (collected (foldl (scan_generic doc) (interactive_pass doc)
                           (take n (Dom.all_elements doc)))) <= 100)%nat)
  /\ (forall (r : Dom.ElementRef) (d : El.ElementData),
        r ∈ Dom.all_elements doc ->
        Dom.path r ∉ processedElements (interactive_pass doc) ->
        processElement doc r = Some d -> El.text d <> EmptyString ->
        d ∈ collected (scan doc) \/ length (collected (scan doc)) = 100%nat)
  /\ (length (elements (snapshot_script doc)) <= 75)%nat.
Proof.
  intros Hfirst. split; [|split].
  - intros n.
    destruct (generic_pass_from doc (take n (Dom.all_elements doc)) (interactive_pass doc))
      as (_ & _ & Hlen & _).
    apply Hlen. lia.
  - intros r d Hr Hnp Hd Ht. unfold scan. cbv zeta.
    destruct (generic_pass_from doc (Dom.all_elements doc) (interactive_pass doc))
      as (_ & _ & Hlen & Hin).
    destruct (Hin r d Hr Hnp Hd Ht) as [?|Hfull]; [by left|].
    right. assert (length (collected (interactive_pass doc)) <= 100)%nat as H0 by lia.
    specialize (Hlen H0). simpl in *. lia.
  - unfold snapshot_script, assign_index. simpl. rewrite length_imap, length_take. lia.
Qed.

(** With 75 in place of 100 the statement fails: on a page of eighty
    paragraphs the interactive-element query collects nothing, and the
    generic pass grows the list to 80 elements; 75 are kept. *)
Lemma generic_pass_grows_past_75 :
  length (collected (interactive_pass Stub.eighty_paragraphs)) = 0%nat
  /\ length (collected (scan Stub.eighty_paragraphs)) = 80%nat
  /\ length (elements (snapshot_script Stub.eighty_paragraphs)) = 75%nat.
Proof. vm_compute. done. Qed.

(** The page of eighty paragraphs: the first loop stays below 100, and the
    snapshot has at most 75 elements. *)
Lemma generic_pass_stops_at_100_witness :
  (length (collected (interactive_pass Stub.eighty_paragraphs)) < 100)%nat
  /\ (length (elements (snapshot_script Stub.eighty_paragraphs)) <= 75)%nat.
Proof.
  assert (H : (length (collected (interactive_pass Stub.eighty_paragraphs)) < 100)%nat)
    by (vm_compute; lia).
  split; [exact H|].
  exact (proj2 (proj2 (generic_pass_stops_at_100 Stub.eighty_paragraphs H))).
Defined.

End ScanFacts.

(** ** Capture groups of the matcher *)

Module RegexFacts.
Import JS Regex.

Section Captures.
Context {R : Type}.

(** What a successful match leaves in the captures: the groups that were
    set stay set, and a group that [r] defines is set. *)
Definition extends (g : nat) (marked : bool) (caps caps' : gmap nat string) : Prop :=
  (forall h, is_Some (caps !! h) -> is_Some (caps' !! h))
  /\ (marked = true -> is_Some (caps' !! g)).

Lemma extends_trans (g : nat) (b1 b2 : bool) (c1 c2 c3 : gmap nat string) :
  extends g b1 c1 c2 -> extends g b2 c2 c3 -> extends g (b1 || b2) c1 c3.
Proof.
  intros [H1 M1] [H2 M2]. split; [by auto|].
  intros Hb. apply orb_true_iff in Hb as [Hb|Hb]; auto.
Qed.

Lemma extends_weaken (g : nat) (b : bool) (c1 c2 : gmap nat string) :
  extends g b c1 c2 -> extends g false c1 c2.
Proof. intros [H _]. by split. Qed.

Lemma star_loop_captures (g : nat)
    (body : nat -> string -> gmap nat string -> @cont R -> option R)
    (k : @cont R) :
  (forall i s caps k' res, body i s caps k' = Some res ->
     exists i' s' caps', k' i' s' caps' = Some res /\ extends g false caps caps') ->
  forall n i s caps res,
    star_loop body k n i s caps = Some res ->
    exists i' s' caps', k i' s' caps' = Some res /\ extends g false caps caps'.
Proof.
  intros Hbody. induction n as [|n IH]; intros i s caps res; simpl.
  - intros Hk. exists i, s, caps. by repeat split.
  - destruct (body i s caps _) as [x|] eqn:E.
    + intros [= ->]. apply Hbody in E as (i1 & s1 & c1 & Hk & He).
      destruct (i <? i1)%nat; [|done].
      apply IH in Hk as (i2 & s2 & c2 & Hk & He2).
      exists i2, s2, c2. split; [done|]. exact (extends_trans g false false _ _ _ He He2).
    + intros Hk. exists i, s, caps. by repeat split.
Qed.

(** Whenever [rmatch] succeeds, its continuation succeeded on captures that
    extend the given ones and have every group that [r] defines. *)
Lemma rmatch_captures (g : nat) (r : regex) :
  forall i s caps (k : @cont R) res,
    rmatch r i s caps k = Some res ->
    exists i' s' caps', k i' s' caps' = Some res /\ extends g (defines g r) caps caps'.
Proof.
  induction r as [|p|r1 IH1 r2 IH2|r1 IH1 r2 IH2|r1 IH1|g0 r1 IH1| |];
    intros i s caps k res; cbn [rmatch defines].
  - intros Hk. exists i, s, caps. by repeat split.
  - destruct s as [|c s]; [done|]. destruct (p c); [|done].
    intros Hk. exists (S i), s, caps. by repeat split.
  - intros H. apply IH1 in H as (i1 & s1 & c1 & H & He1).
    apply IH2 in H as (i2 & s2 & c2 & H & He2).
    exists i2, s2, c2. split; [done|]. by eapply extends_trans.
  - destruct (rmatch r1 i s caps k) as [x|] eqn:E.
    + intros [= ->]. apply IH1 in E as (i1 & s1 & c1 & H & [He Hm]).
      exists i1, s1, c1. split; [done|]. split; [done|].
      intros Hb. apply andb_true_iff in Hb as [Hb _]. auto.
    + intros H. apply IH2 in H as (i1 & s1 & c1 & H & [He Hm]).
      exists i1, s1, c1. split; [done|]. split; [done|].
      intros Hb. apply andb_true_iff in Hb as [_ Hb]. auto.
  - apply (star_loop_captures g). intros i0 s0 caps0 k' res' H.
    apply IH1 in H as (i1 & s1 & c1 & H & He). exists i1, s1, c1.
    split; [done|]. by eapply extends_weaken.
  - intros H. apply IH1 in H as (i1 & s1 & c1 & H & [He Hm]).
    exists i1, s1, (<[g0 := substring0 (i1 - i) s]> c1). split; [done|]. split.
    + intros h Hh. apply lookup_insert_is_Some'. right. auto.
    + intros Hb. apply lookup_insert_is_Some'.
      apply orb_true_iff in Hb as [Hb|Hb]; [left; by apply bool_decide_eq_true in Hb|right; auto].
  - destruct (i =? 0)%nat; [|done]. intros Hk. exists i, s, caps. by repeat split.
  - destruct s; [|done]. intros Hk. exists i, EmptyString, caps. by repeat split.
Qed.

End Captures.

(** A group that the pattern defines is present in every match array. *)
Lemma smatch_group (g : nat) (r : regex) (s : string) (m : MatchResult) :
  defines g r = true -> smatch s r = Some m -> is_Some (group m g).
Proof.
  intros Hd. unfold smatch. generalize 0%nat. induction s as [|c s IH]; intros i; simpl.
  - destruct (rmatch r i EmptyString ∅ _) as [[i' caps]|] eqn:E; [|done].
    intros [= <-]. apply (rmatch_captures g) in E as (i1 & s1 & c1 & [= <- <-] & _ & Hm).
    by apply Hm.
  - destruct (rmatch r i (String c s) ∅ _) as [[i' caps]|] eqn:E; [|by apply IH].
    intros [= <-]. apply (rmatch_captures g) in E as (i1 & s1 & c1 & [= <- <-] & _ & Hm).
    by apply Hm.
Qed.

End RegexFacts.

(** ** The executor returns a result *)

Module ExecutorFacts.
Import JS Generator.

Section Executor.
Variable W : Type.
Variable perform : forall c : Call, W -> Res (reply c) * W.
Variable now : W -> Z.

Local Abbreviation St := (St W).
Local Abbreviation M := (M W).
Local Abbreviation executeAction := (executeAction W perform now).
Local Abbreviation try_body := (try_body W perform now).
Local Abbreviation attempt := (attempt W perform now).

(** The [catch] block of [executeAction] turns a throw of the [try] block
    into a value, when the description of the decision converts to a
    string; when it does not, the [catch] block throws in its turn. *)
Lemma attempt_returns (decision : Decision) (pageSnapshot : Snapshot) (s : St) :
  match try_body decision pageSnapshot s with
  | (Ok done, s1) => attempt decision pageSnapshot s = (Ok (fst done, EmptyString, snd done), s1)
  | (Throw e, s1) =>
      attempt decision pageSnapshot s
      = match ToString (description decision) with
        | Ok text => (Ok (false, e, "// Failed: " +:+ text +:+ " - " +:+ e), s1)
        | Throw e' => (Throw e', s1)
        end
  end.
Proof.
  unfold Generator.attempt, try_catch, bind, ret, lift.
  destruct (try_body decision pageSnapshot s) as [[out|e] s1]; [reflexivity|].
  by destruct (ToString (description decision)).
Qed.


End Executor.



(** C5, at the failing input.  A [clear] and a [hover] decision whose target
    index 7 is outside a snapshot of 5 elements yield [success = false] with
    an empty [error]; the [click] and [type] decisions at the same index
    yield the message that names the index. *)
Lemma out_of_range_clear_hover_have_empty_error :
  let snap := snapshot_script Stub.five_buttons in
  let run (a : string) :=
    fst (Generator.executeAction nat (Stub.perform Stub.scrolling) Stub.clock
           (Stub.decision a (JStr "7") JUndefined) snap Stub.ready) in
  let outcome (r : Res Result.t) :=
    match r with
    | Ok result => Some (Result.success result, Result.error result)
    | Throw _ => None
    end in
  length (elements snap) = 5%nat
  /\ outcome (run "clear") = Some (false, EmptyString)
  /\ outcome (run "hover") = Some (false, EmptyString)
  /\ outcome (run "click") = Some (false, "Element index 7 not found")
  /\ outcome (run "type") = Some (false, "Element index 7 not found").
Proof. vm_compute. done. Qed.

End ExecutorFacts.

(** ** What the methods leave unchanged *)

Module FrameFacts.
Import JS Generator.

Section Frame.
Variable W : Type.
Variable perform : forall c : Call, W -> Res (reply c) * W.
Variable now : W -> Z.

Local Abbreviation St := (St W).
Local Abbreviation M := (M W).

(** What no method called during a goal run changes, once the run has
    started: whether the page is there, the goal, the step budget and the
    step counter. *)
Definition frame (s s' : St) : Prop :=
  page s' = page s /\ currentGoal s' = currentGoal s /\ maxSteps s' = maxSteps s
  /\ stepCount s' = stepCount s /\ retryCount s' = retryCount s.

Definition keeps {A} (m : M A) : Prop := forall s, frame s (snd (m s)).

Lemma frame_refl (s : St) : frame s s.
Proof. by repeat split. Qed.

Lemma frame_trans (s1 s2 s3 : St) : frame s1 s2 -> frame s2 s3 -> frame s1 s3.
Proof. unfold frame. intros (?&?&?&?&?) (?&?&?&?&?). repeat split; congruence. Qed.

Lemma keeps_ret {A} (a : A) : keeps (ret a).
Proof. intros s. apply frame_refl. Qed.

Lemma keeps_throw {A} (e : string) : keeps (throw (A := A) e).
Proof. intros s. apply frame_refl. Qed.

Lemma keeps_get : keeps get.
Proof. intros s. apply frame_refl. Qed.

Lemma keeps_lift {A} (r : Res A) : keeps (lift r).
Proof. intros s. apply frame_refl. Qed.

Lemma keeps_bind {A B} (m : M A) (f : A -> M B) :
  keeps m -> (forall a, keeps (f a)) -> keeps (bind m f).
Proof.
  intros Hm Hf s. unfold bind. specialize (Hm s).
  destruct (m s) as [[a|e] s1]; simpl in *; [|done].
  eapply frame_trans; [exact Hm|apply Hf].
Qed.

Lemma keeps_try_catch {A} (m : M A) (h : string -> M A) :
  keeps m -> (forall e, keeps (h e)) -> keeps (try_catch m h).
Proof.
  intros Hm Hh s. unfold try_catch. specialize (Hm s).
  destruct (m s) as [[a|e] s1]; simpl in *; [done|].
  eapply frame_trans; [exact Hm|apply Hh].
Qed.

Lemma keeps_when (c : bool) (m : M unit) : keeps m -> keeps (when c m).
Proof. intros Hm. destruct c; [done|apply keeps_ret]. Qed.

Lemma keeps_broadcast (n : Notification) : keeps (broadcast n).
Proof. intros s. by repeat split. Qed.

Lemma keeps_call (c : Call) : keeps (call W perform c).
Proof. intros s. unfold call. destruct (perform c (world s)). by repeat split. Qed.

Lemma keeps_date_now : keeps (date_now W now).
Proof. intros s. apply frame_refl. Qed.

Lemma keeps_record (r : Result.t) : keeps (modify (record_result r)).
Proof. intros s. by repeat split. Qed.

Ltac keeps_step :=
  lazymatch goal with
  | |- keeps (bind _ _) => apply keeps_bind; [|intros]
  | |- keeps (try_catch _ _) => apply keeps_try_catch; [|intros]
  | |- keeps (when _ _) => apply keeps_when
  | |- keeps (ret _) => apply keeps_ret
  | |- keeps (throw _) => apply keeps_throw
  | |- keeps get => apply keeps_get
  | |- keeps (lift _) => apply keeps_lift
  | |- keeps (broadcast _) => apply keeps_broadcast
  | |- keeps (call _ _ ?c) => exact (keeps_call c)
  | |- keeps (date_now _ _) => apply keeps_date_now
  | |- keeps (modify (record_result _)) => apply keeps_record
  | |- keeps (if ?c then _ else _) => destruct c
  | |- keeps (match ?x with _ => _ end) => destruct x
  end.

Ltac keeps_all := repeat first [keeps_step | assumption].

Lemma keeps_waitForStability : keeps (waitForStability W perform).
Proof. unfold waitForStability. keeps_all. Qed.

Lemma keeps_takeScreenshot : keeps (takeScreenshot W perform).
Proof. unfold takeScreenshot. keeps_all. Qed.

Lemma keeps_getCurrentPageSnapshot : keeps (getCurrentPageSnapshot W perform).
Proof.
  unfold getCurrentPageSnapshot. pose proof keeps_waitForStability. keeps_all.
Qed.

Lemma keeps_decideNextAction (goal : string) (snap : Snapshot) (h : list Result.t) :
  keeps (decideNextAction W perform goal snap h).
Proof. unfold decideNextAction. keeps_all. Qed.

Lemma keeps_try_selector (endTime : Z) (selector : json) :
  keeps (try_selector W perform now endTime selector).
Proof. unfold try_selector. keeps_all. Qed.

Lemma keeps_findElement_loop (endTime : Z) (selectors : list json) :
  forall lastError, keeps (findElement_loop W perform now endTime selectors lastError).
Proof.
  induction selectors as [|selector rest IH]; intros lastError; simpl.
  - apply keeps_throw.
  - destruct (negb (truthy_json selector)); [apply IH|].
    intros s. pose proof (keeps_try_selector endTime selector s) as H1.
    destruct (try_selector _ _ _ _ _ s) as [[[found|]|e] s1]; simpl in *; [done|..];
      (eapply frame_trans; [exact H1|apply IH]).
Qed.

Lemma keeps_findElement (selectors : list json) (timeout : Z) :
  keeps (findElement W perform now selectors timeout).
Proof.
  unfold findElement. pose proof keeps_findElement_loop. keeps_all. apply keeps_findElement_loop.
Qed.

Lemma keeps_retry_loop {A} (action : M A) (maxRetries : nat) :
  keeps action ->
  forall n attempt lastError,
    keeps (retry_loop W perform action maxRetries n attempt lastError).
Proof.
  intros Ha. induction n as [|n IH]; intros attempt lastError; simpl.
  - apply keeps_throw.
  - intros s. pose proof (Ha s) as H1.
    destruct (action s) as [[a|e] s1]; simpl in *; [done|].
    eapply frame_trans; [exact H1|].
    assert (keeps (when (attempt <? maxRetries)%nat
                     (bind (broadcast (retry ("Retrying action (attempt "
                                                +:+ pretty (attempt + 1)%nat +:+ "/"
                                                +:+ pretty maxRetries +:+ ")") e))
                        (fun _ => call W perform (waitForTimeout (1000 * Z.of_nat attempt)))))) as Hw
      by keeps_all.
    apply (keeps_bind _ (fun _ => retry_loop W perform action maxRetries n (S attempt) (Some e)) Hw).
    intros _. apply IH.
Qed.

Lemma keeps_executeActionWithRetry {A} (action : M A) (maxRetries : nat) :
  keeps action -> keeps (executeActionWithRetry W perform action maxRetries).
Proof. intros Ha. by apply keeps_retry_loop. Qed.

Ltac keeps_exec :=
  repeat first
    [ keeps_step
    | apply keeps_executeActionWithRetry
    | apply keeps_findElement
    | apply keeps_waitForStability ].

Lemma keeps_click_action (l : list json) : keeps (click_action W perform now l).
Proof. unfold click_action. keeps_exec. Qed.

Lemma keeps_type_action (l : list json) (v : json) : keeps (type_action W perform now l v).
Proof. unfold type_action. keeps_exec. Qed.

Lemma keeps_clear_action (l : list json) : keeps (clear_action W perform now l).
Proof. unfold clear_action. keeps_exec. Qed.

Lemma keeps_hover_action (l : list json) : keeps (hover_action W perform now l).
Proof. unfold hover_action. keeps_exec. Qed.

Lemma keeps_spread (x : json) : keeps (spread W x).
Proof. unfold spread. keeps_all. Qed.

Lemma keeps_target_url (t : json) : keeps (target_url W t).
Proof. unfold target_url. keeps_all. Qed.

Lemma keeps_perform_action (decision : Decision) (snap : Snapshot) :
  keeps (perform_action W perform now decision snap).
Proof.
  unfold perform_action. cbv zeta.
  repeat first
    [ keeps_step
    | apply keeps_executeActionWithRetry
    | apply keeps_waitForStability
    | apply keeps_click_action | apply keeps_type_action
    | apply keeps_clear_action | apply keeps_hover_action
    | apply keeps_spread | apply keeps_target_url ].
Qed.

Lemma keeps_try_body (decision : Decision) (snap : Snapshot) :
  keeps (try_body W perform now decision snap).
Proof.
  unfold try_body.
  repeat first [keeps_step | apply keeps_perform_action | apply keeps_waitForStability].
Qed.

Lemma keeps_attempt (decision : Decision) (snap : Snapshot) :
  keeps (attempt W perform now decision snap).
Proof. unfold attempt. repeat first [keeps_step | apply keeps_try_body]. Qed.

Lemma keeps_executeAction (decision : json) (snap : Snapshot) :
  keeps (executeAction W perform now decision snap).
Proof. unfold executeAction. repeat first [keeps_step | apply keeps_attempt]. Qed.

End Frame.
End FrameFacts.

(** ** The retry policy *)

Module RetryFacts.
Import JS Generator.

(** The delays of the pauses among the calls issued, oldest first. *)
Definition pauses (l : list Call) : list Z :=
  omap (fun c => match c with waitForTimeout ms => Some ms | _ => None end) l.

(** The number of retry notifications among what was broadcast. *)
Definition is_retry (n : Notification) : bool :=
  match n with
  | retry _ _ => true
  | _ => false
  end.

Definition retries (l : list Notification) : nat :=
  length (filter (fun n => is_retry n = true) l).

Section Retry.
Variable W : Type.
Variable perform : forall c : Call, W -> Res (reply c) * W.
Variable now : W -> Z.

Local Abbreviation St := (St W).
Local Abbreviation M := (M W).

(** The state after the catch block of attempt [attempt] (of 3) has
    broadcast its retry notification and its pause has returned, leaving
    the browser in [w]. *)
Definition paused (attempt : nat) (e : string) (w : W) (s : St) : St :=
  set_world w (waitForTimeout (1000 * Z.of_nat attempt))
    (add_sent (retry ("Retrying action (attempt " +:+ pretty (attempt + 1)%nat
                        +:+ "/" +:+ pretty 3%nat +:+ ")") e) s).

Lemma pauses_paused (attempt : nat) (e : string) (w : W) (s : St) :
  pauses (calls (paused attempt e w s)) = pauses (calls s) ++ [1000 * Z.of_nat attempt].
Proof. unfold paused, pauses. simpl. by rewrite omap_app. Qed.

Lemma retries_paused (attempt : nat) (e : string) (w : W) (s : St) :
  retries (sent (paused attempt e w s)) = S (retries (sent s)).
Proof.
  unfold paused, retries. simpl. rewrite filter_app, length_app. simpl. lia.
Qed.

(** One failed attempt that is not the last, followed by its pause. *)
Lemma retry_loop_again {A} (action : M A) (n attempt : nat) (lastError : option string)
    (s s1 : St) (e : string) (w : W) :
  (attempt < 3)%nat ->
  action s = (Throw e, s1) ->
  perform (waitForTimeout (1000 * Z.of_nat attempt)) (world s1) = (Ok tt, w) ->
  retry_loop W perform action 3 (S n) attempt lastError s
  = retry_loop W perform action 3 n (S attempt) (Some e) (paused attempt e w s1).
Proof.
  intros Hlt E P. cbn [retry_loop]. rewrite E.
  apply Nat.ltb_lt in Hlt. rewrite Hlt.
  unfold bind, when, broadcast, modify, call. cbn [world add_sent]. rewrite P.
  reflexivity.
Qed.

(** C3.  [executeActionWithRetry] with the bound 3 runs the action at least
    once and at most three times, whatever counts the runs.  When the action
    throws twice and then returns, with the two pauses returning, the call
    returns that value, in the state the third run left; if the action itself
    broadcasts no retry notification and makes no pause, exactly two retry
    notifications were broadcast, and the pauses were of 1000 and 2000 ms, in
    this order.  When the action throws three times, the call throws the
    third error, with no pause after it. *)
Theorem retry_policy {A} (action : M A) (s : St) :
  (forall count : St -> nat,
     (forall s0, count (snd (action s0)) = S (count s0)) ->
     (forall n s0, count (add_sent n s0) = count s0) ->
     (forall w ms s0, count (set_world w (waitForTimeout ms) s0) = count s0) ->
     (count s + 1 <= count (snd (executeActionWithRetry W perform action 3 s)) <= count s + 3)%nat)
  /\ (forall e1 s1 w1 e2 s2 w2 a s3,
        action s = (Throw e1, s1) ->
        perform (waitForTimeout 1000) (world s1) = (Ok tt, w1) ->
        action (paused 1 e1 w1 s1) = (Throw e2, s2) ->
        perform (waitForTimeout 2000) (world s2) = (Ok tt, w2) ->
        action (paused 2 e2 w2 s2) = (Ok a, s3) ->
        executeActionWithRetry W perform action 3 s = (Ok a, s3)
        /\ ((forall s0, retries (sent (snd (action s0))) = retries (sent s0)) ->
            retries (sent s3) = (retries (sent s) + 2)%nat)
        /\ ((forall s0, pauses (calls (snd (action s0))) = pauses (calls s0)) ->
            pauses (calls s3) = pauses (calls s) ++ [1000; 2000]))
  /\ (forall e1 s1 w1 e2 s2 w2 e3 s3,
        action s = (Throw e1, s1) ->
        perform (waitForTimeout 1000) (world s1) = (Ok tt, w1) ->
        action (paused 1 e1 w1 s1) = (Throw e2, s2) ->
        perform (waitForTimeout 2000) (world s2) = (Ok tt, w2) ->
        action (paused 2 e2 w2 s2) = (Throw e3, s3) ->
        executeActionWithRetry W perform action 3 s = (Throw e3, s3)).
Proof.
  unfold executeActionWithRetry.
  split; [|split].
  - intros count Hrun Hsent Hwait.
    cbn [retry_loop]. unfold bind, when, broadcast, modify, call, throw, ret.
    cbn [Nat.ltb Nat.leb].
    pose proof (Hrun s) as H1.
    destruct (action s) as [[a|e1] s1]; cbn [snd] in *; [lia|].
    destruct (perform (waitForTimeout (1000 * Z.of_nat 1)) _) as [[[]|e] w1];
      cbv beta iota; cbn [snd]; [|rewrite Hwait, Hsent; lia].
    match goal with |- context [action ?x] => pose proof (Hrun x) as H2 end.
    rewrite Hwait, Hsent in H2.
    destruct (action _) as [[a|e2] s2]; cbv beta iota; cbn [snd] in *; [lia|].
    destruct (perform (waitForTimeout (1000 * Z.of_nat 2)) _) as [[[]|e] w2];
      cbv beta iota; cbn [snd]; [|rewrite Hwait, Hsent; lia].
    match goal with |- context [action ?x] => pose proof (Hrun x) as H3 end.
    rewrite Hwait, Hsent in H3.
    destruct (action _) as [[a|e3] s3]; cbv beta iota; cbn [snd] in *; lia.
  - intros e1 s1 w1 e2 s2 w2 a s3 E1 P1 E2 P2 E3.
    split; [|split].
    + rewrite (retry_loop_again action 2 1 None s s1 e1 w1 ltac:(lia) E1 P1).
      rewrite (retry_loop_again action 1 2 (Some e1) _ s2 e2 w2 ltac:(lia) E2 P2).
      cbn [retry_loop]. by rewrite E3.
    + intros Hquiet.
      pose proof (Hquiet s) as H1. rewrite E1 in H1.
      pose proof (Hquiet (paused 1 e1 w1 s1)) as H2. rewrite E2, retries_paused in H2.
      pose proof (Hquiet (paused 2 e2 w2 s2)) as H3. rewrite E3, retries_paused in H3.
      cbn [snd] in *. lia.
    + intros Hquiet.
      pose proof (Hquiet s) as H1. rewrite E1 in H1.
      pose proof (Hquiet (paused 1 e1 w1 s1)) as H2. rewrite E2, pauses_paused in H2.
      pose proof (Hquiet (paused 2 e2 w2 s2)) as H3. rewrite E3, pauses_paused in H3.
      cbn [snd] in *. rewrite H3, H2, H1, <- app_assoc. reflexivity.
  - intros e1 s1 w1 e2 s2 w2 e3 s3 E1 P1 E2 P2 E3.
    rewrite (retry_loop_again action 2 1 None s s1 e1 w1 ltac:(lia) E1 P1).
    rewrite (retry_loop_again action 1 2 (Some e1) _ s2 e2 w2 ltac:(lia) E2 P2).
    cbn [retry_loop]. rewrite E3. reflexivity.
Qed.

End Retry.

(** A navigation that the browser rejects twice and then accepts. *)
Lemma retry_policy_witness :
  fst (executeActionWithRetry nat (Stub.perform Stub.flaky_goto)
         (call nat (Stub.perform Stub.flaky_goto) (goto "https://example.com")) 3
         Stub.ready) = Ok tt.
Proof.
  pose proof (proj1 (proj2 (retry_policy nat (Stub.perform Stub.flaky_goto)
                              (call nat (Stub.perform Stub.flaky_goto)
                                 (goto "https://example.com")) Stub.ready))) as H.
  specialize (H _ _ _ _ _ _ _ _ eq_refl eq_refl eq_refl eq_refl eq_refl).
  destruct H as [H _]. rewrite H. reflexivity.
Defined.

End RetryFacts.

(** ** The goal loop *)

Module GoalLoopFacts.
Import JS Generator FrameFacts.

Definition is_max_steps_reached (n : Notification) : bool :=
  match n with
  | max_steps_reached _ => true
  | _ => false
  end.

Section GoalLoop.
Variable W : Type.
Variable perform : forall c : Call, W -> Res (reply c) * W.
Variable now : W -> Z.

Local Abbreviation St := (St W).
Local Abbreviation M := (M W).
Local Abbreviation executeGoal := (executeGoal W perform now).
Local Abbreviation goal_loop := (goal_loop W perform now).
Local Abbreviation step := (step W perform now).
Local Abbreviation after_action := (after_action W perform).

(** The decision oracle never returns a [complete] action. *)
Definition never_complete : Prop :=
  forall goal snap history w d w' fields,
    perform (chat_completion goal snap history) w = (Ok d, w') ->
    decision_fields d = Some fields ->
    action fields <> JStr "complete".

(** A decision that [decideNextAction] returns is a reply of the oracle. *)
Lemma decideNextAction_reply (goal : string) (snap : Snapshot) (h : list Result.t)
    (s s' : St) (d : json) :
  decideNextAction W perform goal snap h s = (Ok d, s') ->
  exists w w', perform (chat_completion goal snap (slice_last 5 h)) w = (Ok d, w').
Proof.
  unfold decideNextAction, try_catch, bind, get, broadcast, modify, call, ret, throw, lift.
  destruct (history_lines 0 (slice_last 5 h)) as [lines|e0]; [|done].
  cbn [world add_sent].
  destruct (perform (chat_completion goal snap (slice_last 5 h)) (world s))
    as [[d0|e] w'] eqn:E; intros [= <- _]. by exists (world s), w'.
Qed.

Lemma step_reply (goal : string) (s s1 : St) (result : Result.t) (d : json) :
  step goal s = (Ok (result, d), s1) ->
  exists goal' snap history w w',
    perform (chat_completion goal' snap history) w = (Ok d, w').
Proof.
  unfold Generator.step, bind, get, broadcast, modify, ret. cbv beta iota.
  match goal with
  | |- context [takeScreenshot W perform ?x] =>
      destruct (takeScreenshot W perform x) as [[[]|e] s2]; [|done]
  end.
  destruct (getCurrentPageSnapshot W perform s2) as [[snap|e] s3]; [|done].
  cbv beta iota.
  match goal with
  | |- context [decideNextAction W perform goal snap ?h ?x] =>
      destruct (decideNextAction W perform goal snap h x) as [[d0|e] s4] eqn:Ed; [|done]
  end.
  destruct (Generator.executeAction W perform now d0 snap s4) as [[r|e] s5]; [|done].
  intros [= _ <- _].
  apply decideNextAction_reply in Ed as (w & w' & Ed). do 5 eexists. exact Ed.
Qed.

(** An iteration advances the step counter by one and leaves the budget. *)
Lemma step_counts (goal : string) (s : St) :
  stepCount (snd (step goal s)) = S (stepCount s)
  /\ maxSteps (snd (step goal s)) = maxSteps s.
Proof.
  assert (keeps W
            (bind get (fun s0 =>
             bind (broadcast (step_start (stepCount s0) goal)) (fun _ =>
             bind (takeScreenshot W perform) (fun _ =>
             bind (getCurrentPageSnapshot W perform) (fun pageSnapshot =>
             bind (broadcast (page_snapshot (url pageSnapshot)
                                (length (elements pageSnapshot)) (stepCount s0))) (fun _ =>
             bind get (fun s1 =>
             bind (decideNextAction W perform goal pageSnapshot (executionHistory s1))
               (fun decision =>
             bind (Generator.executeAction W perform now decision pageSnapshot)
               (fun result => ret (result, decision))))))))))) as Hk.
  { repeat first
      [ apply keeps_takeScreenshot | apply keeps_getCurrentPageSnapshot
      | apply keeps_decideNextAction | apply keeps_executeAction
      | apply keeps_get | apply keeps_broadcast | apply keeps_ret
      | apply keeps_bind; [|intros] ]. }
  specialize (Hk (next_step s)). destruct Hk as (_ & _ & Hm & Hc & _).
  split; [exact Hc|exact Hm].
Qed.

Lemma keeps_after_action (result : Result.t) (d : json) (gc : bool) :
  keeps W (after_action result d gc).
Proof.
  unfold Generator.after_action.
  repeat first
    [ apply keeps_bind; [|intros]
    | apply keeps_get | apply keeps_broadcast | apply keeps_ret | apply keeps_throw
    | exact (keeps_call W perform _)
    | match goal with |- keeps _ (if ?c then _ else _) => destruct c end
    | match goal with |- keeps _ (match ?x with _ => _ end) => destruct x end ].
Qed.

(** Without a [complete] decision the flag [goalCompleted] is left as it was. *)
Lemma after_action_flag (result : Result.t) (d : json) (gc completed : bool)
    (s s' : St) :
  (forall fields, decision_fields d = Some fields -> action fields <> JStr "complete") ->
  after_action result d gc s = (Ok completed, s') -> completed = gc.
Proof.
  intros Hd. unfold Generator.after_action, bind, get, broadcast, modify, call, ret, throw.
  destruct (decision_fields d) as [fields|]; [|done].
  rewrite bool_decide_eq_false_2 by (by apply Hd).
  destruct (negb (Result.success result)); cbn [world add_sent];
    destruct (perform (waitForTimeout 1000) _) as [[[]|e] w]; by intros [= <- _].
Qed.

(** The bound [n] of the loop model is not what stops the loop: from
    [maxSteps - stepCount] on, more of it changes nothing. *)
Lemma goal_loop_bound_is_slack (goal : string) :
  forall (n k : nat) (results : list Result.t) (gc : bool) (s : St),
    (maxSteps s - stepCount s <= n)%nat ->
    goal_loop (n + k) goal results gc s = goal_loop n goal results gc s.
Proof.
  induction n as [|n IH]; intros k results gc s Hn.
  - destruct k as [|k]; [done|]. simpl.
    assert ((stepCount s <? maxSteps s)%nat = false) as -> by (apply Nat.ltb_ge; lia).
    by rewrite andb_false_r.
  - simpl. destruct (negb gc && (stepCount s <? maxSteps s)%nat); [|done].
    pose proof (step_counts goal s) as [Hc Hm].
    destruct (step goal s) as [[[result d]|e] s1]; [|done].
    cbn [snd] in *.
    pose proof (keeps_after_action result d gc s1) as (_ & _ & Hm2 & Hc2 & _).
    destruct (after_action result d gc s1) as [[completed|e] s2]; [|done].
    cbn [snd] in *. apply IH. lia.
Qed.

(** The loop, entered with [goalCompleted = false] and [n] steps of budget
    left: when control leaves it through its condition, it has run [n] more
    iterations and used the budget up. *)
Lemma goal_loop_runs_out (goal : string) :
  never_complete ->
  forall (n : nat) (results results' : list Result.t) (gc : bool) (s s' : St),
    n = (maxSteps s - stepCount s)%nat ->
    (stepCount s <= maxSteps s)%nat ->
    goal_loop n goal results false s = (Finished results' gc, s') ->
    gc = false /\ stepCount s' = maxSteps s /\ maxSteps s' = maxSteps s
    /\ length results' = (length results + n)%nat.
Proof.
  intros Hnever. induction n as [|n IH]; intros results results' gc s s' Hn Hle; simpl.
  - intros [= <- <- <-]. repeat split; lia.
  - assert ((stepCount s <? maxSteps s)%nat = true) as -> by (apply Nat.ltb_lt; lia).
    cbn [negb andb].
    pose proof (step_counts goal s) as [Hc Hm].
    pose proof (step_reply goal s) as Hr.
    destruct (step goal s) as [[[result d]|e] s1]; [|done].
    cbn [snd] in *.
    destruct (Hr s1 result d eq_refl) as (g' & snap & h & w & w' & Hp).
    pose proof (keeps_after_action result d false s1) as (_ & _ & Hm2 & Hc2 & _).
    destruct (after_action result d false s1) as [[completed|e] s2] eqn:Ea; [|done].
    cbn [snd] in *.
    rewrite (after_action_flag result d false completed s1 s2
               (fun fields => Hnever _ _ _ _ _ _ fields Hp) Ea).
    intros Hloop. apply IH in Hloop as (-> & H1 & H2 & H3); [|lia..].
    rewrite length_app in H3. simpl in H3. repeat split; lia.
Qed.

(** C4, as the code has it.  In a goal run in which the oracle never returns
    a [complete] action and no error escapes the loop, the loop executes
    exactly [maxSteps] steps, the report has [goalCompleted = false], and the
    max-steps notification is broadcast. *)
Theorem goal_loop_ceiling (goal : string) (s : St) :
  never_complete ->
  Report.error (fst (executeGoal goal s)) = None ->
  totalSteps (Report.executionSummary (fst (executeGoal goal s))) = maxSteps s
  /\ length (Report.steps (fst (executeGoal goal s))) = maxSteps s
  /\ goalCompleted (Report.executionSummary (fst (executeGoal goal s))) = false
  /\ max_steps_reached (maxSteps s) ∈ sent (snd (executeGoal goal s)).
Proof.
  intros Hnever. unfold Generator.executeGoal. cbv zeta.
  pose proof (keeps_waitForStability W perform
                (add_sent (execution_start goal) (start_goal goal s)))
    as (_ & _ & Hm & Hc & _).
  destruct (waitForStability W perform _) as [[[]|e] s1]; [|done].
  cbn [snd maxSteps stepCount add_sent start_goal] in Hm, Hc.
  destruct (goal_loop _ goal [] false s1) as [[results gc|results e] s2] eqn:El; [|done].
  destruct (goal_loop_runs_out goal Hnever _ [] results gc s1 s2 eq_refl ltac:(lia) El)
    as (-> & H1 & H2 & H3).
  intros _. cbn [fst snd].
  assert ((maxSteps s2 <=? stepCount s2)%nat = true) as -> by (apply Nat.leb_le; lia).
  cbn [finalResult Report.executionSummary Report.steps totalSteps goalCompleted
       add_sent stepCount sent].
  repeat split; [lia|simpl in H3; lia|].
  rewrite H1, Hm. apply elem_of_app. left. apply elem_of_app. right.
  by apply list_elem_of_singleton.
Qed.

(** C10.  In a goal run that no error escapes, the [success] flag of the
    report is [goalCompleted] or-ed with the success of some recorded step;
    so it is true, with [goalCompleted] false, as soon as one step
    succeeded. *)
Theorem report_success_flag (goal : string) (s : St) :
  Report.error (fst (executeGoal goal s)) = None ->
  Report.success (fst (executeGoal goal s))
  = goalCompleted (Report.executionSummary (fst (executeGoal goal s)))
    || existsb Result.success (Report.steps (fst (executeGoal goal s)))
  /\ (goalCompleted (Report.executionSummary (fst (executeGoal goal s))) = false ->
      (exists r, r ∈ Report.steps (fst (executeGoal goal s)) /\ Result.success r = true) ->
      Report.success (fst (executeGoal goal s)) = true).
Proof.
  unfold Generator.executeGoal. cbv zeta.
  destruct (waitForStability W perform _) as [[[]|e] s1]; [|done].
  destruct (Generator.goal_loop W perform now _ goal [] false s1)
    as [[results gc|results e] s2]; [|done].
  intros _. cbn [fst finalResult Report.success Report.executionSummary Report.steps
                 goalCompleted].
  split; [reflexivity|].
  intros -> (r & Hr & Hs). cbn [orb].
  apply existsb_exists. exists r. split; [by apply list_elem_of_In|done].
Qed.

End GoalLoop.

(** With the scrolling stub, all fifteen steps are taken. *)
Lemma goal_loop_ceiling_witness :
  totalSteps (Report.executionSummary
                (fst (executeGoal nat (Stub.perform Stub.scrolling) Stub.clock
                        "scroll around" Stub.ready))) = 15%nat.
Proof.
  assert (Hn : never_complete nat (Stub.perform Stub.scrolling)).
  { intros goal snap history w d w' fields. unfold Stub.perform. simpl.
    intros [= <- _] [= <-]. discriminate. }
  assert (He : Report.error
                 (fst (executeGoal nat (Stub.perform Stub.scrolling) Stub.clock
                         "scroll around" Stub.ready)) = None)
    by (vm_compute; reflexivity).
  exact (proj1 (goal_loop_ceiling nat (Stub.perform Stub.scrolling) Stub.clock
                  "scroll around" Stub.ready Hn He)).
Defined.

(** Without the condition on escaping errors the statement fails: the
    oracle of this stub only ever asks to scroll, the screenshot of the first
    step is rejected, and the run ends after one step of fifteen with no
    max-steps notification. *)
Lemma failed_screenshot_ends_the_run_early :
  let run := executeGoal nat (Stub.perform Stub.no_screenshot) Stub.clock
               "scroll around" Stub.ready in
  (forall w : nat,
     action <$> decision_fields (Stub.decides Stub.no_screenshot w)
     = Some (JPrim (JStr "scroll")))
  /\ maxSteps Stub.ready = 15%nat
  /\ totalSteps (Report.executionSummary (fst run)) = 1%nat
  /\ Report.steps (fst run) = []
  /\ Report.error (fst run) = Some "Target closed"
  /\ existsb is_max_steps_reached (sent (snd run)) = false.
Proof. split; [done|]. vm_compute. done. Qed.

(** With the scrolling stub the goal is never marked complete, every step
    succeeds, and the report says [success]. *)
Lemma report_success_flag_witness :
  let report := fst (executeGoal nat (Stub.perform Stub.scrolling) Stub.clock
                       "scroll around" Stub.ready) in
  Report.success report = true
  /\ goalCompleted (Report.executionSummary report) = false.
Proof.
  assert (He : Report.error
                 (fst (executeGoal nat (Stub.perform Stub.scrolling) Stub.clock
                         "scroll around" Stub.ready)) = None)
    by (vm_compute; reflexivity).
  pose proof (report_success_flag nat (Stub.perform Stub.scrolling) Stub.clock
                "scroll around" Stub.ready He) as [Hs _].
  split; [rewrite Hs; vm_compute; reflexivity|vm_compute; reflexivity].
Defined.

End GoalLoopFacts.

(** ** The audit fields of a decision *)

Module AuditFacts.
Import JS Generator ExecutorFacts.




Section Audit.
Variable W : Type.
Variable perform : forall c : Call, W -> Res (reply c) * W.
Variable now : W -> Z.

Local Abbreviation St := (St W).
Local Abbreviation M := (M W).
































End Audit.



End AuditFacts.

(** ** The fallback command parser and its caller *)

Module ChatFacts.
Import JS Regex Chat RegexFacts.

(** What the caller can receive from the fallback parser for an input: one
    of the nine canonical actions, or the explicit [unknown] object that
    carries the input, when not even the last pattern matches it. *)
Definition canonical_or_unknown (input : string) (o : ActionObj) : Prop :=
  (exists a, a ∈ validActions /\ action o = JStr a)
  \/ (o = unknown input /\ smatch input urlPattern = None).

(** The action verbs that the specification lists for the layers of the
    parser. *)
Definition listed_verbs : list string :=
  ["navigate"; "go to"; "visit"; "click"; "type"; "enter text"; "input"; "search";
   "scroll"; "screenshot"; "press enter"; "wait"].

(** The words that [fallbackParser] looks for with [includes], layer by
    layer. *)
Definition keywords : list string :=
  ["generate test"; "create test"; "test case"; "test code";
   "navigate"; "go to"; "open"; "visit";
   "click";
   "type"; "enter text"; "input";
   "search";
   "scroll";
   "screenshot"; "capture"; "take picture";
   "enter"; "press enter";
   "wait"].

(** [lowerMessage.includes(w)] for one of the words. *)
Definition mentions (words : list string) (message : string) : bool :=
  existsb (includes (trim (toLowerCase message))) words.

Ltac member := unfold validActions; rewrite !elem_of_cons; tauto.

Lemma canonical (input a : string) (o : ActionObj) :
  a ∈ validActions -> action o = JStr a -> canonical_or_unknown input o.
Proof. intros Ha Ho. left. by exists a. Qed.

Lemma first_match_returns {A} (message : string) (patterns : list regex)
    (f : MatchResult -> Res A) (P : A -> Prop) :
  (forall pattern m, pattern ∈ patterns -> smatch message pattern = Some m ->
                     exists a, f m = Ok a /\ P a) ->
  forall r, first_match message patterns f = Some r -> exists a, r = Ok a /\ P a.
Proof.
  induction patterns as [|pattern rest IH]; intros Hf r; simpl; [done|].
  destruct (smatch message pattern) as [m|] eqn:E.
  - intros [= <-]. apply (Hf pattern m); [by left|done].
  - apply IH. intros p m Hp. apply Hf. by right.
Qed.

Lemma textPatterns_define_group : Forall (fun r => defines 1 r = true) textPatterns.
Proof. repeat constructor. Qed.

Lemma searchPatterns_define_group : Forall (fun r => defines 1 r = true) searchPatterns.
Proof. repeat constructor. Qed.

Lemma group1_trim_returns (patterns : list regex) (message : string)
    (pattern : regex) (m : MatchResult) :
  Forall (fun r => defines 1 r = true) patterns ->
  pattern ∈ patterns -> smatch message pattern = Some m ->
  exists text, group1_trim m = Ok text.
Proof.
  intros Hall Hp Hm. rewrite Forall_forall in Hall.
  destruct (smatch_group 1 pattern message m (Hall _ Hp) Hm) as [g Hg].
  unfold group1_trim. rewrite Hg. by eexists.
Qed.

(** The fallback parser never throws, and what it returns is canonical or
    the explicit [unknown]. *)
Lemma fallbackParser_returns (message : string) :
  exists o, fallbackParser message = Ok o /\ canonical_or_unknown message o.
Proof.
  unfold fallbackParser. cbv zeta.
  set (has := includes (trim (toLowerCase message))).
  destruct (has "generate test" || has "create test" || has "test case" || has "test code").
  { eexists. split; [reflexivity|]. apply (canonical _ "generate_test"); [member|done]. }
  destruct (if has "navigate" || has "go to" || has "open" || has "visit"
            then first_match message [url_with_path; url_after_verb; url_known_tld]
                   navigate_of_match
            else None) as [r|] eqn:Enav.
  { destruct (has "navigate" || has "go to" || has "open" || has "visit"); [|done].
    apply (first_match_returns _ _ _ (canonical_or_unknown message)) in Enav
      as (o & -> & Ho); [by exists o|].
    intros pattern m _ _. eexists. split; [reflexivity|].
    apply (canonical _ "navigate"); [member|done]. }
  destruct (has "click").
  { eexists. split; [reflexivity|]. apply (canonical _ "click"); [member|done]. }
  destruct (if has "type" || has "enter text" || has "input"
            then first_match message textPatterns _ else None) as [r|] eqn:Etype.
  { destruct (has "type" || has "enter text" || has "input"); [|done].
    apply (first_match_returns _ _ _ (canonical_or_unknown message)) in Etype
      as (o & -> & Ho); [by exists o|].
    intros pattern m Hp Hm.
    destruct (group1_trim_returns _ _ _ _ textPatterns_define_group Hp Hm) as [text ->].
    eexists. split; [reflexivity|]. apply (canonical _ "type"); [member|done]. }
  destruct (if has "search" then first_match message searchPatterns _ else None)
    as [r|] eqn:Esearch.
  { destruct (has "search"); [|done].
    apply (first_match_returns _ _ _ (canonical_or_unknown message)) in Esearch
      as (o & -> & Ho); [by exists o|].
    intros pattern m Hp Hm.
    destruct (group1_trim_returns _ _ _ _ searchPatterns_define_group Hp Hm) as [query ->].
    eexists. split; [reflexivity|]. apply (canonical _ "search"); [member|done]. }
  destruct (has "scroll").
  { eexists. split; [reflexivity|]. apply (canonical _ "scroll"); [member|done]. }
  destruct (has "screenshot" || has "capture" || has "take picture").
  { eexists. split; [reflexivity|]. apply (canonical _ "screenshot"); [member|done]. }
  destruct (has "enter" || has "press enter").
  { eexists. split; [reflexivity|]. apply (canonical _ "press_key"); [member|done]. }
  destruct (has "wait").
  { eexists. split; [reflexivity|]. apply (canonical _ "wait"); [member|done]. }
  destruct (smatch message urlPattern) as [urlMatch|] eqn:Eurl.
  - destruct (smatch_group 1 urlPattern message urlMatch eq_refl Eurl) as [url Hurl].
    rewrite Hurl. eexists. split; [reflexivity|].
    apply (canonical _ "navigate"); [member|done].
  - eexists. split; [reflexivity|]. by right.
Qed.

(** With none of the words in the message, every layer is skipped and the
    last pattern decides. *)
Lemma fallbackParser_without_keywords (message : string) :
  mentions keywords message = false ->
  fallbackParser message
  = match smatch message urlPattern with
    | Some urlMatch =>
        match group urlMatch 1 with
        | Some url => Ok (set_url (JStr (with_scheme url)) (obj "navigate"))
        | None => Throw "Cannot read properties of undefined (reading 'startsWith')"
        end
    | None => Ok (unknown message)
    end.
Proof.
  unfold mentions, keywords, fallbackParser. cbv zeta.
  set (has := includes (trim (toLowerCase message))).
  cbn [existsb]. rewrite !orb_false_iff.
  intros H. repeat destruct H as [-> H]. reflexivity.
Qed.

(** C9, as stated, fails.  [john.doe] holds none of the verbs that the
    specification lists and none of the words that the parser looks for,
    and the parser makes a navigation of it; [please center the page]
    holds none of the listed verbs, and the parser makes a press of Enter of
    it, for the [enter] in [center]. *)
Lemma verbless_commands_are_parsed_as_actions :
  mentions listed_verbs "john.doe" = false
  /\ mentions keywords "john.doe" = false
  /\ fallbackParser "john.doe" = Ok (set_url (JStr "https://john.doe") (obj "navigate"))
  /\ mentions listed_verbs "please center the page" = false
  /\ fallbackParser "please center the page"
     = Ok (set_key (JStr "Enter") (obj "press_key")).
Proof. repeat split; vm_compute; reflexivity. Qed.

Lemma canonical_is_not_unknown (a : string) : a ∈ validActions -> a <> "unknown".
Proof.
  unfold validActions. rewrite !elem_of_cons, elem_of_nil.
  intros H; repeat destruct H as [->|H]; done.
Qed.

Section Caller.
Variable B : Type.
Variable systemPrompt : B -> Res string.
Variable completion : string -> string -> Res ActionObj.
Variable executeAction : Session B -> ActionObj -> string -> Res unit * Session B.

(** What [validateAction] returns is one of the nine canonical actions. *)
Lemma validateAction_canonical (o o' : ActionObj) :
  validateAction o = Ok o' -> exists a, a ∈ validActions /\ action o' = JStr a.
Proof.
  unfold validateAction.
  destruct (negb (truthy (action o))); [done|].
  destruct (existsb (is_action o) validActions) eqn:Ev; [|done]. cbn [negb].
  apply existsb_exists in Ev as (a & Ha & Hact).
  apply list_elem_of_In in Ha. apply bool_decide_eq_true in Hact.
  cbv zeta. intros H. exists a. split; [done|]. rewrite <- Hact.
  repeat match type of H with
         | (if ?c then _ else _) = _ => destruct c
         | match ?x with _ => _ end = _ => destruct x
         end;
    first [ discriminate H
          | injection H as <-;
            repeat match goal with
                   | |- context [if ?c then _ else _] => destruct c
                   end; reflexivity ].
Qed.

(** An [unknown] action reaches the caller from the fallback parser only,
    and carries the message. *)
Lemma processCommand_unknown (message : string) (session : Session B) (o : ActionObj) :
  processCommand B systemPrompt completion message session = Ok o ->
  action o = JStr "unknown" -> o = unknown message.
Proof.
  unfold processCommand.
  destruct (systemPrompt (rest session)) as [prompt|]; [|done]. cbn [res_bind].
  assert (Hfallback : fallbackParser message = Ok o ->
                      action o = JStr "unknown" -> o = unknown message).
  { intros Hf Hu.
    destruct (fallbackParser_returns message) as (o1 & Ho1 & [(a & Ha & Hact) | [-> _]]).
    - rewrite Hf in Ho1. injection Ho1 as <-. rewrite Hu in Hact. injection Hact as <-.
      by apply canonical_is_not_unknown in Ha.
    - rewrite Hf in Ho1. by injection Ho1. }
  destruct (completion prompt message) as [o0|]; cbn [res_bind]; [|exact Hfallback].
  destruct (validateAction o0) as [o'|e] eqn:E; [|exact Hfallback].
  intros [= ->] Hu.
  apply validateAction_canonical in E as (a & Ha & Hact).
  rewrite Hu in Hact. injection Hact as <-. by apply canonical_is_not_unknown in Ha.
Qed.

(** C9, as amended.  The fallback parser returns for every input string,
    and its result is one of the nine canonical actions or the explicit
    [unknown] object.  A message that holds none of the words the parser
    looks for and that the last pattern (a domain name) does not match maps
    to the [unknown] object with the input in [message] and
    [originalInput]; and the parser answers [unknown] only with that object
    and only when the last pattern does not match.  When the command of a
    chat message comes back [unknown], [handleChatMessage] sends the client
    an error that quotes the message and does not call [executeAction]: the
    session is left as the two sends made it. *)
Theorem fallback_total_and_unknown_surfaced :
  (forall message : string,
     exists o, fallbackParser message = Ok o
               /\ canonical_or_unknown message o
               /\ (mentions keywords message = false ->
                   smatch message urlPattern = None -> o = unknown message)
               /\ (action o = JStr "unknown" ->
                   o = unknown message /\ smatch message urlPattern = None))
  /\ (forall (sessionId message : string) (type : jsval) (session : Session B)
             (sock : Socket) (activeSessions : gmap string (Session B)) (o : ActionObj),
        activeSessions !! sessionId = Some session ->
        ws session = Some sock ->
        message <> EmptyString ->
        processCommand B systemPrompt completion message
          (safeWebSocketSend (ws_ai_processing "AI analyzing your request...") session) = Ok o ->
        action o = JStr "unknown" ->
        handleChatMessage B systemPrompt completion executeAction sessionId
          {| chat_message := JStr message; chat_type := type |} activeSessions
        = <[sessionId :=
              safeWebSocketSend (ws_error (not_understood message))
                (safeWebSocketSend (ws_ai_processing "AI analyzing your request...") session)]>
            activeSessions).
Proof.
  split.
  - intros message. destruct (fallbackParser_returns message) as (o & Ho & Hc).
    exists o. split; [done|]. split; [done|]. split.
    + intros Hk Hurl. rewrite (fallbackParser_without_keywords message Hk), Hurl in Ho.
      by injection Ho.
    + intros Hu. destruct Hc as [(a & Ha & Hact) | Hc]; [|done].
      rewrite Hu in Hact. injection Hact as <-. by apply canonical_is_not_unknown in Ha.
  - intros sessionId message type session sock activeSessions o Hs Hws Hne Hp Hu.
    unfold handleChatMessage. rewrite Hs, Hws. cbn [chat_message].
    rewrite bool_decide_eq_false_2 by done.
    unfold handle_command. rewrite Hp.
    by rewrite bool_decide_eq_true_2.
Qed.

End Caller.
End ChatFacts.

(* ===================================================================== *)
(** * Further properties of the snapshot script *)
(* ===================================================================== *)

(** ** Class names and the three selector slots *)

Module SelectorFacts.
Import JS Regex Snapshotter SortFacts RankerFacts.

(** An element with an [id] that starts with a digit, a test id and a class
    attribute with a utility class. *)
Definition tested_button : Dom.ElementRef :=
  {| Dom.self := Stub.element "BUTTON" "1go"
                   [("data-testid", "go"); ("class", "btn hover:bg-blue-500 2xl")] "Go" 50;
     Dom.path := [0%nat; 0%nat];
     Dom.parentElement := None |}.

Lemma class_filter_safe (c : string) :
  class_filter c = true -> safe_identifier c = true /\ includes c ":" = false.
Proof.
  unfold class_filter. rewrite safe_pattern_spec.
  intros H. apply andb_prop in H as [H Hsafe]. apply andb_prop in H as [_ Hcolon].
  split; [exact Hsafe|]. by apply negb_true_iff.
Qed.

(** X1.  Every class name that [getClassNames] returns is a safe identifier and
    has no colon in it: a token such as [hover:bg-blue-500] or [2xl] of the
    class attribute never reaches a selector or the [className] field. *)
Theorem class_names_are_safe (element : Dom.Element) (c : string) :
  c ∈ getClassNames element ->
  safe_identifier c = true /\ includes c ":" = false.
Proof.
  unfold getClassNames. intros Hc. apply class_filter_safe.
  destruct (Dom.className element) as [s|baseVal|].
  - destruct (bool_decide (s = EmptyString)); [by apply elem_of_nil in Hc|].
    by apply list_elem_of_filter in Hc as [Hc _].
  - by apply list_elem_of_filter in Hc as [Hc _].
  - by apply elem_of_nil in Hc.
Qed.

Lemma class_names_are_safe_witness :
  getClassNames (Dom.self tested_button) = ["btn"]
  /\ safe_identifier "btn" = true /\ includes "btn" ":" = false.
Proof.
  split; [vm_compute; reflexivity|].
  apply (class_names_are_safe (Dom.self tested_button) "btn").
  vm_compute. apply list_elem_of_here.
Defined.

(** No candidate of the ranker is the empty string, so [|| null] never
    empties a slot that a candidate fills. *)
Lemma append_nonempty_r (a b : string) : b <> EmptyString -> a +:+ b <> EmptyString.
Proof. destruct a; simpl; [done|]. intros _. discriminate. Qed.

Lemma pushed_if_selectors (b : bool) (x : Candidate) (P : Candidate -> Prop) :
  P x -> Forall P (pushed_if b x).
Proof. intros Hx. destruct b; by repeat constructor. Qed.

Lemma pushed_for_selectors (v : option string) (f : string -> Candidate)
    (P : Candidate -> Prop) :
  (forall s, P (f s)) -> Forall P (pushed_for v f).
Proof. intros Hf. destruct v; by repeat constructor. Qed.

Lemma candidates_nonempty (el : Dom.ElementRef) :
  Forall (fun c => fst c <> EmptyString) (candidates el).
Proof.
  unfold candidates. cbv zeta.
  repeat (apply Forall_app; split);
    try (apply pushed_for_selectors; intros; simpl; discriminate);
    try (apply pushed_if_selectors; simpl;
         first [discriminate | apply append_nonempty_r; simpl; discriminate]).
  - destruct (attr _ "role"); [apply pushed_if_selectors; simpl; discriminate|constructor].
  - unfold parent_candidate.
    destruct (Dom.parentElement el) as [[[parent children] place]|]; [|constructor].
    destruct (1 <? _); repeat constructor. simpl.
    apply append_nonempty_r. simpl. discriminate.
  - destruct (attr _ "type"); [apply pushed_if_selectors; simpl; discriminate|constructor].
Qed.

Lemma by_score_total (a b : Candidate) : before by_score a b \/ before by_score b a.
Proof. unfold before, by_score. lia. Qed.

Lemma by_score_trans (a b c : Candidate) :
  before by_score a b -> before by_score b c -> before by_score a c.
Proof. unfold before, by_score. lia. Qed.

Lemma slot_lookup (l : list Candidate) (i : nat) :
  Forall (fun c => fst c <> EmptyString) l -> (i < 3)%nat ->
  map fst (take 3 l) !! i ≫= nonempty = fst <$> l !! i.
Proof.
  intros Hne Hi. change (map fst ?l) with (fst <$> l).
  rewrite list_lookup_fmap, lookup_take_lt by lia.
  unfold Candidate in *.
  destruct (l !! i) as [c|] eqn:Ec; [|reflexivity].
  simpl. unfold nonempty. rewrite bool_decide_eq_false_2; [done|].
  rewrite Forall_forall in Hne. apply Hne. by eapply list_elem_of_lookup_2.
Qed.

(** X2.  The three selector slots of an element are the three best candidates,
    best first: there is an arrangement of the candidates by non-increasing
    score whose first three selectors are [primary], [fallback] and
    [tertiary]; a slot is [null] exactly when the candidates run out. *)
Theorem selector_slots_are_the_best_candidates (el : Dom.ElementRef) :
  exists ranked : list Candidate,
    ranked ≡ₚ candidates el
    /\ StronglySorted (fun a b => snd b <= snd a) ranked
    /\ primary (getOptimalSelector el) = fst <$> ranked !! 0%nat
    /\ fallback (getOptimalSelector el) = fst <$> ranked !! 1%nat
    /\ tertiary (getOptimalSelector el) = fst <$> ranked !! 2%nat.
Proof.
  exists (sort by_score (candidates el)).
  pose proof (sort_Permutation by_score (candidates el)) as Hperm.
  pose proof (sort_sorted by_score by_score_total by_score_trans (candidates el)) as Hsorted.
  assert (Hne : Forall (fun c => fst c <> EmptyString) (sort by_score (candidates el))).
  { rewrite Hperm. apply candidates_nonempty. }
  split; [exact Hperm|]. split.
  { clear -Hsorted. induction Hsorted as [|c l _ IH Hc]; constructor; [exact IH|].
    eapply Forall_impl; [exact Hc|]. unfold before, by_score. intros d. lia. }
  unfold getOptimalSelector. cbv zeta. cbn [primary fallback tertiary].
  rewrite !(slot_lookup _ _ Hne) by lia. done.
Qed.

(** X3.  Without an [id] that is a safe identifier, a [data-testid] attribute
    gives the primary selector. *)
Theorem test_id_is_primary_without_safe_id (el : Dom.ElementRef) (v : string) :
  safe_identifier (Dom.id (Dom.self el)) = false ->
  attr (Dom.self el) "data-testid" = Some v ->
  primary (getOptimalSelector el) = Some ("[data-testid=" +:+ dq +:+ v +:+ dq +:+ "]").
Proof.
  intros Hid Htest. unfold getOptimalSelector. cbv zeta.
  assert (exists rest,
            candidates el = ("[data-testid=" +:+ dq +:+ v +:+ dq +:+ "]", 95) :: rest
            /\ Forall (fun d => by_score ("[data-testid=" +:+ dq +:+ v +:+ dq +:+ "]", 95) d <= 0)
                 rest) as (rest & Hc & Hrest).
  { unfold candidates. cbv zeta.
    rewrite safe_pattern_spec, Hid, andb_false_r, Htest.
    cbn [pushed_if pushed_for app].
    eexists. split; [reflexivity|].
    eapply Forall_impl with (P := fun d => snd d <= 95);
      [|unfold by_score; simpl; intros; lia].
    repeat (apply Forall_app; split);
      try (apply pushed_for_score; intros; simpl; lia);
      try (apply pushed_if_score; simpl; lia).
    - destruct (attr _ "role"); [apply pushed_if_score; simpl; lia|constructor].
    - unfold parent_candidate.
      destruct (Dom.parentElement el) as [[[parent children] place]|]; [|constructor].
      destruct (1 <? _); repeat constructor. simpl. lia.
    - destruct (attr _ "type"); [apply pushed_if_score; simpl; lia|constructor]. }
  destruct (sort_head_min by_score _ rest Hrest) as (l' & Hs).
  rewrite Hc. unfold Candidate in *. rewrite Hs.
  reflexivity.
Qed.

Lemma test_id_is_primary_without_safe_id_witness :
  primary (getOptimalSelector tested_button)
  = Some ("[data-testid=" +:+ dq +:+ "go" +:+ dq +:+ "]").
Proof.
  apply (test_id_is_primary_without_safe_id tested_button "go");
    vm_compute; reflexivity.
Defined.

End SelectorFacts.

(** ** Where the elements of a snapshot come from *)

Module PipelineFacts.
Import JS Snapshotter SortFacts SnapshotFacts.

(** The children of a node, numbered from [j]: the inner loop of
    [Dom.descendants]. *)
Definition each_child (p : list nat) (e : Dom.Element) (els : list Dom.Element) :
    nat -> list Dom.Node -> list Dom.ElementRef :=
  fix each (j : nat) (l : list Dom.Node) {struct l} : list Dom.ElementRef :=
    match l with
    | [] => []
    | c :: l' => Dom.descendants (p ++ [j]) (Some (e, els, j)) c ++ each (S j) l'
    end.

(** A document of two buttons, the second one far below the viewport, and a
    paragraph. *)
Definition mixed_page : Dom.Document :=
  Stub.document
    [Dom.MkNode (Stub.element "BUTTON" "a" [] "first" 10) [];
     Dom.MkNode (Stub.element "BUTTON" "b" [] "second" 2000) [];
     Dom.MkNode (Stub.element "P" "" [] "some text" 30) []].

Lemma descendants_unfold (p : list nat) (up : option (Dom.Element * list Dom.Element * nat))
    (e : Dom.Element) (cs : list Dom.Node) :
  Dom.descendants p up (Dom.MkNode e cs)
  = {| Dom.self := e; Dom.path := p; Dom.parentElement := up |}
      :: each_child p e (map Dom.node_element cs) 0 cs.
Proof. reflexivity. Qed.

Lemma Node_induction (P : Dom.Node -> Prop) :
  (forall e cs, Forall P cs -> P (Dom.MkNode e cs)) -> forall n, P n.
Proof.
  intros H. fix IH 1. intros [e cs]. apply H.
  induction cs as [|c cs IHcs]; constructor; [apply IH|exact IHcs].
Qed.

(** The paths of the elements below a node extend the path of the node, and
    no two elements have the same path. *)
Lemma descendants_paths (n : Dom.Node) :
  forall p up,
    NoDup (Dom.path <$> Dom.descendants p up n)
    /\ forall q, q ∈ Dom.path <$> Dom.descendants p up n -> p `prefix_of` q.
Proof.
  induction n as [e cs IH] using Node_induction. intros p up.
  rewrite descendants_unfold.
  assert (Hch : forall els j,
            NoDup (Dom.path <$> each_child p e els j cs)
            /\ forall q, q ∈ Dom.path <$> each_child p e els j cs ->
                 exists j', (j <= j')%nat /\ (p ++ [j']) `prefix_of` q).
  { intros els. induction IH as [|c cs Hc _ IHcs]; intros j; cbn [each_child].
    - split; [constructor|]. intros q Hq. by apply elem_of_nil in Hq.
    - destruct (Hc (p ++ [j]) (Some (e, els, j))) as [Hnd Hpre].
      destruct (IHcs (S j)) as [Hnd' Hpre'].
      rewrite fmap_app. split.
      + apply NoDup_app. split; [exact Hnd|]. split; [|exact Hnd'].
        intros q Hq Hq'. apply Hpre in Hq. apply Hpre' in Hq' as (j' & Hj' & Hq').
        destruct Hq as [k1 ->]. destruct Hq' as [k2 Hq'].
        rewrite <- !app_assoc in Hq'. apply app_inv_head in Hq'.
        simpl in Hq'. injection Hq' as Hj _. lia.
      + intros q Hq. apply elem_of_app in Hq as [Hq|Hq].
        * exists j. split; [lia|]. by apply Hpre.
        * apply Hpre' in Hq as (j' & Hj' & Hq). exists j'. split; [lia|done]. }
  destruct (Hch (map Dom.node_element cs) 0%nat) as [Hnd Hpre].
  rewrite fmap_cons. simpl. split.
  - constructor; [|exact Hnd].
    intros Hq. apply Hpre in Hq as (j' & _ & [k Hq]).
    apply (f_equal length) in Hq. rewrite !length_app in Hq. simpl in Hq. lia.
  - intros q Hq. apply elem_of_cons in Hq as [->|Hq]; [done|].
    apply Hpre in Hq as (j' & _ & Hq).
    etrans; [|exact Hq]. by apply prefix_app_r.
Qed.

Lemma all_elements_NoDup (doc : Dom.Document) :
  NoDup (Dom.path <$> Dom.all_elements doc).
Proof. apply descendants_paths. Qed.

Lemma substring_length (n m : nat) (s : string) :
  (String.length (String.substring n m s) <= m)%nat.
Proof.
  revert n m. induction s as [|c s IH]; intros n m.
  - destruct n, m; simpl; lia.
  - destruct n as [|n].
    + destruct m as [|m]; simpl; [lia|]. specialize (IH 0%nat m). lia.
    + simpl. apply IH.
Qed.

(** What [processElement] returns is the descriptor of a visible element,
    with at most 100 characters of text. *)
Lemma processElement_Some (doc : Dom.Document) (r : Dom.ElementRef) (d : El.ElementData) :
  processElement doc r = Some d ->
  isVisible doc (Dom.self r) = true
  /\ (String.length (El.text d) <= 100)%nat
  /\ El.index d = None.
Proof.
  unfold processElement. cbv zeta.
  destruct (isVisible doc (Dom.self r)); simpl; [|done].
  intros [= <-]. simpl. split; [done|]. split; [|done].
  apply substring_length.
Qed.

(** The elements a pass adds: their sources are taken in order from the list
    the pass runs over, and none of them was in [processedElements]. *)
Definition described (doc : Dom.Document) (r : Dom.ElementRef) (d : El.ElementData) : Prop :=
  processElement doc r = Some d.

Ltac same_set :=
  apply set_eq; intros ?; simpl;
  rewrite ?elem_of_union, ?elem_of_singleton, ?elem_of_empty; naive_solver.

Lemma interactive_pass_from (doc : Dom.Document) (l : list Dom.ElementRef) :
  forall st : Scan,
    let final := foldl (scan_interactive doc) st l in
    processedElements final = processedElements st ∪ list_to_set (Dom.path <$> l)
    /\ exists refs extra,
         collected final = collected st ++ extra
         /\ refs `sublist_of` l
         /\ Forall2 (described doc) refs extra.
Proof.
  induction l as [|r l IH]; intros st; simpl.
  - split; [same_set|]. exists [], []. rewrite app_nil_r. repeat split; constructor.
  - destruct (IH (scan_interactive doc st r)) as (Hp & refs & extra & Hc & Hsub & Hd).
    unfold scan_interactive in *.
    destruct (bool_decide (Dom.path r ∈ processedElements st)) eqn:Ep.
    + apply bool_decide_eq_true in Ep. split; [rewrite Hp; same_set|].
      exists refs, extra. split; [done|]. split; [by apply sublist_cons|done].
    + destruct (processElement doc r) as [d|] eqn:Ed; simpl in *.
      * split; [rewrite Hp; same_set|].
        exists (r :: refs), (d :: extra).
        split; [by rewrite Hc, <- app_assoc|].
        split; [by apply sublist_skip|]. by constructor.
      * split; [rewrite Hp; same_set|].
        exists refs, extra. split; [done|]. split; [by apply sublist_cons|done].
Qed.

Lemma generic_pass_sources (doc : Dom.Document) (l : list Dom.ElementRef) :
  forall st : Scan,
    let final := foldl (scan_generic doc) st l in
    exists refs extra,
      collected final = collected st ++ extra
      /\ refs `sublist_of` l
      /\ Forall (fun r => Dom.path r ∉ processedElements st) refs
      /\ Forall2 (described doc) refs extra.
Proof.
  induction l as [|r l IH]; intros st; simpl.
  - exists [], []. rewrite app_nil_r. repeat split; constructor.
  - destruct (IH (scan_generic doc st r)) as (refs & extra & Hc & Hsub & Hnp & Hd).
    destruct (ScanFacts.scan_generic_step doc st r)
      as [Hp [(d & Hr & _ & Hd0 & _ & E)|[_ E]]].
    + exists (r :: refs), (d :: extra).
      split; [by rewrite Hc, E, <- app_assoc|].
      split; [by apply sublist_skip|].
      split; [|by constructor].
      constructor; [done|]. by rewrite Hp in Hnp.
    + rewrite E in *. exists refs, extra.
      split; [done|]. split; [by apply sublist_cons|done].
Qed.

Lemma sublist_elem_of {A} (l1 l2 : list A) (x : A) :
  l1 `sublist_of` l2 -> x ∈ l1 -> x ∈ l2.
Proof.
  intros Hsub. induction Hsub as [|y l1 l2 _ IH|y l1 l2 _ IH]; intros Hx; [done| |].
  - apply elem_of_cons in Hx as [->|Hx]; [apply list_elem_of_here|].
    by apply list_elem_of_further, IH.
  - by apply list_elem_of_further, IH.
Qed.

(** The sources of what the two passes collect: elements that the
    interactive-element query selects, then elements that the first loop did
    not process, each list in document order. *)
Lemma scan_passes (doc : Dom.Document) :
  exists refs1 refs2 : list Dom.ElementRef,
    refs1 `sublist_of` Dom.querySelectorAll Dom.matches_interactive_query doc
    /\ refs2 `sublist_of` Dom.all_elements doc
    /\ Forall (fun r => Dom.path r ∉ processedElements (interactive_pass doc)) refs2
    /\ processedElements (interactive_pass doc)
       = list_to_set (Dom.path <$> Dom.querySelectorAll Dom.matches_interactive_query doc)
    /\ Forall2 (described doc) (refs1 ++ refs2) (collected (scan doc)).
Proof.
  unfold scan, interactive_pass. cbv zeta.
  set (interactive := Dom.querySelectorAll Dom.matches_interactive_query doc).
  set (st0 := {| processedElements := ∅; collected := [] |}).
  destruct (interactive_pass_from doc interactive st0)
    as (Hp & refs1 & extra1 & Hc1 & Hsub1 & Hd1).
  destruct (generic_pass_sources doc (Dom.all_elements doc)
              (foldl (scan_interactive doc) st0 interactive))
    as (refs2 & extra2 & Hc2 & Hsub2 & Hnp2 & Hd2).
  cbv zeta in *. exists refs1, refs2.
  split; [done|]. split; [done|]. split; [done|].
  split; [rewrite Hp; same_set|].
  rewrite Hc2, Hc1. simpl. by apply Forall2_app.
Qed.

Lemma scan_sources_in_document (doc : Dom.Document) (refs1 refs2 : list Dom.ElementRef)
    (r : Dom.ElementRef) :
  refs1 `sublist_of` Dom.querySelectorAll Dom.matches_interactive_query doc ->
  refs2 `sublist_of` Dom.all_elements doc ->
  r ∈ refs1 ++ refs2 -> r ∈ Dom.all_elements doc.
Proof.
  intros Hsub1 Hsub2 Hr. apply elem_of_app in Hr as [Hr|Hr].
  - eapply sublist_elem_of; [|exact Hr]. etrans; [exact Hsub1|]. apply sublist_filter.
  - eapply sublist_elem_of; [|exact Hr]. done.
Qed.

(** X4.  The elements collected by the two passes are the descriptors of distinct
    elements of the document: no element is described twice, whether the
    interactive-element query selects it or not. *)
Theorem no_element_is_collected_twice (doc : Dom.Document) :
  exists refs : list Dom.ElementRef,
    NoDup (Dom.path <$> refs)
    /\ (forall r, r ∈ refs -> r ∈ Dom.all_elements doc)
    /\ Forall2 (fun r d => processElement doc r = Some d) refs (collected (scan doc)).
Proof.
  destruct (scan_passes doc) as (refs1 & refs2 & Hsub1 & Hsub2 & Hnp2 & Hp & Hd).
  exists (refs1 ++ refs2). split; [|split; [|exact Hd]].
  - (* the first loop takes each element of the query at most once; the second
       loop takes each element at most once, and none that the first one saw *)
    rewrite fmap_app. apply NoDup_app. split; [|split].
    + eapply sublist_NoDup; [apply (all_elements_NoDup doc)|].
      apply fmap_sublist. etrans; [exact Hsub1|]. apply sublist_filter.
    + intros q Hq1 Hq2.
      apply list_elem_of_fmap in Hq2 as (r2 & -> & Hr2).
      rewrite Forall_forall in Hnp2. apply (Hnp2 r2 Hr2).
      rewrite Hp. apply elem_of_list_to_set.
      eapply sublist_elem_of; [|exact Hq1]. by apply fmap_sublist.
    + eapply sublist_NoDup; [apply (all_elements_NoDup doc)|].
      by apply fmap_sublist.
  - intros r. by apply scan_sources_in_document.
Qed.

(** X5.  Every element of a snapshot is the descriptor, with its index filled in,
    of an element of the document that passed the visibility check; its text
    has at most 100 characters. *)
Theorem snapshot_elements_are_visible_elements (doc : Dom.Document) (i : nat)
    (d : El.ElementData) :
  elements (snapshot_script doc) !! i = Some d ->
  exists (r : Dom.ElementRef) (d0 : El.ElementData),
    r ∈ Dom.all_elements doc
    /\ isVisible doc (Dom.self r) = true
    /\ processElement doc r = Some d0
    /\ d = El.set_index i d0
    /\ (String.length (El.text d) <= 100)%nat.
Proof.
  simpl. intros Hd.
  apply assign_index_lookup in Hd as (d0 & Hd0 & ->).
  apply lookup_take_Some in Hd0 as [Hd0 _].
  apply list_elem_of_lookup_2 in Hd0.
  rewrite sort_Permutation in Hd0.
  apply list_elem_of_lookup_1 in Hd0 as [k Hk].
  destruct (scan_passes doc) as (refs1 & refs2 & Hsub1 & Hsub2 & _ & _ & Hall).
  pose proof (scan_sources_in_document doc refs1 refs2) as Hin.
  destruct (Forall2_lookup_r _ _ _ _ _ Hall Hk) as (r & Hr & Hrd).
  exists r, d0.
  apply list_elem_of_lookup_2 in Hr.
  destruct (processElement_Some _ _ _ Hrd) as (Hvis & Hlen & _).
  repeat split; [by apply Hin|done|done|done].
Qed.

(** On the page of two buttons and a paragraph the snapshot has two
    elements (the button in the viewport and the paragraph); the first one
    comes from a visible element of the page. *)
Lemma snapshot_elements_are_visible_elements_witness :
  length (elements (snapshot_script mixed_page)) = 2%nat
  /\ exists (d : El.ElementData) (r : Dom.ElementRef),
       elements (snapshot_script mixed_page) !! 0%nat = Some d
       /\ r ∈ Dom.all_elements mixed_page
       /\ isVisible mixed_page (Dom.self r) = true
       /\ (String.length (El.text d) <= 100)%nat.
Proof.
  split; [vm_compute; reflexivity|].
  destruct (elements (snapshot_script mixed_page) !! 0%nat) as [d|] eqn:E;
    [|vm_compute in E; discriminate].
  destruct (snapshot_elements_are_visible_elements mixed_page 0 d E)
    as (r & d0 & Hr & Hvis & _ & _ & Hlen).
  exists d, r. repeat split; assumption.
Defined.

(** X6.  The cap of 75 cuts from the end of the sorted list: what is kept and what
    is dropped make up the collected elements, as many as possible are kept,
    and the order never prefers a dropped element to a kept one. *)
Theorem cap_keeps_the_best_elements (doc : Dom.Document) :
  exists kept dropped : list El.ElementData,
    kept ++ dropped ≡ₚ collected (scan doc)
    /\ elements (snapshot_script doc) = assign_index kept
    /\ length kept = (75 `min` length (collected (scan doc)))%nat
    /\ forall a b, a ∈ kept -> b ∈ dropped -> compare_elements a b <= 0.
Proof.
  set (sorted := sort compare_elements (collected (scan doc))).
  exists (take 75 sorted), (drop 75 sorted).
  split; [by rewrite take_drop; apply sort_Permutation|].
  split; [reflexivity|].
  split; [by rewrite length_take; unfold sorted; rewrite sort_length|].
  intros a b Ha Hb.
  apply list_elem_of_lookup_1 in Ha as [i Hi]. apply list_elem_of_lookup_1 in Hb as [j Hj].
  apply lookup_take_Some in Hi as [Hi Hi75]. rewrite lookup_drop in Hj.
  change (before compare_elements a b).
  eapply (StronglySorted_lookup _ sorted i (75 + j)); [|lia|exact Hi|exact Hj].
  apply sort_sorted; [apply compare_elements_total|apply compare_elements_trans].
Qed.

End PipelineFacts.

(* ===================================================================== *)
(** * Further properties of the executor and the goal loop *)
(* ===================================================================== *)

(** ** Relations that the methods preserve *)

Module InvariantFacts.
Import JS Generator.

Section Invariant.
Variable W : Type.
Variable perform : forall c : Call, W -> Res (reply c) * W.
Variable now : W -> Z.

Local Abbreviation St := (St W).
Local Abbreviation M := (M W).

(** A relation between the state before and after, kept by notifications
    and by the calls that are [allowed]; every call but a navigation and a
    question to the oracle is. *)
Variable R : St -> St -> Prop.
Variable allowed : Call -> Prop.

Hypothesis R_refl : forall s, R s s.
Hypothesis R_trans : forall s1 s2 s3, R s1 s2 -> R s2 s3 -> R s1 s3.
Hypothesis R_sent : forall n s, R s (add_sent n s).
Hypothesis R_call : forall c w s, allowed c -> R s (set_world w c s).
Hypothesis allowed_page :
  forall c, (forall u, c <> goto u) -> (forall g sn h, c <> chat_completion g sn h) ->
            allowed c.
Hypothesis allowed_goto : forall u, startsWith u "http" = true -> allowed (goto u).

Definition respects {A} (m : M A) : Prop := forall s, R s (snd (m s)).

Lemma respects_ret {A} (a : A) : respects (ret a).
Proof. intros s. apply R_refl. Qed.

Lemma respects_throw {A} (e : string) : respects (throw (A := A) e).
Proof. intros s. apply R_refl. Qed.

Lemma respects_get : respects get.
Proof. intros s. apply R_refl. Qed.

Lemma respects_lift {A} (r : Res A) : respects (lift r).
Proof. intros s. apply R_refl. Qed.

Lemma respects_bind_post {A B} (m : M A) (f : A -> M B) (Q : A -> Prop) :
  respects m -> (forall s a s', m s = (Ok a, s') -> Q a) ->
  (forall a, Q a -> respects (f a)) -> respects (bind m f).
Proof.
  intros Hm HQ Hf s. unfold bind. specialize (Hm s). specialize (HQ s).
  destruct (m s) as [[a|e] s1]; simpl in *; [|done].
  eapply R_trans; [exact Hm|]. apply Hf. by eapply HQ.
Qed.

Lemma respects_bind {A B} (m : M A) (f : A -> M B) :
  respects m -> (forall a, respects (f a)) -> respects (bind m f).
Proof.
  intros Hm Hf. apply (respects_bind_post m f (fun _ => True)); [done|done|].
  intros a _. apply Hf.
Qed.

Lemma respects_try_catch {A} (m : M A) (h : string -> M A) :
  respects m -> (forall e, respects (h e)) -> respects (try_catch m h).
Proof.
  intros Hm Hh s. unfold try_catch. specialize (Hm s).
  destruct (m s) as [[a|e] s1]; simpl in *; [done|].
  eapply R_trans; [exact Hm|apply Hh].
Qed.

Lemma respects_when (c : bool) (m : M unit) : respects m -> respects (when c m).
Proof. intros Hm. destruct c; [done|apply respects_ret]. Qed.

Lemma respects_broadcast (n : Notification) : respects (broadcast n).
Proof. intros s. apply R_sent. Qed.

Lemma respects_call (c : Call) : allowed c -> respects (call W perform c).
Proof.
  intros Hc s. unfold call. destruct (perform c (world s)). by apply R_call.
Qed.

Lemma respects_date_now : respects (date_now W now).
Proof. intros s. apply R_refl. Qed.

Lemma respects_modify (f : St -> St) : (forall s, R s (f s)) -> respects (modify f).
Proof. intros Hf s. apply Hf. Qed.

Ltac page_call := apply allowed_page; intros; discriminate.

Ltac respects_step :=
  lazymatch goal with
  | |- respects (bind _ _) => apply respects_bind; [|intros]
  | |- respects (try_catch _ _) => apply respects_try_catch; [|intros]
  | |- respects (when _ _) => apply respects_when
  | |- respects (ret _) => apply respects_ret
  | |- respects (throw _) => apply respects_throw
  | |- respects get => apply respects_get
  | |- respects (lift _) => apply respects_lift
  | |- respects (broadcast _) => apply respects_broadcast
  | |- respects (call _ _ ?c) => refine (respects_call c _); page_call
  | |- respects (date_now _ _) => apply respects_date_now
  | |- respects (if ?c then _ else _) => destruct c
  | |- respects (match ?x with _ => _ end) => destruct x
  end.

Ltac respects_all := repeat first [respects_step | assumption].

Lemma respects_waitForStability : respects (waitForStability W perform).
Proof. unfold waitForStability. respects_all. Qed.

Lemma respects_takeScreenshot : respects (takeScreenshot W perform).
Proof. unfold takeScreenshot. respects_all. Qed.

Lemma respects_getCurrentPageSnapshot : respects (getCurrentPageSnapshot W perform).
Proof.
  unfold getCurrentPageSnapshot. pose proof respects_waitForStability. respects_all.
Qed.

Lemma respects_decideNextAction (goal : string) (snap : Snapshot) (h : list Result.t) :
  allowed (chat_completion goal snap (slice_last 5 h)) ->
  respects (decideNextAction W perform goal snap h).
Proof.
  intros Hc. unfold decideNextAction.
  apply respects_bind; [apply respects_lift|intros _].
  apply respects_try_catch; [|intros; respects_all].
  apply respects_bind; [apply respects_get|intros s0].
  apply respects_bind; [apply respects_broadcast|intros _].
  apply respects_bind; [exact (respects_call _ Hc)|intros d].
  respects_all.
Qed.

Lemma respects_try_selector (endTime : Z) (selector : json) :
  respects (try_selector W perform now endTime selector).
Proof. unfold try_selector. respects_all. Qed.

Lemma respects_findElement_loop (endTime : Z) (selectors : list json) :
  forall lastError, respects (findElement_loop W perform now endTime selectors lastError).
Proof.
  induction selectors as [|selector rest IH]; intros lastError; simpl.
  - apply respects_throw.
  - destruct (negb (truthy_json selector)); [apply IH|].
    intros s. pose proof (respects_try_selector endTime selector s) as H1.
    destruct (try_selector _ _ _ _ _ s) as [[[found|]|e] s1]; simpl in *; [done|..];
      (eapply R_trans; [exact H1|apply IH]).
Qed.

Lemma respects_findElement (selectors : list json) (timeout : Z) :
  respects (findElement W perform now selectors timeout).
Proof.
  unfold findElement. apply respects_bind; [apply respects_date_now|intros t].
  apply respects_findElement_loop.
Qed.

Lemma respects_retry_loop {A} (action : M A) (maxRetries : nat) :
  respects action ->
  forall n attempt lastError,
    respects (retry_loop W perform action maxRetries n attempt lastError).
Proof.
  intros Ha. induction n as [|n IH]; intros attempt lastError; simpl.
  - apply respects_throw.
  - intros s. pose proof (Ha s) as H1.
    destruct (action s) as [[a|e] s1]; simpl in *; [done|].
    eapply R_trans; [exact H1|].
    assert (respects (when (attempt <? maxRetries)%nat
                     (bind (broadcast (retry ("Retrying action (attempt "
                                                +:+ pretty (attempt + 1)%nat +:+ "/"
                                                +:+ pretty maxRetries +:+ ")") e))
                        (fun _ => call W perform (waitForTimeout (1000 * Z.of_nat attempt)))))) as Hw
      by respects_all.
    apply (respects_bind _ (fun _ => retry_loop W perform action maxRetries n (S attempt) (Some e)) Hw).
    intros _. apply IH.
Qed.

Lemma respects_executeActionWithRetry {A} (action : M A) (maxRetries : nat) :
  respects action -> respects (executeActionWithRetry W perform action maxRetries).
Proof. intros Ha. by apply respects_retry_loop. Qed.

Ltac respects_exec :=
  repeat first
    [ respects_step
    | apply respects_executeActionWithRetry
    | apply respects_findElement
    | apply respects_waitForStability ].

Lemma respects_click_action (l : list json) : respects (click_action W perform now l).
Proof. unfold click_action. respects_exec. Qed.

Lemma respects_type_action (l : list json) (v : json) :
  respects (type_action W perform now l v).
Proof. unfold type_action. respects_exec. Qed.

Lemma respects_clear_action (l : list json) : respects (clear_action W perform now l).
Proof. unfold clear_action. respects_exec. Qed.

Lemma respects_hover_action (l : list json) : respects (hover_action W perform now l).
Proof. unfold hover_action. respects_exec. Qed.

Lemma respects_spread (x : json) : respects (spread W x).
Proof. unfold spread. respects_all. Qed.

Lemma respects_target_url (t : json) : respects (target_url W t).
Proof. unfold target_url. respects_all. Qed.

(** The URL that [navigate] goes to starts with [http]. *)
Lemma target_url_http (t : json) (s s' : St) (url : string) :
  target_url W t s = (Ok url, s') -> startsWith url "http" = true.
Proof.
  destruct t as [[| | |n|u]| |]; simpl; try discriminate.
  intros [= <- _]. destruct (startsWith u "http") eqn:E; simpl; [exact E|reflexivity].
Qed.

Lemma respects_perform_action (decision : Decision) (snap : Snapshot) :
  respects (perform_action W perform now decision snap).
Proof.
  unfold perform_action. cbv zeta.
  destruct (bool_decide (action decision = JStr "navigate")).
  { apply (respects_bind_post _ _ (fun url => startsWith url "http" = true));
      [apply respects_target_url|intros s a s'; apply target_url_http|].
    intros url Hurl.
    apply respects_bind;
      [apply respects_executeActionWithRetry; exact (respects_call _ (allowed_goto url Hurl))|].
    intros _. pose proof respects_waitForStability. respects_all. }
  repeat first
    [ respects_step
    | apply respects_executeActionWithRetry
    | apply respects_waitForStability
    | apply respects_click_action | apply respects_type_action
    | apply respects_clear_action | apply respects_hover_action
    | apply respects_spread ].
Qed.

Lemma respects_try_body (decision : Decision) (snap : Snapshot) :
  respects (try_body W perform now decision snap).
Proof.
  unfold try_body.
  repeat first [respects_step | apply respects_perform_action | apply respects_waitForStability].
Qed.

Lemma respects_attempt (decision : Decision) (snap : Snapshot) :
  respects (attempt W perform now decision snap).
Proof. unfold attempt. repeat first [respects_step | apply respects_try_body]. Qed.

Lemma respects_after_action (result : Result.t) (d : json) (gc : bool) :
  respects (after_action W perform result d gc).
Proof. unfold after_action. respects_all. Qed.

(** The same for the methods that record a step and count the steps, when
    the relation allows for that, and for a goal run with the goal [goal0],
    when the oracle may be asked about this goal with at most five entries of
    history. *)
Hypothesis R_record : forall r s, R s (record_result r s).
Hypothesis R_next : forall s, R s (next_step s).

Variable goal0 : string.
Hypothesis R_start : forall s, R s (start_goal goal0 s).
Hypothesis allowed_chat :
  forall snap h, (length h <= 5)%nat -> allowed (chat_completion goal0 snap h).

Lemma slice_last_length {A} (n : nat) (a : list A) : (length (slice_last n a) <= n)%nat.
Proof. unfold slice_last. rewrite length_drop. lia. Qed.

Lemma respects_executeAction (decision : json) (snap : Snapshot) :
  respects (executeAction W perform now decision snap).
Proof.
  unfold executeAction.
  repeat first
    [ apply respects_attempt
    | apply respects_modify; intros; apply R_record
    | respects_step ].
Qed.

Lemma respects_step_of_goal : respects (step W perform now goal0).
Proof.
  unfold step.
  repeat first
    [ apply respects_takeScreenshot | apply respects_getCurrentPageSnapshot
    | apply respects_decideNextAction; apply allowed_chat, slice_last_length
    | apply respects_executeAction
    | apply respects_modify; intros; apply R_next
    | apply respects_get | apply respects_broadcast | apply respects_ret
    | apply respects_bind; [|intros] ].
Qed.

Lemma respects_goal_loop (n : nat) :
  forall (results : list Result.t) (gc : bool) (s : St),
    R s (snd (goal_loop W perform now n goal0 results gc s)).
Proof.
  induction n as [|n IH]; intros results gc s; simpl; [apply R_refl|].
  destruct (negb gc && (stepCount s <? maxSteps s)%nat); [|apply R_refl].
  pose proof (respects_step_of_goal s) as H1.
  destruct (step W perform now goal0 s) as [[[result d]|e] s1]; [|exact H1].
  cbn [snd] in H1.
  pose proof (respects_after_action result d gc s1) as H2.
  destruct (after_action W perform result d gc s1) as [[completed|e] s2]; cbn [snd] in *.
  - eapply R_trans; [exact H1|]. eapply R_trans; [exact H2|]. apply IH.
  - eapply R_trans; [exact H1|exact H2].
Qed.

Lemma respects_executeGoal (s : St) : R s (snd (executeGoal W perform now goal0 s)).
Proof.
  unfold executeGoal, on_error. cbv zeta.
  eapply R_trans; [apply R_start|]. eapply R_trans; [apply R_sent|].
  pose proof (respects_waitForStability
                (add_sent (execution_start goal0) (start_goal goal0 s))) as H1.
  destruct (waitForStability W perform _) as [[[]|e] s1]; cbn [snd] in *.
  - eapply R_trans; [exact H1|].
    pose proof (respects_goal_loop (maxSteps s1 - stepCount s1) [] false s1) as H2.
    destruct (goal_loop W perform now _ goal0 [] false s1) as [[results gc|results e] s2];
      cbn [snd] in *.
    + eapply R_trans; [exact H2|].
      destruct (maxSteps s2 <=? stepCount s2)%nat.
      * eapply R_trans; [apply R_sent|apply R_sent].
      * apply R_sent.
    + eapply R_trans; [exact H2|apply R_sent].
  - eapply R_trans; [exact H1|apply R_sent].
Qed.

End Invariant.

End InvariantFacts.

(** ** [findElement] *)

Module FindFacts.
Import JS Generator.

Section Find.
Variable W : Type.
Variable perform : forall c : Call, W -> Res (reply c) * W.
Variable now : W -> Z.

Local Abbreviation St := (St W).
Local Abbreviation findElement := (findElement W perform now).
Local Abbreviation findElement_loop := (findElement_loop W perform now).

(** The element was waited for with its selector for at least a second, and
    the page then reported it visible and enabled; [w] is the state of the
    page after these three calls. *)
Definition checked (selector : json) (element : Handle) (w : W) : Prop :=
  exists (t : Z) (w0 w1 w2 : W),
    1000 <= t
    /\ perform (waitForSelector selector t) w0 = (Ok element, w1)
    /\ perform (isVisible element) w1 = (Ok true, w2)
    /\ perform (isEnabled element) w2 = (Ok true, w).

Lemma findElement_loop_found (endTime : Z) (selectors : list json) :
  forall (lastError : option string) (s s' : St) (found : Handle * json),
    findElement_loop endTime selectors lastError s = (Ok found, s') ->
    snd found ∈ selectors /\ truthy_json (snd found) = true
    /\ checked (snd found) (fst found) (world s').
Proof.
  induction selectors as [|selector rest IH]; intros lastError s s' found; simpl.
  - discriminate.
  - destruct (truthy_json selector) eqn:Et; cbn [negb].
    2:{ intros H. apply IH in H as (Hin & Ht & Hc).
        split; [by apply list_elem_of_further|done]. }
    unfold try_selector, bind, date_now, call, ret. cbn [world set_world].
    destruct (perform (waitForSelector selector _) (world s)) as [[element|e] w1] eqn:E1;
      cbn [world set_world].
    2:{ intros H. apply IH in H as (Hin & Ht & Hc).
        split; [by apply list_elem_of_further|done]. }
    destruct (perform (isVisible element) w1) as [[visible|e] w2] eqn:E2;
      cbn [world set_world].
    2:{ intros H. apply IH in H as (Hin & Ht & Hc).
        split; [by apply list_elem_of_further|done]. }
    destruct (perform (isEnabled element) w2) as [[enabled|e] w3] eqn:E3;
      cbn [world set_world].
    2:{ intros H. apply IH in H as (Hin & Ht & Hc).
        split; [by apply list_elem_of_further|done]. }
    destruct visible, enabled; cbn [andb];
      try (intros H; apply IH in H as (Hin & Ht & Hc);
           split; [by apply list_elem_of_further|done]).
    intros [= <- <-]. cbn [fst snd world].
    split; [apply list_elem_of_here|]. split; [exact Et|].
    eexists _, _, _, _. split; [|split; [exact E1|split; [exact E2|exact E3]]]. lia.
Qed.

(** X7.  What [findElement] returns is one of the selectors it was given, a
    truthy one, together with an element that was waited for with this
    selector for at least one second and that the page reported visible and
    enabled just before the return. *)
Theorem findElement_returns_a_checked_element (selectors : list json) (timeout : Z)
    (s s' : St) (found : Handle * json) :
  findElement selectors timeout s = (Ok found, s') ->
  snd found ∈ selectors /\ truthy_json (snd found) = true
  /\ checked (snd found) (fst found) (world s').
Proof.
  unfold Generator.findElement, bind, date_now. apply findElement_loop_found.
Qed.

(** X8.  With no truthy selector at all, [findElement] throws
    [No valid selector found] at once: the page is not asked anything. *)
Theorem findElement_without_selectors (selectors : list json) (timeout : Z) (s : St) :
  Forall (fun v => truthy_json v = false) selectors ->
  findElement selectors timeout s = (Throw "No valid selector found", s).
Proof.
  intros Hall. unfold Generator.findElement, bind, date_now.
  generalize (now (world s) + timeout). intros endTime.
  induction Hall as [|v rest Hv _ IH]; simpl; [reflexivity|].
  rewrite Hv. exact IH.
Qed.

End Find.

Lemma findElement_returns_a_checked_element_witness :
  JPrim (JStr "#a") ∈ [JPrim JNull; JPrim (JStr "#a")]
  /\ truthy_json (JStr "#a") = true.
Proof.
  pose proof (findElement_returns_a_checked_element nat (Stub.perform Stub.scrolling)
                Stub.clock [JPrim JNull; JPrim (JStr "#a")] 10000 Stub.ready
                (snd (findElement nat (Stub.perform Stub.scrolling) Stub.clock
                        [JPrim JNull; JPrim (JStr "#a")] 10000 Stub.ready))
                (0%nat, JPrim (JStr "#a")) eq_refl) as (Hin & Ht & _).
  split; [exact Hin|exact Ht].
Defined.

Lemma findElement_without_selectors_witness :
  findElement nat (Stub.perform Stub.scrolling) Stub.clock
    [JPrim JNull; JPrim (JStr ""); JPrim JUndefined; JPrim (JBool false)] 10000 Stub.ready
  = (Throw "No valid selector found", Stub.ready).
Proof.
  apply (findElement_without_selectors nat (Stub.perform Stub.scrolling) Stub.clock).
  repeat constructor.
Defined.

End FindFacts.

(** ** What one action records and which calls it makes *)

Module RecordFacts.
Import JS Generator InvariantFacts.

(** The labels of the [switch] of [executeAction]. *)
Definition action_kinds : list string :=
  ["navigate"; "click"; "type"; "clear"; "press"; "wait"; "scroll"; "hover"; "complete"].

(** A navigation goes to a URL that starts with [http]. *)
Definition http_goto (c : Call) : Prop :=
  match c with
  | goto u => startsWith u "http" = true
  | _ => True
  end.

Section Record.
Variable W : Type.
Variable perform : forall c : Call, W -> Res (reply c) * W.
Variable now : W -> Z.

Local Abbreviation St := (St W).
Local Abbreviation executeAction := (executeAction W perform now).

(** The history and the replay lines are as they were. *)
Definition same_record (s s' : St) : Prop :=
  executionHistory s' = executionHistory s /\ testSteps s' = testSteps s.

(** The calls issued since are [extra], and all of them satisfy [P]. *)
Definition issued (P : Call -> Prop) (s s' : St) : Prop :=
  exists extra, calls s' = calls s ++ extra /\ Forall P extra.

Lemma same_record_trans (s1 s2 s3 : St) :
  same_record s1 s2 -> same_record s2 s3 -> same_record s1 s3.
Proof. unfold same_record. intros [??] [??]. split; congruence. Qed.

Lemma issued_refl (P : Call -> Prop) (s : St) : issued P s s.
Proof. exists []. by rewrite app_nil_r. Qed.

Lemma issued_trans (P : Call -> Prop) (s1 s2 s3 : St) :
  issued P s1 s2 -> issued P s2 s3 -> issued P s1 s3.
Proof.
  intros (x1 & H1 & F1) (x2 & H2 & F2). exists (x1 ++ x2).
  split; [by rewrite H2, H1, app_assoc|by apply Forall_app].
Qed.

Lemma issued_same_calls (P : Call -> Prop) (s s' : St) :
  calls s' = calls s -> issued P s s'.
Proof. intros H. exists []. by rewrite app_nil_r. Qed.

Lemma issued_call (P : Call -> Prop) (c : Call) (w : W) (s : St) :
  P c -> issued P s (set_world w c s).
Proof. intros Hc. exists [c]. split; [done|by repeat constructor]. Qed.

Lemma attempt_same_record (decision : Decision) (snap : Snapshot) (s : St) :
  same_record s (snd (attempt W perform now decision snap s)).
Proof.
  apply (respects_attempt W perform now same_record (fun _ => True));
    try done; [by intros ? ? ? [??] [??]; split; congruence].
Qed.

(** What [executeAction] does to the record: nothing when it throws, and
    one entry and one line more when it returns. *)
Lemma executeAction_appends (decision : json) (snap : Snapshot) (s : St) :
  match executeAction decision snap s with
  | (Ok result, s') =>
      page s = true
      /\ executionHistory s' = executionHistory s ++ [result]
      /\ testSteps s' = testSteps s ++ ["    " +:+ Result.playwrightCode result]
      /\ last (sent s') = Some (action_complete result (stepCount s))
  | (Throw e, s') => same_record s s'
  end.
Proof.
  unfold Generator.executeAction, bind, get, broadcast, modify, ret, throw.
  destruct (page s) eqn:Hpage; cbn [negb]; [|done].
  destruct (decision_fields decision) as [fields|]; [|done].
  set (s0 := add_sent (action_start (action fields) (description fields) (stepCount s)) s).
  pose proof (ExecutorFacts.attempt_returns W perform now fields snap s0) as Ha.
  pose proof (attempt_same_record fields snap s0) as [Hh Ht].
  pose proof (FrameFacts.keeps_attempt W perform now fields snap s0) as (_ & _ & _ & Hc & _).
  destruct (try_body W perform now fields snap s0) as [[[ok code]|e] s1].
  - rewrite Ha in *. cbn [fst snd] in *.
    cbn [record_result add_sent executionHistory testSteps sent stepCount
         Result.playwrightCode].
    rewrite Hh, Ht, Hc, last_snoc. done.
  - destruct (ToString (description fields)) as [text|e']; rewrite Ha in *; cbn [fst snd] in *.
    + cbn [record_result add_sent executionHistory testSteps sent stepCount
           Result.playwrightCode].
      rewrite Hh, Ht, Hc, last_snoc. done.
    + split; [exact Hh|exact Ht].
Qed.

(** X9.  With the page initialized, [executeAction] returns for every reply
    that is not [null] and whose description converts to a string.  Whenever
    it returns, it has appended exactly the result it returns to
    [executionHistory] and exactly one line to [testSteps], the
    [playwrightCode] of that result indented by four spaces, and its last
    notification is [action_complete] with that result, for a failed action
    as for a successful one.  Whenever it throws, it has recorded nothing. *)
Theorem executeAction_records_the_step (decision : json) (snap : Snapshot) (s : St) :
  (forall fields text,
     page s = true -> decision_fields decision = Some fields ->
     ToString (description fields) = Ok text ->
     exists result s', executeAction decision snap s = (Ok result, s'))
  /\ (forall result s',
        executeAction decision snap s = (Ok result, s') ->
        executionHistory s' = executionHistory s ++ [result]
        /\ testSteps s' = testSteps s ++ ["    " +:+ Result.playwrightCode result]
        /\ last (sent s') = Some (action_complete result (stepCount s)))
  /\ (forall e s',
        executeAction decision snap s = (Throw e, s') ->
        executionHistory s' = executionHistory s /\ testSteps s' = testSteps s).
Proof.
  pose proof (executeAction_appends decision snap s) as H.
  split; [|split].
  - intros fields text Hpage Hfields Htext. clear H.
    unfold Generator.executeAction, bind, get, broadcast, modify, ret.
    rewrite Hpage, Hfields. cbn [negb].
    pose proof (ExecutorFacts.attempt_returns W perform now fields snap
                  (add_sent (action_start (action fields) (description fields)
                                 (stepCount s)) s)) as Ha.
    rewrite Htext in Ha.
    destruct (try_body W perform now fields snap _) as [[[ok code]|e] s1]; rewrite Ha;
      by eexists _, _.
  - intros result s' Hrun. rewrite Hrun in H. tauto.
  - intros e s' Hrun. rewrite Hrun in H. exact H.
Qed.

(** X10.  A [complete] decision with no [waitBefore] touches nothing: the result is
    a success whose replay line is the comment that names the goal, and no
    call is made on the page. *)
Theorem complete_makes_no_call (decision : json) (fields : Decision) (snap : Snapshot)
    (s : St) :
  decision_fields decision = Some fields ->
  action fields = JStr "complete" ->
  truthy_json (waitBefore fields) = false ->
  page s = true ->
  exists (result : Result.t) (s' : St),
    executeAction decision snap s = (Ok result, s')
    /\ Result.success result = true
    /\ Result.error result = EmptyString
    /\ Result.playwrightCode result
       = "// Goal: " +:+ dq +:+ to_string (currentGoal s) +:+ dq +:+ " completed successfully"
    /\ calls s' = calls s /\ world s' = world s.
Proof.
  intros Hfields Hact Hwait Hpage.
  unfold Generator.executeAction, bind at 1, get. rewrite Hpage, Hfields. cbn [negb].
  unfold attempt, try_body, perform_action.
  rewrite Hact, Hwait. cbn [bool_decide decide_rel]. simpl.
  unfold try_catch, bind, get, broadcast, modify, ret, when. simpl.
  rewrite andb_false_r. unfold ret. simpl.
  eexists _, _. split; [reflexivity|]. simpl. done.
Qed.

(** X11.  A decision whose [action] is none of the labels of the [switch] is
    refused: with no [waitBefore], and with an action and a description that
    convert to strings, the result is a failure whose error names the
    action, and no call is made on the page. *)
Theorem unknown_action_is_refused (decision : json) (fields : Decision)
    (name text : string) (snap : Snapshot) (s : St) :
  decision_fields decision = Some fields ->
  Forall (fun a => action fields <> JStr a) action_kinds ->
  truthy_json (waitBefore fields) = false ->
  ToString (action fields) = Ok name ->
  ToString (description fields) = Ok text ->
  page s = true ->
  exists (result : Result.t) (s' : St),
    executeAction decision snap s = (Ok result, s')
    /\ Result.success result = false
    /\ Result.error result = "Unknown action: " +:+ name
    /\ Result.playwrightCode result
       = "// Failed: " +:+ text +:+ " - " +:+ "Unknown action: " +:+ name
    /\ calls s' = calls s /\ world s' = world s.
Proof.
  intros Hfields Hact Hwait Hname Htext Hpage. unfold action_kinds in Hact.
  repeat match goal with
         | H : Forall _ (_ :: _) |- _ => apply Forall_cons in H as [? H]
         end.
  unfold Generator.executeAction, bind at 1, get. rewrite Hpage, Hfields. cbn [negb].
  unfold attempt, try_body, perform_action.
  rewrite Hwait. rewrite !bool_decide_eq_false_2 by assumption.
  unfold try_catch, bind, get, broadcast, modify, ret, when, throw, lift.
  rewrite Hname, Htext. simpl.
  eexists _, _. split; [reflexivity|]. simpl. done.
Qed.

Lemma executeAction_issued (decision : json) (snap : Snapshot) (s : St) :
  issued http_goto s (snd (executeAction decision snap s)).
Proof.
  apply (respects_executeAction W perform now (issued http_goto) http_goto).
  - apply issued_refl.
  - apply issued_trans.
  - intros n s0. by apply issued_same_calls.
  - intros c w s0. apply issued_call.
  - intros c Hg _. destruct c as [| | | | | |u| | | | | | | | | | | |]; try exact I.
    by destruct (Hg u).
  - intros u Hu. exact Hu.
  - intros r s0. by apply issued_same_calls.
Qed.

(** X12.  Whatever the decision is, every navigation that [executeAction] asks of
    the page goes to a URL that starts with [http]: a target without a
    scheme gets [https://] in front. *)
Theorem executeAction_navigates_to_http_urls (decision : json) (snap : Snapshot)
    (s : St) :
  exists extra : list Call,
    calls (snd (executeAction decision snap s)) = calls s ++ extra
    /\ forall u, goto u ∈ extra -> startsWith u "http" = true.
Proof.
  destruct (executeAction_issued decision snap s) as (extra & Hc & Hall).
  exists extra. split; [exact Hc|].
  intros u Hu. rewrite Forall_forall in Hall. exact (Hall _ Hu).
Qed.

End Record.

(** A click on the first of five buttons: one entry and one line more. *)
Lemma executeAction_records_the_step_witness :
  exists (result : Result.t) (s' : St nat),
    Generator.executeAction nat (Stub.perform Stub.scrolling) Stub.clock
      (Stub.decision "click" (JStr "0") JUndefined)
      (snapshot_script Stub.five_buttons) Stub.ready = (Ok result, s')
    /\ executionHistory s' = [result]
    /\ testSteps s' = ["    " +:+ Result.playwrightCode result].
Proof.
  destruct (executeAction_records_the_step nat (Stub.perform Stub.scrolling) Stub.clock
              (Stub.decision "click" (JStr "0") JUndefined)
              (snapshot_script Stub.five_buttons) Stub.ready) as (Hreturns & Hrecord & _).
  destruct (Hreturns _ "doing it" eq_refl eq_refl eq_refl) as (result & s' & H).
  destruct (Hrecord result s' H) as (Hh & Ht & _).
  exists result, s'. split; [exact H|]. split; [exact Hh|exact Ht].
Defined.

Lemma complete_makes_no_call_witness :
  exists (result : Result.t) (s' : St nat),
    Generator.executeAction nat (Stub.perform Stub.scrolling) Stub.clock
      (Stub.decision "complete" JUndefined JUndefined)
      (snapshot_script Stub.five_buttons) Stub.ready = (Ok result, s')
    /\ Result.success result = true /\ calls s' = [].
Proof.
  destruct (complete_makes_no_call nat (Stub.perform Stub.scrolling) Stub.clock
              (Stub.decision "complete" JUndefined JUndefined) _
              (snapshot_script Stub.five_buttons) Stub.ready eq_refl eq_refl eq_refl eq_refl)
    as (result & s' & H & Hs & _ & _ & Hc & _).
  exists result, s'. split; [exact H|]. split; [exact Hs|exact Hc].
Defined.

Lemma unknown_action_is_refused_witness :
  exists (result : Result.t) (s' : St nat),
    Generator.executeAction nat (Stub.perform Stub.scrolling) Stub.clock
      (Stub.decision "dance" JUndefined JUndefined)
      (snapshot_script Stub.five_buttons) Stub.ready = (Ok result, s')
    /\ Result.error result = "Unknown action: dance" /\ calls s' = [].
Proof.
  destruct (decision_fields (Stub.decision "dance" JUndefined JUndefined))
    as [fields|] eqn:Hf; [|discriminate Hf].
  assert (Hk : Forall (fun a => action fields <> JStr a) action_kinds)
    by (injection Hf as <-; repeat constructor; discriminate).
  assert (Hw : truthy_json (waitBefore fields) = false) by (by injection Hf as <-).
  assert (Hn : ToString (action fields) = Ok "dance") by (by injection Hf as <-).
  assert (Ht : ToString (description fields) = Ok "doing it") by (by injection Hf as <-).
  destruct (unknown_action_is_refused nat (Stub.perform Stub.scrolling) Stub.clock
              (Stub.decision "dance" JUndefined JUndefined) fields "dance" "doing it"
              (snapshot_script Stub.five_buttons) Stub.ready Hf Hk Hw Hn Ht eq_refl)
    as (result & s' & H & _ & He & _ & Hc & _).
  exists result, s'. split; [exact H|]. split; [exact He|exact Hc].
Defined.

End RecordFacts.

(** ** Text that contains a given line *)

Module TextFacts.
Import JS.

Lemma prefix_append (p s : string) : String.prefix p (p +:+ s) = true.
Proof.
  induction p as [|c p IH]; simpl; [by destruct s|].
  by destruct (ascii_dec c c).
Qed.

Lemma prefix_append_r (p s t : string) :
  String.prefix p s = true -> String.prefix p (s +:+ t) = true.
Proof.
  revert s. induction p as [|c p IH]; intros [|d s]; simpl; try done.
  - by destruct t.
  - destruct (ascii_dec c d); [apply IH|done].
Qed.

Lemma includes_prefix (s sub : string) :
  String.prefix sub s = true -> includes s sub = true.
Proof. intros H. destruct s; cbn [includes]; by rewrite H. Qed.

Lemma includes_append_l (x s sub : string) :
  includes s sub = true -> includes (x +:+ s) sub = true.
Proof.
  intros H. induction x as [|c x IH]; [done|].
  change (String c x +:+ s) with (String c (x +:+ s)). cbn [includes].
  rewrite IH. apply orb_true_r.
Qed.

Lemma includes_append_r (s t sub : string) :
  includes s sub = true -> includes (s +:+ t) sub = true.
Proof.
  induction s as [|c s IH]; cbn [includes].
  - rewrite orb_false_r. intros H. apply includes_prefix.
    destruct sub; [by destruct t|done].
  - intros [H|H]%orb_true_iff; change (String c s +:+ t) with (String c (s +:+ t));
      cbn [includes].
    + apply orb_true_iff. left. exact (prefix_append_r sub (String c s) t H).
    + rewrite (IH H). apply orb_true_r.
Qed.

Lemma includes_self (s : string) : includes s s = true.
Proof.
  apply includes_prefix. induction s as [|c s IH]; simpl; [done|].
  by destruct (ascii_dec c c).
Qed.

(** A text joined from pieces contains what one of its pieces contains. *)
Lemma includes_join (sep : string) (l : list string) (x sub : string) :
  x ∈ l -> includes x sub = true -> includes (join sep l) sub = true.
Proof.
  intros Hin Hx. induction l as [|y l IH]; [by apply elem_of_nil in Hin|].
  apply elem_of_cons in Hin as [<-|Hin].
  - destruct l; [done|]. cbn [join]. by apply includes_append_r.
  - specialize (IH Hin). destruct l; [by apply elem_of_nil in Hin|].
    cbn [join] in *. by do 2 apply includes_append_l.
Qed.

End TextFacts.

(** ** A whole goal run *)

Module RunFacts.
Import JS Generator FrameFacts InvariantFacts RecordFacts GoalLoopFacts TextFacts.

(** A browser where every call succeeds and an oracle that says at once
    that the goal is complete. *)
Definition completing : Stub.Script :=
  {| Stub.shows := Stub.five_buttons;
     Stub.decides := fun _ => Stub.decision "complete" JUndefined JUndefined;
     Stub.rejects := fun _ _ => None |}.

(** The replay line of a recorded step. *)
Definition replay_line (r : Result.t) : string := "    " +:+ Result.playwrightCode r.

(** What a goal run with the goal [goal] may ask: a navigation to a URL that
    starts with [http], the oracle about this goal with at most five entries
    of history, and anything else of the page. *)
Definition run_call (goal : string) (c : Call) : Prop :=
  match c with
  | goto u => startsWith u "http" = true
  | chat_completion g _ h => g = goal /\ (length h <= 5)%nat
  | _ => True
  end.

Definition results_of (exit : LoopExit) : list Result.t :=
  match exit with
  | Finished results _ => results
  | Escaped results _ => results
  end.

Section Run.
Variable W : Type.
Variable perform : forall c : Call, W -> Res (reply c) * W.
Variable now : W -> Z.

Local Abbreviation St := (St W).
Local Abbreviation executeGoal := (executeGoal W perform now).
Local Abbreviation goal_loop := (goal_loop W perform now).
Local Abbreviation step := (step W perform now).
Local Abbreviation after_action := (after_action W perform).

(** The decision oracle always returns a [complete] action. *)
Definition always_complete : Prop :=
  forall goal snap history w d w' fields,
    perform (chat_completion goal snap history) w = (Ok d, w') ->
    decision_fields d = Some fields ->
    action fields = JStr "complete".

(** *** Counting *)

Lemma count_success_failed (results : list Result.t) :
  (count_success results + count_failed results = length results)%nat.
Proof.
  unfold count_success, count_failed.
  induction results as [|r results IH]; [done|].
  rewrite !filter_cons. destruct (Result.success r); simpl;
    repeat case_decide; try done; simpl; lia.
Qed.

(** The loop never takes more steps than the budget allows; leaving through
    its condition it has recorded one result per step, and leaving through an
    error at most one step has no result. *)
Lemma goal_loop_counts (goal : string) :
  forall (n : nat) (results : list Result.t) (gc : bool) (s : St),
    (stepCount s <= maxSteps s)%nat ->
    let exit := fst (goal_loop n goal results gc s) in
    let s' := snd (goal_loop n goal results gc s) in
    maxSteps s' = maxSteps s
    /\ (stepCount s' <= maxSteps s)%nat
    /\ match exit with
       | Finished r _ =>
           (length r + stepCount s = length results + stepCount s')%nat
       | Escaped r _ =>
           (length r + stepCount s <= length results + stepCount s'
            <= length r + stepCount s + 1)%nat
       end.
Proof.
  induction n as [|n IH]; intros results gc s Hle; simpl; [repeat split; lia|].
  destruct (negb gc && (stepCount s <? maxSteps s)%nat) eqn:Econd;
    [|simpl; repeat split; lia].
  apply andb_prop in Econd as [_ Hlt]. apply Nat.ltb_lt in Hlt.
  pose proof (step_counts W perform now goal s) as [Hc Hm].
  destruct (step goal s) as [[[result d]|e] s1]; cbn [fst snd] in *.
  2:{ repeat split; lia. }
  pose proof (keeps_after_action W perform result d gc s1) as (_ & _ & Hm2 & Hc2 & _).
  destruct (after_action result d gc s1) as [[completed|e] s2]; cbn [fst snd] in *.
  - destruct (IH (results ++ [result]) completed s2 ltac:(lia)) as (H1 & H2 & H3).
    split; [lia|]. split; [lia|].
    destruct (fst (goal_loop n goal (results ++ [result]) completed s2));
      rewrite length_app in H3; simpl in H3; lia.
  - rewrite length_app. simpl. repeat split; lia.
Qed.

(** *** The record *)

Lemma respects_same_record :
  (forall s : St, same_record W s s)
  /\ (forall s1 s2 s3 : St, same_record W s1 s2 -> same_record W s2 s3 -> same_record W s1 s3)
  /\ (forall n (s : St), same_record W s (add_sent n s))
  /\ (forall c w (s : St), True -> same_record W s (set_world w c s)).
Proof.
  split; [done|]. split; [apply same_record_trans|]. split; done.
Qed.

(** One iteration up to [executeAction]: a result that is returned has been
    recorded, and nothing is recorded when the iteration throws. *)
Lemma step_record (goal : string) (s : St) :
  match step goal s with
  | (Ok (result, _), s1) =>
      executionHistory s1 = executionHistory s ++ [result]
      /\ testSteps s1 = testSteps s ++ [replay_line result]
  | (Throw _, s1) => same_record W s s1
  end.
Proof.
  destruct respects_same_record as (Hrefl & Htrans & Hsent & Hcall).
  unfold Generator.step, bind, get, broadcast, modify, ret. cbv beta iota.
  set (s0 := add_sent (step_start (stepCount (next_step s)) goal) (next_step s)).
  assert (H0 : same_record W s s0) by done.
  pose proof (respects_takeScreenshot W perform (same_record W) (fun _ => True)
                Hrefl Htrans Hcall ltac:(done) s0) as H1.
  destruct (takeScreenshot W perform s0) as [[[]|e] s1]; cbn [snd] in H1;
    [|by eapply same_record_trans].
  pose proof (respects_getCurrentPageSnapshot W perform (same_record W) (fun _ => True)
                Hrefl Htrans Hcall ltac:(done) s1) as H2.
  destruct (getCurrentPageSnapshot W perform s1) as [[snap|e] s2]; cbn [snd] in H2;
    [|by repeat (eapply same_record_trans; [eassumption|])].
  cbv beta iota.
  set (s3 := add_sent _ s2).
  assert (H3 : same_record W s2 s3) by done.
  pose proof (respects_decideNextAction W perform (same_record W) (fun _ => True)
                Hrefl Htrans Hsent Hcall goal snap (executionHistory s3) I s3) as H4.
  destruct (decideNextAction W perform goal snap (executionHistory s3) s3) as [[d|e] s4];
    cbn [snd] in H4;
    [|by repeat (eapply same_record_trans; [eassumption|])].
  assert (H5 : same_record W s s4)
    by (repeat (eapply same_record_trans; [eassumption|]); apply Hrefl).
  destruct H5 as [Hh Ht].
  pose proof (executeAction_appends W perform now d snap s4) as H6.
  destruct (Generator.executeAction W perform now d snap s4) as [[result|e] s5].
  - destruct H6 as (_ & H6 & H7 & _). rewrite H6, H7, Hh, Ht. done.
  - destruct H6 as [H6 H7]. split; congruence.
Qed.

Lemma after_action_same_record (result : Result.t) (d : json) (gc : bool) (s : St) :
  same_record W s (snd (after_action result d gc s)).
Proof.
  destruct respects_same_record as (Hrefl & Htrans & Hsent & Hcall).
  apply (respects_after_action W perform (same_record W) (fun _ => True)); done.
Qed.

Lemma goal_loop_record (goal : string) :
  forall (n : nat) (results : list Result.t) (gc : bool) (s : St),
    executionHistory s = results ->
    testSteps s = replay_line <$> results ->
    let exit := fst (goal_loop n goal results gc s) in
    let s' := snd (goal_loop n goal results gc s) in
    executionHistory s' = results_of exit
    /\ testSteps s' = replay_line <$> results_of exit.
Proof.
  induction n as [|n IH]; intros results gc s Hh Ht; simpl; [done|].
  destruct (negb gc && (stepCount s <? maxSteps s)%nat); [|done].
  pose proof (step_record goal s) as H1.
  destruct (step goal s) as [[[result d]|e] s1]; cbn [fst snd results_of].
  2:{ destruct H1 as [H1 H2]. by rewrite H1, H2. }
  destruct H1 as [H1 H2].
  pose proof (after_action_same_record result d gc s1) as [H3 H4].
  destruct (after_action result d gc s1) as [[completed|e] s2]; cbn [fst snd results_of] in *.
  - apply IH.
    + by rewrite H3, H1, Hh.
    + by rewrite H4, H2, Ht, fmap_app.
  - by rewrite H3, H4, H1, H2, Hh, Ht, fmap_app.
Qed.

(** *** The report *)

(** X13.  In every goal run, with or without an error: the run takes at most
    [maxSteps] steps; the report has one recorded step per step taken, except
    that the step at which an error escaped may be missing; the successful
    and the failed steps add up to the recorded ones; and the report of an
    escaped error says neither success nor completion. *)
Theorem run_summary_is_consistent (goal : string) (s : St) :
  let report := fst (executeGoal goal s) in
  let summary := Report.executionSummary report in
  (totalSteps summary <= maxSteps s)%nat
  /\ (length (Report.steps report) <= totalSteps summary
      <= length (Report.steps report) + 1)%nat
  /\ (Report.error report = None ->
      totalSteps summary = length (Report.steps report))
  /\ (successfulSteps summary + failedSteps summary = length (Report.steps report))%nat
  /\ Report.goal report = goal
  /\ (forall e, Report.error report = Some e ->
       Report.success report = false /\ goalCompleted summary = false).
Proof.
  unfold Generator.executeGoal, on_error. cbv zeta.
  pose proof (keeps_waitForStability W perform
                (add_sent (execution_start goal) (start_goal goal s)))
    as (_ & _ & Hm & Hc & _).
  destruct (waitForStability W perform _) as [[[]|e] s1];
    cbn [snd maxSteps stepCount add_sent start_goal] in Hm, Hc.
  2:{ cbn [fst errorResult Report.executionSummary Report.steps Report.error Report.goal
               Report.success totalSteps successfulSteps failedSteps goalCompleted].
      rewrite Hc. simpl. repeat split; try lia; done. }
  pose proof (goal_loop_counts goal (maxSteps s1 - stepCount s1) [] false s1 ltac:(lia))
    as (H1 & H2 & H3).
  cbv zeta in H1, H2, H3.
  destruct (goal_loop _ goal [] false s1) as [[results gc|results e] s2];
    cbn [fst snd] in *.
  - destruct (maxSteps s2 <=? stepCount s2)%nat;
      cbn [finalResult Report.executionSummary Report.steps Report.error Report.goal
           Report.success totalSteps successfulSteps failedSteps goalCompleted
           add_sent stepCount];
      rewrite count_success_failed; simpl in H3; repeat split; try lia; done.
  - cbn [errorResult Report.executionSummary Report.steps Report.error Report.goal
         Report.success totalSteps successfulSteps failedSteps goalCompleted].
    rewrite count_success_failed. simpl in H3. repeat split; try lia; done.
Qed.

(** X14.  The steps of the report are the execution history that the run leaves
    behind, whatever was recorded before the run; the replay lines are the
    [playwrightCode] of these steps, one line per step in their order; the
    test code of the report is generated from these lines, and so contains
    the line of every step of the report. *)
Theorem report_steps_are_the_recorded_history (goal : string) (s : St) :
  let report := fst (executeGoal goal s) in
  let s' := snd (executeGoal goal s) in
  executionHistory s' = Report.steps report
  /\ testSteps s' = replay_line <$> Report.steps report
  /\ Report.testCode report = generateTestCode W goal s'
  /\ forall r, r ∈ Report.steps report ->
               includes (Report.testCode report) (replay_line r) = true.
Proof.
  intros report s'.
  assert (Hrec : executionHistory s' = Report.steps report
                 /\ testSteps s' = replay_line <$> Report.steps report
                 /\ Report.testCode report = generateTestCode W goal s');
    [|destruct Hrec as (Hh & Ht & Hc); repeat split; try done;
      intros r Hr; rewrite Hc; unfold generateTestCode;
      do 13 apply includes_append_l; apply includes_append_r; rewrite Ht;
      apply includes_join with (x := replay_line r);
      [apply list_elem_of_fmap; by exists r|apply includes_self]].
  subst report s'.
  unfold Generator.executeGoal, on_error. cbv zeta.
  destruct respects_same_record as (Hrefl & Htrans & Hsent & Hcall).
  pose proof (respects_waitForStability W perform (same_record W) (fun _ => True)
                Hrefl Htrans Hcall ltac:(done)
                (add_sent (execution_start goal) (start_goal goal s))) as [Hh Ht].
  destruct (waitForStability W perform _) as [[[]|e] s1];
    cbn [snd executionHistory testSteps add_sent start_goal] in Hh, Ht.
  2:{ cbn [fst snd errorResult Report.steps Report.testCode add_sent executionHistory testSteps].
      rewrite Hh, Ht. done. }
  pose proof (goal_loop_record goal (maxSteps s1 - stepCount s1) [] false s1 Hh Ht)
    as [H1 H2].
  cbv zeta in H1, H2.
  destruct (goal_loop _ goal [] false s1) as [[results gc|results e] s2];
    cbn [fst snd results_of] in *.
  - destruct (maxSteps s2 <=? stepCount s2)%nat;
      cbn [finalResult Report.steps Report.testCode add_sent executionHistory testSteps];
      rewrite H1, H2; done.
  - cbn [errorResult Report.steps Report.testCode add_sent executionHistory testSteps].
    rewrite H1, H2. done.
Qed.

(** *** An oracle that says [complete] *)

Lemma after_action_complete (result : Result.t) (d : json) (gc completed : bool)
    (s s' : St) :
  (forall fields, decision_fields d = Some fields -> action fields = JStr "complete") ->
  after_action result d gc s = (Ok completed, s') ->
  completed = true /\ goal_completed (stepCount s) ∈ sent s'.
Proof.
  intros Hd. unfold Generator.after_action, bind, get, broadcast, modify, call, ret, throw.
  destruct (decision_fields d) as [fields|]; [|done].
  rewrite bool_decide_eq_true_2 by (by apply Hd). cbn [world add_sent].
  destruct (perform (waitForTimeout 1000) _) as [[[]|e] w]; [|done].
  intros [= <- <-]. split; [done|].
  cbn [sent set_world add_sent]. apply elem_of_app. right. apply list_elem_of_here.
Qed.

(** X15.  When the oracle always answers [complete] and no error escapes, a run
    with a budget of at least one step takes exactly one step: the report has
    that one step, [goalCompleted] and [success] are true, and the completion
    of the goal at step 1 was broadcast. *)
Theorem complete_decision_ends_the_run (goal : string) (s : St) :
  always_complete ->
  (1 <= maxSteps s)%nat ->
  Report.error (fst (executeGoal goal s)) = None ->
  totalSteps (Report.executionSummary (fst (executeGoal goal s))) = 1%nat
  /\ length (Report.steps (fst (executeGoal goal s))) = 1%nat
  /\ goalCompleted (Report.executionSummary (fst (executeGoal goal s))) = true
  /\ Report.success (fst (executeGoal goal s)) = true
  /\ goal_completed 1 ∈ sent (snd (executeGoal goal s)).
Proof.
  intros Halways Hbudget. unfold Generator.executeGoal, on_error. cbv zeta.
  pose proof (keeps_waitForStability W perform
                (add_sent (execution_start goal) (start_goal goal s)))
    as (_ & _ & Hm & Hc & _).
  destruct (waitForStability W perform _) as [[[]|e] s1]; [|done].
  cbn [snd maxSteps stepCount add_sent start_goal] in Hm, Hc.
  rewrite Hm, Hc, Nat.sub_0_r.
  destruct (maxSteps s) as [|n] eqn:En; [lia|].
  cbn [Generator.goal_loop]. rewrite Hm, Hc. cbn [negb andb Nat.ltb Nat.leb].
  pose proof (step_counts W perform now goal s1) as [Hc1 Hm1].
  pose proof (step_reply W perform now goal s1) as Hr.
  destruct (step goal s1) as [[[result d]|e] s2]; [|done].
  cbn [snd] in *.
  destruct (Hr s2 result d eq_refl) as (g' & snap & h & w & w' & Hp).
  pose proof (fun fields => Halways _ _ _ _ _ _ fields Hp) as Hd.
  pose proof (keeps_after_action W perform result d false s2) as (_ & _ & Hm2 & Hc2 & _).
  destruct (after_action result d false s2) as [[completed|e] s3] eqn:Ea; [|done].
  cbn [snd] in *.
  destruct (after_action_complete result d false completed s2 s3 Hd Ea) as [-> Hsent].
  assert (goal_loop n goal ([] ++ [result]) true s3
          = (Finished ([] ++ [result]) true, s3)) as -> by (by destruct n).
  intros _. cbn [fst snd].
  assert (Hone : stepCount s3 = 1%nat) by lia.
  rewrite Hc1, Hc in Hsent.
  destruct (maxSteps s3 <=? stepCount s3)%nat;
    cbn [finalResult Report.executionSummary Report.steps Report.success totalSteps
         goalCompleted add_sent stepCount sent orb];
    (split; [exact Hone|]); (split; [done|]); (split; [done|]); (split; [done|]);
    repeat (apply elem_of_app; left); exact Hsent.
Qed.

(** *** The calls of a run *)

Lemma run_issued (goal : string) (s : St) :
  issued W (run_call goal) s (snd (executeGoal goal s)).
Proof.
  apply (respects_executeGoal W perform now (issued W (run_call goal)) (run_call goal)).
  - apply issued_refl.
  - apply issued_trans.
  - intros n s0. by apply issued_same_calls.
  - intros c w s0. apply issued_call.
  - intros c Hg Hc. destruct c as [| | | | |g sn h|u| | | | | | | | | | | |]; try exact I.
    + by destruct (Hc g sn h).
    + by destruct (Hg u).
  - intros u Hu. exact Hu.
  - intros r s0. by apply issued_same_calls.
  - intros s0. by apply issued_same_calls.
  - intros s0. by apply issued_same_calls.
  - intros snap h Hh. by split.
Qed.

(** X16.  In a goal run the oracle is only asked about the goal of this run, and
    each time it is shown at most five entries of the execution history,
    however long the run is. *)
Theorem run_asks_about_its_goal (goal : string) (s : St) :
  exists extra : list Call,
    calls (snd (executeGoal goal s)) = calls s ++ extra
    /\ forall g snap h, chat_completion g snap h ∈ extra ->
         g = goal /\ (length h <= 5)%nat.
Proof.
  destruct (run_issued goal s) as (extra & Hc & Hall).
  exists extra. split; [exact Hc|]. rewrite Forall_forall in Hall.
  intros g snap h Hin. exact (Hall _ Hin).
Qed.

End Run.

(** With the oracle that says [complete] at once, the run of fifteen steps
    at most takes one. *)
Lemma complete_decision_ends_the_run_witness :
  totalSteps (Report.executionSummary
                (fst (executeGoal nat (Stub.perform completing) Stub.clock
                        "be done" Stub.ready))) = 1%nat.
Proof.
  assert (Ha : always_complete nat (Stub.perform completing)).
  { intros goal snap history w d w' fields. unfold Stub.perform. simpl.
    intros [= <- _] [= <-]. reflexivity. }
  assert (Hb : (1 <= maxSteps Stub.ready)%nat) by (simpl; lia).
  assert (He : Report.error
                 (fst (executeGoal nat (Stub.perform completing) Stub.clock
                         "be done" Stub.ready)) = None)
    by (vm_compute; reflexivity).
  exact (proj1 (complete_decision_ends_the_run nat (Stub.perform completing) Stub.clock
                  "be done" Stub.ready Ha Hb He)).
Defined.

End RunFacts.

(* ===================================================================== *)
(** * Further properties of the command variant *)
(* ===================================================================== *)

(** ** Validated actions *)

Module ValidateFacts.
Import JS Regex Chat RegexFacts ChatFacts.

(** What the handlers find in an action object that went through
    [validateAction]: a canonical action, and the fields that this action
    needs. *)
Definition well_formed (o : ActionObj) : Prop :=
  (exists a, a ∈ validActions /\ action o = JStr a)
  /\ (action o = JStr "navigate" ->
      exists u, url o = JStr u /\ startsWith u "http" = true)
  /\ (action o = JStr "scroll" ->
      direction o ∈ [JStr "up"; JStr "down"; JStr "left"; JStr "right"])
  /\ (action o = JStr "click" \/ action o = JStr "type" \/ action o = JStr "wait" ->
      truthy (selector o) = true)
  /\ (action o = JStr "type" -> truthy (text o) = true)
  /\ (action o = JStr "search" -> truthy (query o) = true)
  /\ (action o = JStr "press_key" -> truthy (key o) = true).

(** The result of the fallback parser, when it returns. *)
Definition fallbackParser_ok (message : string) : option ActionObj :=
  match fallbackParser message with
  | Ok o => Some o
  | Throw _ => None
  end.

(** A [scroll] object with a direction that is not one of the four. *)
Definition scroll_sideways : ActionObj := set_direction (JStr "diagonal") (obj "scroll").

Lemma with_scheme_http (u : string) : startsWith (with_scheme u) "http" = true.
Proof.
  unfold with_scheme. destruct (startsWith u "http") eqn:E; simpl; [exact E|reflexivity].
Qed.

Lemma with_scheme_fixed (u : string) : startsWith u "http" = true -> with_scheme u = u.
Proof. intros E. unfold with_scheme. by rewrite E. Qed.

Lemma startsWith_nonempty (u : string) : startsWith u "http" = true -> u <> EmptyString.
Proof. by intros E ->. Qed.

Lemma is_action_true (o : ActionObj) (a : string) :
  is_action o a = true -> action o = JStr a.
Proof. apply bool_decide_eq_true. Qed.

Lemma is_action_false (o : ActionObj) (a : string) :
  is_action o a = false -> action o <> JStr a.
Proof. apply bool_decide_eq_false. Qed.

Lemma directions_truthy (v : jsval) :
  v ∈ [JStr "up"; JStr "down"; JStr "left"; JStr "right"] -> truthy v = true.
Proof.
  rewrite !elem_of_cons, elem_of_nil. intros H; repeat destruct H as [->|H]; done.
Qed.

Ltac field_cases :=
  repeat match goal with
         | |- _ /\ _ => split
         | |- _ -> _ => intros ?
         | H : _ \/ _ |- _ => destruct H
         end.

(** The fields of what [validateAction] returns, by the action it was
    given. *)
Lemma validateAction_fields (o o' : ActionObj) :
  validateAction o = Ok o' ->
  action o' = action o /\
  (action o = JStr "navigate" ->
   exists u, url o' = JStr u /\ startsWith u "http" = true)
  /\ (action o = JStr "scroll" ->
      direction o' ∈ [JStr "up"; JStr "down"; JStr "left"; JStr "right"])
  /\ (action o = JStr "click" \/ action o = JStr "type"
      \/ action o = JStr "wait" -> truthy (selector o') = true)
  /\ (action o = JStr "type" -> truthy (text o') = true)
  /\ (action o = JStr "search" -> truthy (query o') = true)
  /\ (action o = JStr "press_key" -> truthy (key o') = true).
Proof.
  unfold validateAction.
  destruct (negb (truthy (action o))); [done|].
  destruct (negb (existsb (is_action o) validActions)); [done|].
  destruct (is_action o "navigate") eqn:Enav.
  { apply is_action_true in Enav.
    destruct (negb (truthy (url o))); [done|].
    destruct (url o) as [| | |n|u]; try done. intros [= <-].
    cbn [action url set_url]. rewrite Enav.
    field_cases; try done; try congruence.
    exists (with_scheme u). split; [done|apply with_scheme_http]. }
  apply is_action_false in Enav.
  destruct (is_action o "scroll") eqn:Escroll.
  { apply is_action_true in Escroll. cbv zeta. intros [= <-].
    assert (Hdir : forall o1 : ActionObj,
              action o1 = action o ->
              let o2 := if negb (bool_decide (direction o1 ∈
                                    [JStr "up"; JStr "down"; JStr "left"; JStr "right"]))
                        then set_direction (JStr "down") o1 else o1 in
              action o2 = action o
              /\ direction o2 ∈ [JStr "up"; JStr "down"; JStr "left"; JStr "right"]).
    { intros o1 Ho1. cbv zeta.
      destruct (bool_decide (direction o1 ∈ _)) eqn:Ek; cbn [negb].
      - apply bool_decide_eq_true in Ek. by split.
      - split; [done|]. cbn [direction set_direction]. rewrite !elem_of_cons. tauto. }
    destruct (negb (truthy (direction o)));
      [destruct (Hdir (set_direction (JStr "down") o) eq_refl) as [Ha Hd]
      |destruct (Hdir o eq_refl) as [Ha Hd]];
      cbv zeta in Ha, Hd; rewrite Ha, Escroll;
      field_cases; try done; try congruence. }
  apply is_action_false in Escroll.
  destruct (is_action o "click") eqn:Eclick.
  { apply is_action_true in Eclick. intros [= <-].
    destruct (truthy (selector o)) eqn:Es; cbn [negb action selector set_selector];
      rewrite Eclick; field_cases; try done; try congruence. }
  apply is_action_false in Eclick.
  destruct (is_action o "type") eqn:Etype.
  { apply is_action_true in Etype. cbv zeta.
    destruct (truthy (selector o)) eqn:Es; cbn [negb];
      cbn [text set_selector];
      destruct (truthy (text o)) eqn:Et; cbn [negb]; try done;
      intros [= <-]; cbn [action selector text set_selector];
      rewrite Etype; field_cases; try done; try congruence. }
  apply is_action_false in Etype.
  destruct (is_action o "search") eqn:Esearch.
  { apply is_action_true in Esearch.
    destruct (truthy (query o)) eqn:Eq; cbn [negb]; [|done].
    intros [= <-]. rewrite Esearch. field_cases; try done; try congruence. }
  apply is_action_false in Esearch.
  destruct (is_action o "wait") eqn:Ewait.
  { apply is_action_true in Ewait. intros [= <-].
    destruct (truthy (selector o)) eqn:Es; cbn [negb action selector set_selector];
      rewrite Ewait; field_cases; try done; try congruence. }
  apply is_action_false in Ewait.
  destruct (is_action o "press_key") eqn:Ekey.
  { apply is_action_true in Ekey. intros [= <-].
    destruct (truthy (key o)) eqn:Ek; cbn [negb action key set_key];
      rewrite Ekey; field_cases; try done; try congruence. }
  apply is_action_false in Ekey.
  intros [= <-]. field_cases; try done; try congruence.
Qed.

Lemma existsb_is_action (o : ActionObj) (a : string) :
  a ∈ validActions -> action o = JStr a -> existsb (is_action o) validActions = true.
Proof.
  intros Ha Ho. apply existsb_exists. exists a. split; [by apply list_elem_of_In|].
  by apply bool_decide_eq_true_2.
Qed.

Lemma well_formed_is_fixed (o : ActionObj) : well_formed o -> validateAction o = Ok o.
Proof.
  intros ((a & Ha & Ho) & Hnav & Hscroll & Hsel & Htext & Hquery & Hkey).
  unfold validateAction. rewrite Ho at 1. cbn [truthy].
  assert (a <> EmptyString) as Hne.
  { intros ->. revert Ha. unfold validActions. rewrite !elem_of_cons, elem_of_nil.
    intros H; repeat destruct H as [H|H]; done. }
  rewrite (bool_decide_eq_false_2 _ Hne). cbn [negb].
  rewrite (existsb_is_action o a Ha Ho). cbn [negb]. cbv zeta.
  destruct (is_action o "navigate") eqn:Enav.
  { apply is_action_true in Enav. destruct (Hnav Enav) as (u & Hu & Hhttp).
    rewrite Hu. cbn [truthy].
    rewrite (bool_decide_eq_false_2 _ (startsWith_nonempty u Hhttp)). cbn [negb].
    rewrite (with_scheme_fixed u Hhttp). f_equal. destruct o. simpl in *. by subst. }
  destruct (is_action o "scroll") eqn:Escroll.
  { apply is_action_true in Escroll. specialize (Hscroll Escroll).
    rewrite (directions_truthy _ Hscroll). cbn [negb].
    by rewrite bool_decide_eq_true_2. }
  destruct (is_action o "click") eqn:Eclick.
  { apply is_action_true in Eclick. by rewrite Hsel by tauto. }
  destruct (is_action o "type") eqn:Etype.
  { apply is_action_true in Etype. rewrite Hsel by tauto. cbn [negb].
    by rewrite (Htext Etype). }
  destruct (is_action o "search") eqn:Esearch.
  { apply is_action_true in Esearch. by rewrite (Hquery Esearch). }
  destruct (is_action o "wait") eqn:Ewait.
  { apply is_action_true in Ewait. by rewrite Hsel by tauto. }
  destruct (is_action o "press_key") eqn:Ekey.
  { apply is_action_true in Ekey. by rewrite (Hkey Ekey). }
  done.
Qed.

(** X17.  What [validateAction] returns has the action it was given and is well
    formed: a [navigate] has a URL that starts with [http], a [scroll] one of
    the four directions, a [click], a [type] and a [wait] a selector, a
    [type] a text, a [search] a query and a [press_key] a key. *)
Theorem validateAction_result_is_well_formed (o o' : ActionObj) :
  validateAction o = Ok o' -> action o' = action o /\ well_formed o'.
Proof.
  intros H.
  destruct (validateAction_fields o o' H) as (Ha & Hrest).
  split; [exact Ha|]. split.
  - (* the action is canonical *)
    exact (validateAction_canonical o o' H).
  - (* the fields that the action needs are there *)
    rewrite Ha. exact Hrest.
Qed.

(** X18.  [validateAction] is idempotent: what it returns passes it unchanged, so
    an action object is normalised once and for all. *)
Theorem validateAction_is_idempotent (o o' : ActionObj) :
  validateAction o = Ok o' -> validateAction o' = Ok o'.
Proof.
  intros H. apply well_formed_is_fixed.
  destruct (validateAction_fields o o' H) as (Ha & Hrest).
  split; [exact (validateAction_canonical o o' H)|].
  rewrite Ha. exact Hrest.
Qed.

(** A [scroll] with the direction [diagonal] comes out with [down]. *)
Lemma validateAction_result_is_well_formed_witness :
  validateAction scroll_sideways = Ok (set_direction (JStr "down") (obj "scroll"))
  /\ well_formed (set_direction (JStr "down") (obj "scroll")).
Proof.
  assert (H : validateAction scroll_sideways = Ok (set_direction (JStr "down") (obj "scroll")))
    by (vm_compute; reflexivity).
  split; [exact H|].
  exact (proj2 (validateAction_result_is_well_formed scroll_sideways _ H)).
Defined.

Lemma validateAction_is_idempotent_witness :
  validateAction (set_direction (JStr "down") (obj "scroll"))
  = Ok (set_direction (JStr "down") (obj "scroll")).
Proof.
  apply (validateAction_is_idempotent scroll_sideways). vm_compute. reflexivity.
Defined.

(** *** The fallback parser and the validation *)

(** What the fallback parser returns without the validation that the reply
    of the model goes through: a well-formed action, or one of the two
    objects that the validation would refuse. *)
Definition well_formed_or_empty (o : ActionObj) : Prop :=
  well_formed o
  \/ (action o = JStr "type" /\ text o = JStr EmptyString)
  \/ (action o = JStr "search" /\ query o = JStr EmptyString).

Ltac member := unfold validActions; rewrite !elem_of_cons; tauto.

Ltac well_formed_here a :=
  split; [exists a; split; [member|reflexivity]|];
  cbn [action url selector text query direction key obj set_url set_selector set_text
       set_query set_direction set_key];
  field_cases; try done; try discriminate.

Lemma navigate_well_formed (u : string) :
  well_formed (set_url (JStr (with_scheme u)) (obj "navigate")).
Proof.
  well_formed_here "navigate".
  exists (with_scheme u). split; [done|apply with_scheme_http].
Qed.

Lemma fallbackParser_well_formed (message : string) (o : ActionObj) :
  fallbackParser message = Ok o ->
  o = unknown message \/ well_formed_or_empty o.
Proof.
  unfold fallbackParser. cbv zeta.
  set (has := includes (trim (toLowerCase message))).
  destruct (has "generate test" || has "create test" || has "test case" || has "test code").
  { intros [= <-]. right. left. well_formed_here "generate_test". }
  destruct (if has "navigate" || has "go to" || has "open" || has "visit"
            then first_match message [url_with_path; url_after_verb; url_known_tld]
                   navigate_of_match
            else None) as [r|] eqn:Enav.
  { destruct (has "navigate" || has "go to" || has "open" || has "visit"); [|done].
    apply (first_match_returns _ _ _ well_formed) in Enav as (o1 & -> & Ho1).
    - intros [= <-]. right. by left.
    - intros pattern m _ _. eexists. split; [reflexivity|]. apply navigate_well_formed. }
  destruct (has "click").
  { intros [= <-]. right. left. well_formed_here "click". }
  destruct (if has "type" || has "enter text" || has "input"
            then first_match message textPatterns _ else None) as [r|] eqn:Etype.
  { destruct (has "type" || has "enter text" || has "input"); [|done].
    apply (first_match_returns _ _ _ well_formed_or_empty) in Etype as (o1 & -> & Ho1).
    - intros [= <-]. by right.
    - intros pattern m Hp Hm.
      destruct (group1_trim_returns _ _ _ _ textPatterns_define_group Hp Hm) as [text ->].
      eexists. split; [reflexivity|].
      destruct text as [|c text]; [right; left; by split|].
      left. well_formed_here "type". }
  destruct (if has "search" then first_match message searchPatterns _ else None)
    as [r|] eqn:Esearch.
  { destruct (has "search"); [|done].
    apply (first_match_returns _ _ _ well_formed_or_empty) in Esearch as (o1 & -> & Ho1).
    - intros [= <-]. by right.
    - intros pattern m Hp Hm.
      destruct (group1_trim_returns _ _ _ _ searchPatterns_define_group Hp Hm) as [query ->].
      eexists. split; [reflexivity|].
      destruct query as [|c query]; [right; right; by split|].
      left. well_formed_here "search". }
  destruct (has "scroll").
  { intros [= <-]. right. left.
    destruct (has "up"), (has "down"), (has "left"), (has "right");
      well_formed_here "scroll"; rewrite !elem_of_cons; tauto. }
  destruct (has "screenshot" || has "capture" || has "take picture").
  { intros [= <-]. right. left. well_formed_here "screenshot". }
  destruct (has "enter" || has "press enter").
  { intros [= <-]. right. left. well_formed_here "press_key". }
  destruct (has "wait").
  { intros [= <-]. right. left. well_formed_here "wait". }
  destruct (smatch message urlPattern) as [urlMatch|] eqn:Eurl.
  - destruct (smatch_group 1 urlPattern message urlMatch eq_refl Eurl) as [url Hurl].
    rewrite Hurl. intros [= <-]. right. left. apply navigate_well_formed.
  - intros [= <-]. by left.
Qed.

(** X19.  What the fallback parser returns is the explicit [unknown] object, or
    passes [validateAction] unchanged, or is a [type] with the empty text or
    a [search] with the empty query, which the validation of a model reply
    would refuse; in particular every URL it returns starts with [http]. *)
Theorem fallbackParser_results_are_valid (message : string) (o : ActionObj) :
  fallbackParser message = Ok o ->
  o = unknown message
  \/ validateAction o = Ok o
  \/ (action o = JStr "type" /\ text o = JStr EmptyString)
  \/ (action o = JStr "search" /\ query o = JStr EmptyString).
Proof.
  intros H. destruct (fallbackParser_well_formed message o H) as [->|[Hw|[Ht|Hs]]].
  - by left.
  - right. left. by apply well_formed_is_fixed.
  - right. right. by left.
  - right. right. by right.
Qed.

Lemma fallbackParser_results_are_valid_witness :
  let nav := set_url (JStr "https://example.com") (obj "navigate") in
  fallbackParser "visit example.com" = Ok nav /\ validateAction nav = Ok nav.
Proof.
  cbv zeta.
  assert (H : fallbackParser "visit example.com"
              = Ok (set_url (JStr "https://example.com") (obj "navigate")))
    by (vm_compute; reflexivity).
  split; [exact H|].
  destruct (fallbackParser_results_are_valid _ _ H) as [E|[E|[[E _]|[E _]]]];
    [discriminate E|exact E|discriminate E|discriminate E].
Defined.

(** The two exceptions occur: a quoted blank is a text, and it is trimmed. *)
Example fallbackParser_empty_text :
  let quoted_blank := "type " +:+ dq +:+ " " +:+ dq in
  (text <$> fallbackParser_ok quoted_blank) = Some (JStr EmptyString).
Proof. vm_compute. reflexivity. Qed.

End ValidateFacts.

(** ** The session map *)

Module SessionFacts.
Import JS Chat.

Section Sessions.
Variable B : Type.
Variable systemPrompt : B -> Res string.
Variable completion : string -> string -> Res ActionObj.
Variable executeAction : Session B -> ActionObj -> string -> Res unit * Session B.

Local Abbreviation handleChatMessage :=
  (handleChatMessage B systemPrompt completion executeAction).

(** X20.  A chat message for one session leaves every other session as it is,
    and neither adds a session nor removes one, whatever the model and the
    dispatcher do; for an id that is not in the map, and for a session
    without a socket, nothing changes at all. *)
Theorem handleChatMessage_touches_one_session (sessionId : string) (data : ChatData)
    (activeSessions : gmap string (Session B)) :
  (forall other : string,
     other <> sessionId ->
     handleChatMessage sessionId data activeSessions !! other = activeSessions !! other)
  /\ (forall k : string,
       is_Some (handleChatMessage sessionId data activeSessions !! k)
       <-> is_Some (activeSessions !! k))
  /\ (activeSessions !! sessionId = None ->
      handleChatMessage sessionId data activeSessions = activeSessions)
  /\ (forall session, activeSessions !! sessionId = Some session -> ws session = None ->
       handleChatMessage sessionId data activeSessions = activeSessions).
Proof.
  assert (Hins : forall session0 session1 : Session B,
            activeSessions !! sessionId = Some session0 ->
            (forall other, other <> sessionId ->
               <[sessionId := session1]> activeSessions !! other = activeSessions !! other)
            /\ (forall k, is_Some (<[sessionId := session1]> activeSessions !! k)
                          <-> is_Some (activeSessions !! k))).
  { intros session0 session1 Hs. split.
    - intros other Hne. by rewrite lookup_insert_ne.
    - intros k. destruct (decide (k = sessionId)) as [->|Hne].
      + rewrite lookup_insert_eq, Hs. split; intros _; by eexists.
      + by rewrite lookup_insert_ne. }
  unfold Chat.handleChatMessage.
  destruct (activeSessions !! sessionId) as [session|] eqn:Hs.
  2:{ repeat split; done. }
  split; [|split; [|split]]; [..|done|].
  3:{ intros session0 [= <-] ->. done. }
  all: destruct (ws session); [|done].
  all: destruct (chat_message data) as [| | |n|message]; try apply (Hins session); try done.
  all: destruct (bool_decide (message = EmptyString)); try apply (Hins session); try done.
  all: destruct (handle_command _ _ _ _ _ _) as [[[]|e] session2];
    apply (Hins session); done.
Qed.

End Sessions.

End SessionFacts.

(** ** The selector finders *)

Module FinderFacts.
Import JS Handlers.

(** A page of a link, a search field and a submit button. *)
Definition info (tag type text selector : jsval) : Info.t :=
  {| Info.tag := tag; Info.type := type; Info.role := JUndefined; Info.text := text;
     Info.value := JUndefined; Info.placeholder := JUndefined; Info.name := JUndefined;
     Info.id := JUndefined; Info.className := JUndefined; Info.selector := selector |}.

Definition search_page : list Info.t :=
  [info (JStr "a") JUndefined (JStr "About us") (JStr "#about");
   info (JStr "input") (JStr "search") JUndefined (JStr "#q");
   info (JStr "button") (JStr "submit") (JStr "Search") (JStr "#go")].

Lemma find_res_Some {A} (p : A -> Res bool) (l : list A) (x : A) :
  find_res p l = Ok (Some x) -> x ∈ l /\ p x = Ok true.
Proof.
  induction l as [|y l IH]; simpl; [done|].
  destruct (p y) as [[]|e] eqn:E; try done.
  - intros [= <-]. split; [apply list_elem_of_here|done].
  - intros H. apply IH in H as [Hin Hp]. split; [by apply list_elem_of_further|done].
Qed.

Lemma find_Some {A} (p : A -> bool) (l : list A) (x : A) :
  find p l = Some x -> x ∈ l /\ p x = true.
Proof.
  intros H. apply find_some in H as [Hin Hp]. split; [by apply list_elem_of_In|done].
Qed.

Lemma button_with_text_clickable (lowerDesc : string) (el : Info.t) :
  button_with_text lowerDesc el = Ok true -> clickable el = true.
Proof.
  unfold button_with_text, clickable.
  destruct (same (Info.tag el) "button"), (same (Info.tag el) "a"),
    (same (Info.role el) "button"); simpl; try done; by rewrite ?orb_true_r.
Qed.

(** X21.  What [findExactMatch] returns is [null] or the selector of an element
    of the list; for a click that element is a button, a link, a submit
    control or has the role [button], and for typing it is an input or a
    text area of type text or search, or without a type. *)
Theorem findExactMatch_selects_from_the_page (elements : list Info.t)
    (actionType : string) (description v : jsval) :
  findExactMatch elements actionType description = Ok v ->
  v = JNull
  \/ exists el, el ∈ elements /\ Info.selector el = v
                /\ ((actionType = "click" /\ clickable el = true)
                    \/ (actionType = "type" /\ text_input el = true)).
Proof.
  unfold findExactMatch.
  destruct (toLowerCase_of "description" description) as [lowerDesc|e]; [|done].
  cbn [res_bind].
  destruct (bool_decide (actionType = "click")) eqn:Eclick.
  - apply bool_decide_eq_true in Eclick.
    destruct (find_res (button_with_text lowerDesc) elements) as [[button|]|e] eqn:Eb;
      cbn [res_bind]; [| |done].
    + intros [= <-]. apply find_res_Some in Eb as [Hin Hp].
      right. exists button. split; [done|]. split; [done|]. left.
      split; [done|]. by eapply button_with_text_clickable.
    + destruct (find clickable elements) as [c|] eqn:Ec; cbn [res_bind].
      * intros [= <-]. apply find_Some in Ec as [Hin Hp].
        right. exists c. split; [done|]. split; [done|]. by left.
      * rewrite bool_decide_eq_false_2 by (by rewrite Eclick). intros [= <-]. by left.
  - cbn [res_bind]. destruct (bool_decide (actionType = "type")) eqn:Etype.
    + apply bool_decide_eq_true in Etype.
      destruct (find text_input elements) as [i|] eqn:Ei.
      * intros [= <-]. apply find_Some in Ei as [Hin Hp].
        right. exists i. split; [done|]. split; [done|]. by right.
      * intros [= <-]. by left.
    + intros [= <-]. by left.
Qed.

Lemma first_selector_or_from {P : Info.t -> Prop} `{forall el, Decision (P el)}
    (elements : list Info.t) (d : string) :
  first_selector_or (filter P elements) d = JStr d
  \/ exists el, el ∈ elements /\ P el
                /\ Info.selector el = first_selector_or (filter P elements) d.
Proof.
  unfold first_selector_or.
  destruct (filter P elements) as [|el l] eqn:E; [by left|].
  destruct (truthy (Info.selector el)); [|by left].
  right. exists el.
  assert (Hin : el ∈ filter P elements) by (rewrite E; apply list_elem_of_here).
  apply list_elem_of_filter in Hin as [Hp Hin]. done.
Qed.

(** X22.  What [fallbackSelectorFinder] returns for a click is the generic
    selector [button] or the selector of a clickable element of the list,
    and for typing it is the generic selector [input] or the selector of an
    input, a text area or an element of type [input]; for any other action it
    is [null]. *)
Theorem fallbackSelectorFinder_selects_from_the_page (elements : list Info.t)
    (actionType : string) (description v : jsval) :
  fallbackSelectorFinder elements actionType description = Ok v ->
  (actionType = "click" /\
   (v = JStr "button"
    \/ exists el, el ∈ elements /\ clickable el = true /\ Info.selector el = v))
  \/ (actionType = "type" /\
      (v = JStr "input"
       \/ exists el, el ∈ elements /\ Info.selector el = v
                     /\ (same (Info.tag el) "input" || same (Info.tag el) "textarea"
                         || same (Info.type el) "input") = true))
  \/ (actionType <> "click" /\ actionType <> "type" /\ v = JNull).
Proof.
  unfold fallbackSelectorFinder.
  destruct (toLowerCase_of "description" description) as [lowerDesc|e]; [|done].
  cbn [res_bind]. cbv zeta.
  destruct (bool_decide (actionType = "click")) eqn:Eclick.
  { apply bool_decide_eq_true in Eclick. intros Hv. left. split; [done|].
    destruct (if includes lowerDesc "search" then _ else Ok None)
      as [[searchBtn|]|e] eqn:Es; cbn [res_bind] in Hv; [| |done].
    - injection Hv as <-. destruct (includes lowerDesc "search"); [|done].
      apply find_res_Some in Es as [Hin _].
      apply list_elem_of_filter in Hin as [Hp Hin].
      right. by exists searchBtn.
    - injection Hv as <-.
      destruct (first_selector_or_from (P := fun el => clickable el = true)
                  elements "button") as [->|(el & Hin & Hp & <-)]; [by left|].
      right. by exists el. }
  apply bool_decide_eq_false in Eclick.
  destruct (bool_decide (actionType = "type")) eqn:Etype.
  { apply bool_decide_eq_true in Etype. intros Hv. right. left. split; [done|].
    destruct (if includes lowerDesc "search" then _ else Ok None)
      as [[searchInput|]|e] eqn:Es; cbn [res_bind] in Hv; [| |done].
    - injection Hv as <-. destruct (includes lowerDesc "search"); [|done].
      apply find_res_Some in Es as [Hin _].
      apply list_elem_of_filter in Hin as [Hp Hin].
      right. by exists searchInput.
    - injection Hv as <-.
      destruct (first_selector_or_from
                  (P := fun el => same (Info.tag el) "input" || same (Info.tag el) "textarea"
                                  || same (Info.type el) "input" = true)
                  elements "input") as [->|(el & Hin & Hp & <-)]; [by left|].
      right. by exists el. }
  apply bool_decide_eq_false in Etype.
  intros [= <-]. right. right. done.
Qed.

(** On the search page, [search] matches the text of the submit button and
    not that of the link before it. *)
Lemma findExactMatch_selects_from_the_page_witness :
  findExactMatch search_page "click" (JStr "Search") = Ok (JStr "#go")
  /\ exists el, el ∈ search_page /\ Info.selector el = JStr "#go" /\ clickable el = true.
Proof.
  assert (H : findExactMatch search_page "click" (JStr "Search") = Ok (JStr "#go"))
    by (vm_compute; reflexivity).
  split; [exact H|].
  destruct (findExactMatch_selects_from_the_page _ _ _ _ H)
    as [E|(el & Hin & Hsel & [[_ Hc]|[E _]])]; [discriminate E| |discriminate E].
  by exists el.
Defined.

(** With nothing clickable on the page, the generic selector is used. *)
Lemma fallbackSelectorFinder_selects_from_the_page_witness :
  fallbackSelectorFinder [] "click" (JStr "the button") = Ok (JStr "button").
Proof.
  assert (H : fallbackSelectorFinder [] "click" (JStr "the button") = Ok (JStr "button"))
    by (vm_compute; reflexivity).
  destruct (fallbackSelectorFinder_selects_from_the_page _ _ _ _ H)
    as [[_ [E|(el & Hin & _)]]|[[E _]|(E & _)]];
    [exact H|by apply elem_of_nil in Hin|discriminate E|by destruct E].
Defined.

End FinderFacts.

(** ** The dispatcher and the handlers *)

Module HandlerFacts.
Import JS Handlers.

(** The actions that need a page. *)
Definition page_actions : list string :=
  ["click"; "type"; "search"; "scroll"; "wait"; "screenshot"; "press_key"].

(** The actions whose handler records its step after its last tool call
    that matters. *)
Definition plain_actions : list string :=
  ["navigate"; "click"; "type"; "scroll"; "wait"; "press_key"].

Definition is_error (m : Msg) : bool :=
  match m with
  | error _ => true
  | _ => false
  end.

(** A stub handler: the state counts the calls; a tool is rejected when
    [rejects] says so, and reports no progress. *)
Definition stub_reply (t : Tool) : tool_reply t :=
  match t return tool_reply t with
  | page_navigate url => Some {| nav_url := url; nav_title := JStr "Example" |}
  | page_get_snapshot => Some (Some {| elements := Some FinderFacts.search_page |})
  | page_screenshot _ => Some (JStr "iVBORw0KGgo=")
  | browser_initialize | element_click _ _ | element_type _ _ _ | keyboard_press _
  | page_scroll _ | element_wait _ _ => tt
  end.

Definition stub_tool (rejects : Tool -> option string) (t : Tool) (h : nat)
    : Res (tool_reply t) * list (list (string * jsval)) * nat :=
  match rejects t with
  | Some e => (Throw e, [], S h)
  | None => (Ok (stub_reply t), [], S h)
  end.

Definition stub_model (l : list Info.t) (actionType : string) (description : jsval)
    (h : nat) : Res string * nat := (Ok "button", S h).

Definition no_navigation (t : Tool) : option string :=
  match t with
  | page_navigate _ => Some "net::ERR_NAME_NOT_RESOLVED"
  | _ => None
  end.

Definition open_socket : Socket := {| is_open := true; outbox := [] |}.

Section Handler.
Variable H : Type.
Variable handleTool :
  forall t : Tool, H -> Res (tool_reply t) * list (list (string * jsval)) * H.
Variable selectorModel : list Info.t -> string -> jsval -> H -> Res string * H.
Variable now : H -> Z.
Variable localeDate : H -> string.
Variable writeTest : string -> string -> H -> Res unit * H.

Local Abbreviation Session := (Session H).
Local Abbreviation M := (M H).
Local Abbreviation tool := (tool H handleTool).
Local Abbreviation refresh_snapshot := (refresh_snapshot H handleTool).
Local Abbreviation findBestSelector := (findBestSelector H selectorModel).
Local Abbreviation better_selector := (better_selector H selectorModel).
Local Abbreviation ensure_browser := (ensure_browser H handleTool).
Local Abbreviation load_page := (load_page H handleTool).
Local Abbreviation handleNavigate := (handleNavigate H handleTool).
Local Abbreviation handleClick := (handleClick H handleTool selectorModel).
Local Abbreviation handleType := (handleType H handleTool selectorModel).
Local Abbreviation handleSearch := (handleSearch H handleTool).
Local Abbreviation handleScroll := (handleScroll H handleTool).
Local Abbreviation handleWait := (handleWait H handleTool).
Local Abbreviation handlePressKey := (handlePressKey H handleTool).
Local Abbreviation handleScreenshot := (handleScreenshot H handleTool).
Local Abbreviation generateTest := (generateTest H now localeDate writeTest).
Local Abbreviation executeAction :=
  (executeAction H handleTool selectorModel now localeDate writeTest).

(** Whether a message sent now reaches the client, and what was sent. *)
Definition open (s : Session) : bool :=
  match ws s with
  | Some sock => is_open sock
  | None => false
  end.

Definition sent (s : Session) : list Msg :=
  match ws s with
  | Some sock => outbox sock
  | None => []
  end.

(** The last message to the client is an error. *)
Definition reported_failure (s : Session) : bool :=
  match last (sent s) with
  | Some m => is_error m
  | None => false
  end.

(** Whether [browser_initialize] returns in the state of the session. *)
Definition browser_starts (s : Session) : bool :=
  match handleTool browser_initialize (handler s) with
  | (Ok _, _, _) => true
  | (Throw _, _, _) => false
  end.

(** *** Relations that the parts of the handlers preserve *)

Section Preserved.
Variable R : Session -> Session -> Prop.
Hypothesis R_refl : forall s, R s s.
Hypothesis R_trans : forall s1 s2 s3, R s1 s2 -> R s2 s3 -> R s1 s3.
Hypothesis R_send : forall m s, R s (snd (safeWebSocketSend m s)).
Hypothesis R_handler : forall h s, R s (set_handler h s).
Hypothesis R_snapshot : forall v s, R s (set_pageSnapshot v s).

Definition preserves {A} (m : M A) : Prop := forall s, R s (snd (m s)).

Lemma preserves_ret {A} (a : A) : preserves (ret a).
Proof. intros s. apply R_refl. Qed.

Lemma preserves_throw {A} (e : string) : preserves (throw (A := A) e).
Proof. intros s. apply R_refl. Qed.

Lemma preserves_lift {A} (r : Res A) : preserves (lift r).
Proof. intros s. apply R_refl. Qed.

Lemma preserves_get : preserves get.
Proof. intros s. apply R_refl. Qed.

Lemma preserves_bind {A B} (m : M A) (f : A -> M B) :
  preserves m -> (forall a, preserves (f a)) -> preserves (bind m f).
Proof.
  intros Hm Hf s. unfold bind. specialize (Hm s).
  destruct (m s) as [[a|e] s1]; simpl in *; [|done].
  eapply R_trans; [exact Hm|apply Hf].
Qed.

Lemma preserves_try_catch {A} (m : M A) (h : string -> M A) :
  preserves m -> (forall e, preserves (h e)) -> preserves (try_catch m h).
Proof.
  intros Hm Hh s. unfold try_catch. specialize (Hm s).
  destruct (m s) as [[a|e] s1]; simpl in *; [done|].
  eapply R_trans; [exact Hm|apply Hh].
Qed.

Lemma preserves_send (m : Msg) : preserves (safeWebSocketSend m).
Proof. intros s. apply R_send. Qed.

Lemma preserves_modify (f : Session -> Session) :
  (forall s, R s (f s)) -> preserves (modify f).
Proof. intros Hf s. apply Hf. Qed.

Lemma preserves_forward (reported : list (list (string * jsval))) :
  preserves (forward reported).
Proof.
  intros s. unfold forward. cbn [snd]. revert s.
  induction reported as [|p reported IH]; intros s; simpl; [apply R_refl|].
  eapply R_trans; [apply (R_send (progress p))|apply IH].
Qed.

Lemma preserves_tool (t : Tool) (forwarding : bool) : preserves (tool t forwarding).
Proof.
  intros s. unfold Handlers.tool.
  destruct (handleTool t (handler s)) as [[r reported] h]. cbn [snd].
  destruct forwarding; [|apply R_handler].
  eapply R_trans; [apply R_handler|apply preserves_forward].
Qed.

Ltac preserves_step :=
  lazymatch goal with
  | |- preserves (bind _ _) => apply preserves_bind; [|intros]
  | |- preserves (try_catch _ _) => apply preserves_try_catch; [|intros]
  | |- preserves (ret _) => apply preserves_ret
  | |- preserves (throw _) => apply preserves_throw
  | |- preserves (lift _) => apply preserves_lift
  | |- preserves get => apply preserves_get
  | |- preserves (safeWebSocketSend _) => apply preserves_send
  | |- preserves (Handlers.tool _ _ ?t ?f) => exact (preserves_tool t f)
  | |- preserves (modify (set_pageSnapshot _)) =>
      apply preserves_modify; intros; apply R_snapshot
  | |- preserves (if ?c then _ else _) => destruct c
  | |- preserves (match ?x with _ => _ end) => destruct x
  end.

Lemma preserves_findBestSelector (els : list Info.t) (actionType : string)
    (description : jsval) :
  preserves (findBestSelector els actionType description).
Proof.
  unfold Handlers.findBestSelector.
  destruct (bool_decide (length els = 0%nat)); [apply preserves_ret|].
  apply preserves_bind; [apply preserves_lift|intros exactMatch].
  destruct (truthy exactMatch); [apply preserves_ret|].
  apply preserves_try_catch; [|intros; apply preserves_lift].
  intros s. destruct (selectorModel _ _ _ (handler s)) as [r h]. apply R_handler.
Qed.

Lemma preserves_better_selector (actionType : string) (description selector : jsval) :
  preserves (better_selector actionType description selector).
Proof.
  unfold Handlers.better_selector.
  apply preserves_bind; [apply preserves_get|intros s0].
  destruct (pageSnapshot s0 ≫= elements); [|apply preserves_ret].
  apply preserves_bind; [apply preserves_findBestSelector|intros; apply preserves_ret].
Qed.

Lemma preserves_refresh_snapshot : preserves refresh_snapshot.
Proof. unfold Handlers.refresh_snapshot. repeat preserves_step. Qed.

Lemma preserves_when_active (body : M unit) : preserves body -> preserves (when_active body).
Proof. intros Hb. unfold when_active. repeat first [preserves_step | assumption]. Qed.

(** The handlers but [handleNavigate], when the relation allows to record
    a step and the last action. *)
Hypothesis R_push : forall line s, R s (push_testStep line s).
Hypothesis R_last : forall v s, R s (set_lastAction v s).

Ltac preserves_handler :=
  cbv zeta;
  repeat first
    [ apply preserves_when_active
    | apply preserves_better_selector
    | apply preserves_refresh_snapshot
    | apply preserves_modify; intros; first [apply R_push | apply R_last]
    | preserves_step ].

Lemma preserves_handleClick (a : Chat.ActionObj) : preserves (handleClick a).
Proof. unfold Handlers.handleClick. preserves_handler. Qed.

Lemma preserves_handleType (a : Chat.ActionObj) : preserves (handleType a).
Proof. unfold Handlers.handleType. preserves_handler. Qed.

Lemma preserves_handleSearch (a : Chat.ActionObj) : preserves (handleSearch a).
Proof. unfold Handlers.handleSearch. preserves_handler. Qed.

Lemma preserves_handleScroll (a : Chat.ActionObj) : preserves (handleScroll a).
Proof. unfold Handlers.handleScroll. preserves_handler. Qed.

Lemma preserves_handleWait (a : Chat.ActionObj) : preserves (handleWait a).
Proof. unfold Handlers.handleWait. preserves_handler. Qed.

Lemma preserves_handlePressKey (a : Chat.ActionObj) : preserves (handlePressKey a).
Proof. unfold Handlers.handlePressKey. preserves_handler. Qed.

Lemma preserves_handleScreenshot : preserves handleScreenshot.
Proof. unfold Handlers.handleScreenshot. preserves_handler. Qed.

Lemma preserves_generateTest : preserves generateTest.
Proof.
  unfold Handlers.generateTest.
  apply preserves_bind; [apply preserves_get|intros s0].
  destruct (bool_decide (length (testSteps s0) = 0%nat)); [apply preserves_send|].
  apply preserves_try_catch; [|intros; apply preserves_send]. cbv zeta.
  apply preserves_bind; [apply preserves_send|intros _].
  apply preserves_bind.
  - intros s. destruct (writeTest _ _ (handler s)) as [r h]. apply R_handler.
  - intros _. repeat preserves_step.
Qed.

(** The rest of [handleNavigate] after the browser is there, when the
    relation allows to set the URL as well. *)
Hypothesis R_url : forall v s, R s (set_currentUrl v s).

Lemma preserves_load_page (url : jsval) : preserves (load_page url).
Proof.
  unfold Handlers.load_page. cbv zeta.
  repeat first
    [ apply preserves_refresh_snapshot
    | apply preserves_modify; intros; first [apply R_push | apply R_url]
    | preserves_step ].
Qed.

(** Every action but [navigate]. *)
Lemma preserves_other_actions (a : Chat.ActionObj) :
  Chat.action a <> JStr "navigate" -> preserves (executeAction a).
Proof.
  intros Hnav. unfold Handlers.executeAction. cbv zeta.
  unfold same at 1. rewrite bool_decide_eq_false_2 by done.
  apply preserves_try_catch; [|intros; apply preserves_send].
  repeat first
    [ apply preserves_handleClick | apply preserves_handleType
    | apply preserves_handleSearch | apply preserves_handleScroll
    | apply preserves_handleWait | apply preserves_handlePressKey
    | apply preserves_handleScreenshot | apply preserves_generateTest
    | apply preserves_send
    | match goal with |- preserves (if ?c then _ else _) => destruct c end ].
Qed.

(** Every action, when the relation allows to activate the session. *)
Hypothesis R_active : forall s, R s (set_isActive true s).

Lemma preserves_handleNavigate (a : Chat.ActionObj) : preserves (handleNavigate a).
Proof.
  unfold Handlers.handleNavigate. cbv zeta.
  apply preserves_try_catch; [|intros; apply preserves_send].
  apply preserves_bind; [|intros; apply preserves_load_page].
  unfold Handlers.ensure_browser.
  repeat first [apply preserves_modify; intros; apply R_active | preserves_step].
Qed.

Lemma preserves_executeAction (a : Chat.ActionObj) : preserves (executeAction a).
Proof.
  unfold Handlers.executeAction. cbv zeta.
  apply preserves_try_catch; [|intros; apply preserves_send].
  repeat first
    [ apply preserves_handleNavigate
    | apply preserves_handleClick | apply preserves_handleType
    | apply preserves_handleSearch | apply preserves_handleScroll
    | apply preserves_handleWait | apply preserves_handlePressKey
    | apply preserves_handleScreenshot | apply preserves_generateTest
    | apply preserves_send
    | match goal with |- preserves (if ?c then _ else _) => destruct c end ].
Qed.

End Preserved.

(** *** Sending *)

Lemma send_spec (m : Msg) (s : Session) :
  fst (safeWebSocketSend m s) = Ok tt
  /\ handler (snd (safeWebSocketSend m s)) = handler s
  /\ isActive (snd (safeWebSocketSend m s)) = isActive s
  /\ currentUrl (snd (safeWebSocketSend m s)) = currentUrl s
  /\ testSteps (snd (safeWebSocketSend m s)) = testSteps s
  /\ open (snd (safeWebSocketSend m s)) = open s
  /\ (open s = true -> sent (snd (safeWebSocketSend m s)) = sent s ++ [m]).
Proof.
  unfold safeWebSocketSend, modify, open, sent. cbn [fst snd].
  destruct (ws s) as [sock|] eqn:E; [|by rewrite E].
  destruct (is_open sock) eqn:Eo; simpl; [done|]. by rewrite E, Eo.
Qed.

(** The step record and the socket are as they were. *)
Definition quiet (s s' : Session) : Prop :=
  open s' = open s /\ testSteps s' = testSteps s.

(** The session is as active as it was. *)
Definition same_activity (s s' : Session) : Prop := isActive s' = isActive s.

(** The session is as active as it was, at the URL where it was. *)
Definition same_place (s s' : Session) : Prop :=
  isActive s' = isActive s /\ currentUrl s' = currentUrl s.

Lemma quiet_trans (s1 s2 s3 : Session) : quiet s1 s2 -> quiet s2 s3 -> quiet s1 s3.
Proof. unfold quiet. intros [??] [??]. split; congruence. Qed.

Lemma quiet_send (m : Msg) (s : Session) : quiet s (snd (safeWebSocketSend m s)).
Proof. destruct (send_spec m s) as (_ & _ & _ & _ & Ht & Ho & _). by split. Qed.

Ltac quiet_with lemma :=
  apply (lemma quiet);
  first [ done | exact quiet_trans | exact quiet_send ].

Lemma quiet_tool (t : Tool) (forwarding : bool) : preserves quiet (tool t forwarding).
Proof. quiet_with preserves_tool. Qed.

Lemma quiet_better_selector (actionType : string) (description selector : jsval) :
  preserves quiet (better_selector actionType description selector).
Proof. quiet_with preserves_better_selector. Qed.

Lemma quiet_refresh_snapshot : preserves quiet refresh_snapshot.
Proof. quiet_with preserves_refresh_snapshot. Qed.

Lemma quiet_ensure_browser : preserves quiet ensure_browser.
Proof.
  unfold Handlers.ensure_browser.
  apply (preserves_bind quiet quiet_trans); [by intros s|intros s0].
  destruct (negb (isActive s0)); [|by intros s].
  apply (preserves_bind quiet quiet_trans); [exact (quiet_send _)|intros _].
  apply (preserves_bind quiet quiet_trans); [apply quiet_tool|intros _].
  by intros s.
Qed.

(** *** What a handler records *)

(** A [try] block of a handler: when it throws, nothing was recorded; when
    it returns, one step was recorded and the last message is not an error. *)
Definition body_ok (m : M unit) : Prop :=
  forall s, open s = true ->
    match m s with
    | (Throw _, s1) => quiet s s1
    | (Ok _, s1) =>
        open s1 = true /\ reported_failure s1 = false
        /\ exists line, testSteps s1 = testSteps s ++ [line]
    end.

(** The end of a [try] block, after the step was recorded: it returns, and
    its last message is not an error. *)
Definition post_ok (m : M unit) : Prop :=
  forall s, open s = true ->
    exists s1, m s = (Ok tt, s1) /\ quiet s s1 /\ reported_failure s1 = false.

(** A handler: it returns; either its last message is an error and nothing
    was recorded, or one step was recorded. *)
Definition handler_ok (m : M unit) : Prop :=
  forall s, open s = true ->
    exists s', m s = (Ok tt, s') /\ open s' = true
      /\ if reported_failure s' then testSteps s' = testSteps s
         else exists line, testSteps s' = testSteps s ++ [line].

Lemma send_last (m : Msg) (s : Session) :
  open s = true ->
  exists s1, safeWebSocketSend m s = (Ok tt, s1) /\ quiet s s1
             /\ reported_failure s1 = is_error m.
Proof.
  intros Ho. destruct (send_spec m s) as (Hr & _ & _ & _ & Ht & Ho' & Hs).
  exists (snd (safeWebSocketSend m s)).
  split; [by destruct (safeWebSocketSend m s) as [[[]|] ?]; simpl in *; try done|].
  split; [by split|].
  unfold reported_failure. by rewrite (Hs Ho), last_snoc.
Qed.

Lemma post_ok_send (m : Msg) : is_error m = false -> post_ok (safeWebSocketSend m).
Proof.
  intros Hm s Ho. destruct (send_last m s Ho) as (s1 & E & Hq & Hf).
  exists s1. by rewrite <- Hm.
Qed.

Lemma post_ok_refresh (m1 : list Info.t -> Msg) (m2 : Msg) :
  (forall els, is_error (m1 els) = false) -> is_error m2 = false ->
  post_ok (try_catch (bind refresh_snapshot (fun els => safeWebSocketSend (m1 els)))
             (fun _ => safeWebSocketSend m2)).
Proof.
  intros H1 H2 s Ho. unfold try_catch, bind.
  pose proof (quiet_refresh_snapshot s) as Hq.
  destruct (refresh_snapshot s) as [[els|e] s1]; cbn [snd] in Hq.
  - assert (Ho1 : open s1 = true) by (destruct Hq as [-> _]; exact Ho).
    destruct (post_ok_send (m1 els) (H1 els) s1 Ho1) as (s2 & -> & Hq2 & Hf).
    exists s2. split; [done|]. split; [by eapply quiet_trans|done].
  - assert (Ho1 : open s1 = true) by (destruct Hq as [-> _]; exact Ho).
    destruct (post_ok_send m2 H2 s1 Ho1) as (s2 & -> & Hq2 & Hf).
    exists s2. split; [done|]. split; [by eapply quiet_trans|done].
Qed.

Lemma post_ok_last (v : option (jsval * jsval)) (m : Msg) :
  is_error m = false ->
  post_ok (bind (modify (set_lastAction v)) (fun _ => safeWebSocketSend m)).
Proof.
  intros Hm s Ho. unfold bind, modify.
  destruct (post_ok_send m Hm (set_lastAction v s) Ho) as (s2 & -> & [Ho2 Ht2] & Hf).
  exists s2. split; [done|]. split; [|done]. split; [exact Ho2|exact Ht2].
Qed.

Lemma body_ok_throw (e : string) : body_ok (throw e).
Proof. intros s Ho. by split. Qed.

Lemma body_ok_bind {A} (m : M A) (f : A -> M unit) :
  preserves quiet m -> (forall a, body_ok (f a)) -> body_ok (bind m f).
Proof.
  intros Hm Hf s Ho. unfold bind. specialize (Hm s).
  destruct (m s) as [[a|e] s1]; cbn [snd] in Hm; [|done].
  destruct Hm as [Ho1 Ht1]. specialize (Hf a s1 ltac:(congruence)).
  destruct (f a s1) as [[[]|e] s2].
  - destruct Hf as (? & ? & line & ?). split; [done|]. split; [done|].
    exists line. congruence.
  - destruct Hf as [??]. split; congruence.
Qed.

Lemma body_ok_push (line : string) (k : M unit) :
  post_ok k -> body_ok (bind (modify (push_testStep line)) (fun _ => k)).
Proof.
  intros Hk s Ho. unfold bind, modify.
  destruct (Hk (push_testStep line s) Ho) as (s1 & -> & [Ho1 Ht1] & Hf).
  split; [rewrite Ho1; exact Ho|]. split; [done|]. exists line. rewrite Ht1. reflexivity.
Qed.

Lemma handler_ok_try (body : M unit) (failed : string -> string) :
  body_ok body ->
  handler_ok (try_catch body (fun e => safeWebSocketSend (error (failed e)))).
Proof.
  intros Hb s Ho. unfold try_catch. specialize (Hb s Ho).
  destruct (body s) as [[[]|e] s1].
  - destruct Hb as (Ho1 & Hf & line & Ht). exists s1.
    split; [done|]. split; [done|]. rewrite Hf. by exists line.
  - destruct Hb as [Ho1 Ht1].
    destruct (send_last (error (failed e)) s1 ltac:(congruence)) as (s2 & -> & [Ho2 Ht2] & Hf).
    exists s2. split; [done|]. split; [congruence|]. rewrite Hf. simpl. congruence.
Qed.

Lemma handler_ok_when_active (body : M unit) :
  handler_ok body -> handler_ok (when_active body).
Proof.
  intros Hb s Ho. unfold when_active, bind, get.
  destruct (negb (isActive s)); [|by apply Hb].
  destruct (send_last (error "Please navigate to a website first") s Ho)
    as (s2 & -> & [Ho2 Ht2] & Hf).
  exists s2. split; [done|]. split; [congruence|]. by rewrite Hf.
Qed.

Ltac body_steps :=
  cbv zeta;
  repeat first
    [ apply body_ok_push
    | apply post_ok_refresh; [intros; reflexivity|reflexivity]
    | apply post_ok_last; reflexivity
    | apply post_ok_send; reflexivity
    | apply body_ok_throw
    | apply body_ok_bind;
        [first [ apply quiet_better_selector
               | match goal with
                 | |- preserves _ (Handlers.tool _ _ ?t ?f) => exact (quiet_tool t f)
                 end
               | apply quiet_ensure_browser
               | exact (quiet_send _)
               | by intros ? ]
        |intros]
    | match goal with |- body_ok (match ?x with _ => _ end) => destruct x end ].

Lemma handleNavigate_ok (a : Chat.ActionObj) : handler_ok (handleNavigate a).
Proof.
  unfold Handlers.handleNavigate. cbv zeta. apply handler_ok_try.
  unfold Handlers.load_page. body_steps.
Qed.

Lemma handleClick_ok (a : Chat.ActionObj) : handler_ok (handleClick a).
Proof.
  unfold Handlers.handleClick. apply handler_ok_when_active, handler_ok_try. body_steps.
Qed.

Lemma handleType_ok (a : Chat.ActionObj) : handler_ok (handleType a).
Proof.
  unfold Handlers.handleType. apply handler_ok_when_active, handler_ok_try. body_steps.
Qed.

Lemma handleScroll_ok (a : Chat.ActionObj) : handler_ok (handleScroll a).
Proof.
  unfold Handlers.handleScroll. apply handler_ok_when_active, handler_ok_try. body_steps.
Qed.

Lemma handleWait_ok (a : Chat.ActionObj) : handler_ok (handleWait a).
Proof.
  unfold Handlers.handleWait. apply handler_ok_when_active, handler_ok_try. body_steps.
Qed.

Lemma handlePressKey_ok (a : Chat.ActionObj) : handler_ok (handlePressKey a).
Proof.
  unfold Handlers.handlePressKey. apply handler_ok_when_active, handler_ok_try. body_steps.
Qed.

Lemma passes_through (m : M unit) (failed : string -> M unit) (s s' : Session) :
  m s = (Ok tt, s') -> try_catch m failed s = (Ok tt, s').
Proof. intros E. unfold try_catch. by rewrite E. Qed.

(** X23.  For [navigate], [click], [type], [scroll], [wait] and [press_key], on an
    open socket: [executeAction] returns, and either the last message to the
    client is an error and no step was recorded, or exactly one step was
    recorded.  A failed action leaves no line in the replay script. *)
Theorem failed_actions_are_not_recorded (a : Chat.ActionObj) (k : string) (s : Session) :
  k ∈ plain_actions ->
  Chat.action a = JStr k ->
  open s = true ->
  exists s' : Session,
    executeAction a s = (Ok tt, s')
    /\ if reported_failure s' then testSteps s' = testSteps s
       else exists line, testSteps s' = testSteps s ++ [line].
Proof.
  intros Hk Ha Ho. unfold Handlers.executeAction. cbv zeta. unfold same. rewrite Ha.
  unfold plain_actions in Hk. rewrite !elem_of_cons, elem_of_nil in Hk.
  destruct Hk as [->|[->|[->|[->|[->|[->|[]]]]]]]; simpl.
  - destruct (handleNavigate_ok a s Ho) as (s' & E & _ & Hout).
    exists s'. split; [by apply passes_through|done].
  - destruct (handleClick_ok a s Ho) as (s' & E & _ & Hout).
    exists s'. split; [by apply passes_through|done].
  - destruct (handleType_ok a s Ho) as (s' & E & _ & Hout).
    exists s'. split; [by apply passes_through|done].
  - destruct (handleScroll_ok a s Ho) as (s' & E & _ & Hout).
    exists s'. split; [by apply passes_through|done].
  - destruct (handleWait_ok a s Ho) as (s' & E & _ & Hout).
    exists s'. split; [by apply passes_through|done].
  - destruct (handlePressKey_ok a s Ho) as (s' & E & _ & Hout).
    exists s'. split; [by apply passes_through|done].
Qed.

(** X24.  Before the first navigation of a session, an action that needs a page
    is refused: the client is sent
    [Please navigate to a website first], and nothing else happens: no
    tool is called and nothing is recorded. *)
Theorem inactive_session_refuses (a : Chat.ActionObj) (k : string) (s : Session) :
  k ∈ page_actions ->
  Chat.action a = JStr k ->
  isActive s = false ->
  executeAction a s
  = (Ok tt, snd (safeWebSocketSend (error "Please navigate to a website first") s)).
Proof.
  intros Hk Ha Hactive. unfold Handlers.executeAction. cbv zeta. unfold same. rewrite Ha.
  unfold page_actions in Hk. rewrite !elem_of_cons, elem_of_nil in Hk.
  assert (Hrefused : forall body : M unit,
            when_active body s
            = (Ok tt, snd (safeWebSocketSend (error "Please navigate to a website first") s))).
  { intros body. unfold when_active, bind, get. rewrite Hactive. cbn [negb].
    destruct (send_spec (error "Please navigate to a website first") s) as [Hr _].
    by destruct (safeWebSocketSend _ s) as [[[]|] ?]. }
  destruct Hk as [->|[->|[->|[->|[->|[->|[->|[]]]]]]]]; simpl;
    apply passes_through;
    [ unfold Handlers.handleClick | unfold Handlers.handleType
    | unfold Handlers.handleSearch | unfold Handlers.handleScroll
    | unfold Handlers.handleWait | unfold Handlers.handleScreenshot
    | unfold Handlers.handlePressKey ];
    apply Hrefused.
Qed.

(** The [try] block of [handleSearch]: when it throws, nothing or only the
    first of its two steps was recorded. *)
Definition search_body_ok (m : M unit) : Prop :=
  forall s, open s = true ->
    match m s with
    | (Throw _, s1) =>
        open s1 = true
        /\ (testSteps s1 = testSteps s \/ exists fill, testSteps s1 = testSteps s ++ [fill])
    | (Ok _, s1) =>
        open s1 = true /\ reported_failure s1 = false
        /\ exists fill press, testSteps s1 = testSteps s ++ [fill; press]
    end.

Lemma search_body_ok_bind {A} (m : M A) (f : A -> M unit) :
  preserves quiet m -> (forall a, search_body_ok (f a)) -> search_body_ok (bind m f).
Proof.
  intros Hm Hf s Ho. unfold bind. specialize (Hm s).
  destruct (m s) as [[a|e] s1]; cbn [snd] in Hm.
  2:{ destruct Hm as [Ho1 Ht1]. split; [congruence|by left]. }
  destruct Hm as [Ho1 Ht1]. specialize (Hf a s1 ltac:(congruence)).
  destruct (f a s1) as [[[]|e] s2]; rewrite Ht1 in Hf; exact Hf.
Qed.

Lemma search_body_ok_push (line : string) (k : M unit) :
  body_ok k -> search_body_ok (bind (modify (push_testStep line)) (fun _ => k)).
Proof.
  intros Hk s Ho. unfold bind, modify. specialize (Hk (push_testStep line s) Ho).
  destruct (k (push_testStep line s)) as [[[]|e] s1].
  - destruct Hk as (Ho1 & Hf & press & Ht). split; [done|]. split; [done|].
    exists line, press. rewrite Ht. cbn [testSteps push_testStep].
    by rewrite <- app_assoc.
  - destruct Hk as [Ho1 Ht1]. split; [rewrite Ho1; exact Ho|].
    right. exists line. rewrite Ht1. reflexivity.
Qed.

(** [handleSearch] as a whole. *)
Definition search_ok (m : M unit) : Prop :=
  forall s, open s = true ->
    exists s' : Session,
      m s = (Ok tt, s')
      /\ if reported_failure s'
         then testSteps s' = testSteps s
              \/ exists fill, testSteps s' = testSteps s ++ [fill]
         else exists fill press, testSteps s' = testSteps s ++ [fill; press].

Lemma search_ok_try (body : M unit) (failed : string -> string) :
  search_body_ok body ->
  search_ok (try_catch body (fun e => safeWebSocketSend (error (failed e)))).
Proof.
  intros Hb s Ho. unfold try_catch. specialize (Hb s Ho).
  destruct (body s) as [[[]|e] s1].
  - destruct Hb as (Ho1 & Hf & Ht). exists s1. split; [done|]. by rewrite Hf.
  - destruct Hb as [Ho1 Ht1].
    destruct (send_last (error (failed e)) s1 Ho1) as (s2 & -> & [Ho2 Ht2] & Hf).
    exists s2. split; [done|]. rewrite Hf, Ht2. exact Ht1.
Qed.

Lemma search_ok_when_active (body : M unit) : search_ok body -> search_ok (when_active body).
Proof.
  intros Hb s Ho. unfold when_active, bind, get.
  destruct (negb (isActive s)); [|by apply Hb].
  destruct (send_last (error "Please navigate to a website first") s Ho)
    as (s2 & -> & [Ho2 Ht2] & Hf).
  exists s2. split; [done|]. rewrite Hf. by left.
Qed.

Lemma handleSearch_ok (a : Chat.ActionObj) : search_ok (handleSearch a).
Proof.
  unfold Handlers.handleSearch.
  apply search_ok_when_active.
  apply (search_ok_try _ (fun e => "Search failed: " +:+ e
                                   +:+ ". Try navigating to a search page first.")).
  cbv zeta.
  apply search_body_ok_bind; [by intros ?|intros s0].
  apply search_body_ok_bind.
  { destruct (pageSnapshot s0 ≫= elements); [|by intros ?].
    apply (preserves_bind quiet quiet_trans); [by intros ?|by intros ? ?]. }
  intros found.
  apply search_body_ok_bind; [exact (quiet_send _)|intros _].
  apply search_body_ok_bind; [exact (quiet_tool _ _)|intros _].
  apply search_body_ok_push.
  apply body_ok_bind; [exact (quiet_tool _ _)|intros _].
  apply body_ok_push.
  apply post_ok_refresh; [intros; reflexivity|reflexivity].
Qed.

(** X25.  A search records its two steps, the fill and the press of Enter, when it
    succeeds; when it reports an error, it has recorded nothing or the fill
    alone: a search whose Enter fails leaves its fill in the replay script. *)
Theorem search_may_record_its_fill_alone (a : Chat.ActionObj) (s : Session) :
  Chat.action a = JStr "search" ->
  open s = true ->
  exists s' : Session,
    executeAction a s = (Ok tt, s')
    /\ if reported_failure s'
       then testSteps s' = testSteps s
            \/ exists fill, testSteps s' = testSteps s ++ [fill]
       else exists fill press, testSteps s' = testSteps s ++ [fill; press].
Proof.
  intros Ha Ho. unfold Handlers.executeAction. cbv zeta. unfold same. rewrite Ha. simpl.
  destruct (handleSearch_ok a s Ho) as (s' & E & Hout).
  exists s'. split; [by apply passes_through|done].
Qed.

(** The steps recorded before are the first steps recorded after. *)
Definition keeps_steps (s s' : Session) : Prop := testSteps s `prefix_of` testSteps s'.

Definition same_steps (s s' : Session) : Prop := testSteps s' = testSteps s.

(** X26.  No action loses or reorders what was recorded: the steps recorded before
    an action are the first steps recorded after it, whatever the action
    is and however it ends; and generating the test records nothing. *)
Theorem recorded_steps_are_kept (a : Chat.ActionObj) (s : Session) :
  testSteps s `prefix_of` testSteps (snd (executeAction a s))
  /\ (Chat.action a = JStr "generate_test" ->
      testSteps (snd (executeAction a s)) = testSteps s).
Proof.
  split.
  - apply (preserves_executeAction keeps_steps); unfold keeps_steps; try done.
    + intros s1 s2 s3. apply transitivity.
    + intros m s0. by destruct (send_spec m s0) as (_ & _ & _ & _ & -> & _).
    + intros line s0. by apply prefix_app_r.
  - intros Ha. unfold Handlers.executeAction. cbv zeta. unfold same. rewrite Ha. simpl.
    apply (preserves_try_catch same_steps); unfold same_steps; try congruence.
    + apply (preserves_generateTest same_steps); unfold same_steps; try done; try congruence.
      intros m s0. by destruct (send_spec m s0) as (_ & _ & _ & _ & -> & _).
    + intros e s0. by destruct (send_spec (error ("Action failed: " +:+ e)) s0)
        as (_ & _ & _ & _ & -> & _).
Qed.

(** X27.  The file that [generateTest] writes holds every recorded step, indented
    by twelve spaces: with a step recorded, the file is written once, under a
    name made from the clock, and on an open socket the last message is the
    completion with the same code, or the error of the write. *)
Theorem generated_test_has_every_step (s : Session) :
  testSteps s <> [] ->
  let code := testCode (localeDate (handler s)) (testSteps s) (currentUrl s) in
  let fileName := "ai-generated-test-" +:+ pretty (now (handler s)) +:+ ".spec.js" in
  let s' := snd (generateTest s) in
  handler s' = snd (writeTest fileName code (handler s))
  /\ (forall step, step ∈ testSteps s ->
       includes code ("            " +:+ step) = true)
  /\ (open s = true ->
      last (sent s') =
        Some match fst (writeTest fileName code (handler s)) with
             | Ok _ => action_complete "generate_test" [] None (Some code)
                         ("Test generation complete! File saved: " +:+ fileName)
             | Throw e => error ("Test generation failed: " +:+ e)
             end).
Proof.
  intros Hsteps code fileName s'.
  split; [|split].
  - subst s'. unfold Handlers.generateTest, bind at 1, get.
    rewrite bool_decide_eq_false_2 by (by destruct (testSteps s)).
    cbv zeta. fold code fileName. unfold try_catch, bind.
    destruct (send_spec (status "Generating comprehensive test cases...") s)
      as (Hr & Hh & _).
    destruct (safeWebSocketSend (status _) s) as [[[]|] s1]; [|done].
    cbn [snd] in Hh. rewrite Hh.
    destruct (writeTest fileName code (handler s)) as [[[]|e] h]; cbn [snd].
    + set (m1 := test_generated _ _ _ _). set (m2 := action_complete _ _ _ _ _).
      destruct (send_spec m1 (set_handler h s1)) as (Hr1 & Hh1 & _).
      destruct (safeWebSocketSend m1 _) as [[[]|] s2]; [|done]. cbn [snd] in Hh1.
      destruct (send_spec m2 s2) as (Hr2 & Hh2 & _).
      destruct (safeWebSocketSend m2 s2) as [[[]|] s3]; [|done].
      cbn [snd handler set_handler] in *. congruence.
    + by destruct (send_spec (error ("Test generation failed: " +:+ e)) (set_handler h s1))
        as (_ & -> & _).
  - intros step Hin. subst code. unfold testCode. cbv zeta.
    eapply TextFacts.includes_join;
      [do 15 apply list_elem_of_further; apply list_elem_of_here|].
    eapply TextFacts.includes_join; [|apply TextFacts.includes_self].
    apply list_elem_of_fmap. by exists step.
  - intros Ho. subst s'. unfold Handlers.generateTest, bind at 1, get.
    rewrite bool_decide_eq_false_2 by (by destruct (testSteps s)).
    cbv zeta. fold code fileName. unfold try_catch, bind.
    destruct (send_spec (status "Generating comprehensive test cases...") s)
      as (Hr & Hh & _ & _ & _ & Ho1 & _).
    destruct (safeWebSocketSend (status _) s) as [[[]|] s1]; [|done].
    cbn [snd] in Hh, Ho1. rewrite Hh.
    destruct (writeTest fileName code (handler s)) as [[[]|e] h]; cbn [fst snd].
    + set (m1 := test_generated _ _ _ _). set (m2 := action_complete _ _ _ _ _).
      destruct (send_spec m1 (set_handler h s1)) as (Hr1 & _ & _ & _ & _ & Ho2 & _).
      destruct (safeWebSocketSend m1 _) as [[[]|] s2]; [|done]. cbn [snd] in Ho2.
      destruct (send_spec m2 s2) as (Hr2 & _ & _ & _ & _ & _ & Hs).
      destruct (safeWebSocketSend m2 s2) as [[[]|] s3]; [|done]. cbn [snd] in *.
      rewrite Hs by (rewrite Ho2; unfold open in *; cbn [ws set_handler]; congruence).
      apply last_snoc.
    + destruct (send_spec (error ("Test generation failed: " +:+ e)) (set_handler h s1))
        as (_ & _ & _ & _ & _ & _ & Hs).
      rewrite Hs by (unfold open in *; cbn [ws set_handler]; congruence).
      apply last_snoc.
Qed.

Lemma same_place_trans (s1 s2 s3 : Session) :
  same_place s1 s2 -> same_place s2 s3 -> same_place s1 s3.
Proof. unfold same_place. intros [??] [??]. split; congruence. Qed.

Lemma same_place_send (m : Msg) (s : Session) :
  same_place s (snd (safeWebSocketSend m s)).
Proof. destruct (send_spec m s) as (_ & _ & Ha & Hu & _). by split. Qed.

Lemma same_activity_trans (s1 s2 s3 : Session) :
  same_activity s1 s2 -> same_activity s2 s3 -> same_activity s1 s3.
Proof. unfold same_activity. congruence. Qed.

Lemma same_activity_send (m : Msg) (s : Session) :
  same_activity s (snd (safeWebSocketSend m s)).
Proof. by destruct (send_spec m s) as (_ & _ & Ha & _). Qed.

Lemma load_page_same_activity (url : jsval) : preserves same_activity (load_page url).
Proof.
  apply (preserves_load_page same_activity);
    first [ done | exact same_activity_trans | exact same_activity_send ].
Qed.

(** X28.  Only a navigation activates a session or moves it: every other action
    leaves [isActive] and [currentUrl] as they are.  After [navigate] the
    session is active exactly when it was before or the browser could be
    initialized, whether the navigation itself succeeded or not. *)
Theorem only_navigation_activates (a : Chat.ActionObj) (s : Session) :
  (Chat.action a <> JStr "navigate" ->
   isActive (snd (executeAction a s)) = isActive s
   /\ currentUrl (snd (executeAction a s)) = currentUrl s)
  /\ (Chat.action a = JStr "navigate" ->
      isActive (snd (executeAction a s)) = isActive s || browser_starts s).
Proof.
  split.
  - intros Hnav.
    apply (preserves_other_actions same_place); try done;
      first [ exact same_place_trans | exact same_place_send ].
  - intros Hnav. unfold Handlers.executeAction. cbv zeta. unfold same. rewrite Hnav. simpl.
    assert (Hn : exists s', handleNavigate a s = (Ok tt, s')
                            /\ isActive s' = isActive s || browser_starts s).
    { unfold Handlers.handleNavigate, try_catch. cbv zeta. unfold bind at 1.
      unfold Handlers.ensure_browser, bind at 1, get.
      assert (Hrest : forall s1 : Session,
                exists s', match load_page (Chat.url a) s1 with
                           | (Ok a0, s'0) => (Ok a0, s'0)
                           | (Throw e, s'0) =>
                               safeWebSocketSend (error ("Navigation failed: " +:+ e)) s'0
                           end = (Ok tt, s')
                           /\ isActive s' = isActive s1).
      { intros s1. pose proof (load_page_same_activity (Chat.url a) s1) as Hl.
        destruct (load_page (Chat.url a) s1) as [[[]|e] s2]; cbn [snd] in Hl.
        - by exists s2.
        - destruct (send_spec (error ("Navigation failed: " +:+ e)) s2)
            as (Hr & _ & Ha & _).
          destruct (safeWebSocketSend _ s2) as [[[]|] s3]; [|done].
          exists s3. split; [done|]. cbn [snd] in Ha. unfold same_activity in Hl. congruence. }
      destruct (isActive s) eqn:Eactive; cbn [negb orb].
      + unfold ret. destruct (Hrest s) as (s' & E & Ha). exists s'. split; [exact E|congruence].
      + unfold bind.
        destruct (send_spec (status "Initializing browser...") s) as (Hr & Hh & Ha & _).
        destruct (safeWebSocketSend (status "Initializing browser...") s) as [[[]|] s1];
          [|done].
        cbn [snd] in Hh, Ha.
        pose proof (preserves_tool same_activity ltac:(done) same_activity_trans
                      same_activity_send ltac:(done) browser_initialize true s1) as Ht.
        unfold browser_starts. unfold Handlers.tool in *. rewrite Hh in *.
        destruct (handleTool browser_initialize (handler s)) as [[[[]|e] reported] h];
          cbn [snd] in Ht; unfold same_activity in Ht.
        * unfold modify. cbn [fst snd].
          match goal with
          | |- context [load_page _ ?x] => destruct (Hrest x) as (s' & E & Ha')
          end.
          exists s'. split; [exact E|]. rewrite Ha'. reflexivity.
        * destruct (send_spec (error ("Navigation failed: " +:+ e))
                      (snd (forward reported (set_handler h s1)))) as (Hr2 & _ & Ha2 & _).
          destruct (safeWebSocketSend _ (snd (forward reported (set_handler h s1))))
            as [[[]|] s3]; [|done].
          exists s3. split; [done|]. cbn [snd] in Ha2. congruence. }
    destruct Hn as (s' & E & Ha). by rewrite (passes_through _ _ _ _ E).
Qed.

End Handler.

(** The stub handler, clock and file system. *)
Definition clock (h : nat) : Z := 1000 * Z.of_nat h.
Definition today (h : nat) : string := "1/1/2026".
Definition stored (fileName code : string) (h : nat) : Res unit * nat := (Ok tt, S h).

Definition run (rejects : Tool -> option string) (a : Chat.ActionObj) (s : Session nat) :=
  executeAction nat (stub_tool rejects) stub_model clock today stored a s.

Definition visit : Chat.ActionObj :=
  Chat.set_url (JStr "https://example.com") (Chat.obj "navigate").

(** A navigation that succeeds is recorded, one that is rejected is not. *)
Lemma failed_actions_are_not_recorded_witness :
  exists s' : Session nat,
    run no_navigation visit (started open_socket 0%nat) = (Ok tt, s')
    /\ if reported_failure nat s' then testSteps s' = []
       else exists line, testSteps s' = [] ++ [line].
Proof.
  apply (failed_actions_are_not_recorded nat (stub_tool no_navigation) stub_model clock
           today stored visit "navigate" (started open_socket 0%nat)).
  - unfold plain_actions. apply list_elem_of_here.
  - reflexivity.
  - reflexivity.
Defined.

(** A tool that refuses to press a key. *)
Definition no_key (t : Tool) : option string :=
  match t with
  | keyboard_press _ => Some "Keyboard is not available"
  | _ => None
  end.

Definition visited : Session nat := snd (run (fun _ => None) visit (started open_socket 0%nat)).

(** After a visit, a search whose Enter is refused: an error is reported,
    and the fill is the second line of the script. *)
Lemma search_may_record_its_fill_alone_witness :
  exists s' : Session nat,
    run no_key (Chat.set_query (JStr "cats") (Chat.obj "search")) visited = (Ok tt, s')
    /\ reported_failure nat s' = true
    /\ testSteps s' = ["await page.goto('https://example.com');";
                       "await page.fill('#q', 'cats');"].
Proof.
  destruct (search_may_record_its_fill_alone nat (stub_tool no_key) stub_model clock
              today stored (Chat.set_query (JStr "cats") (Chat.obj "search")) visited
              eq_refl eq_refl) as (s' & E & _).
  exists s'. split; [exact E|].
  assert (E' : s' = snd (run no_key (Chat.set_query (JStr "cats") (Chat.obj "search")) visited))
    by (unfold run; rewrite E; reflexivity).
  rewrite E'. split; vm_compute; reflexivity.
Defined.

Lemma inactive_session_refuses_witness :
  run (fun _ => None) (Chat.obj "click") (started open_socket 0%nat)
  = (Ok tt,
     snd (safeWebSocketSend (error "Please navigate to a website first")
            (started open_socket 0%nat))).
Proof.
  apply (inactive_session_refuses nat (stub_tool (fun _ => None)) stub_model clock
           today stored (Chat.obj "click") "click" (started open_socket 0%nat)).
  - unfold page_actions. apply list_elem_of_here.
  - reflexivity.
  - reflexivity.
Defined.

(** After a visit, the generated file holds the recorded navigation. *)
Lemma generated_test_has_every_step_witness :
  testSteps visited = ["await page.goto('https://example.com');"]
  /\ includes (testCode (today (handler visited)) (testSteps visited) (currentUrl visited))
       "            await page.goto('https://example.com');" = true.
Proof.
  assert (Hs : testSteps visited = ["await page.goto('https://example.com');"])
    by (vm_compute; reflexivity).
  split; [exact Hs|].
  assert (Hne : testSteps visited <> []) by (rewrite Hs; discriminate).
  destruct (generated_test_has_every_step nat clock today stored visited Hne)
    as (_ & Hin & _).
  apply (Hin "await page.goto('https://example.com');").
  rewrite Hs. apply list_elem_of_here.
Defined.

End HandlerFacts.
